(** * figma-tokensync: the styles and variables exporter

    A shallow embedding of the plugin's extraction pipeline ([code.js]:
    [exportStylesAndVariables] and the functions it calls) and of the token
    generator of the earlier synchronous extractor ([styleNameToToken]),
    followed by the properties proved about them.

    Conventions of the embedding.
    - A JS string is a [string]; the string methods are defined on its list of
      characters.  Names are read as ASCII text: [toLowerCase] folds [A-Z] and
      the class [\s] is the ASCII white space.
    - A JS number is a [Num]: NaN, the two infinities, or a rational.  The
      arithmetic the exporter does on numbers (clamping, scaling by 255 or 100,
      [Math.round], comparison with 1) is exact on rationals; binary rounding
      is not modelled.  How a number prints, [Math.atan2] and [parseFloat] are
      taken from the engine ([JsEngine]).
    - The records of the document have the fields the exporter reads, with the
      types of the plugin API; a property the code tests for absence is an
      [option], [None] being [undefined].
    - An object used as a dictionary is a [gmap] ([collectionMap],
      [data.collections], whose keys are taken to be ordinary property names),
      a [Set] is a [gset]; an object whose key order is read back
      ([Object.values(convertedValues)[0]]) is an association list kept in the
      order JS enumerates keys.
    - An [async] function returns a [Promise]: [Fulfilled v] or [Rejected e];
      a [throw] inside it is a rejection, and [await] of a rejection rethrows.
    - [console] output is not part of the model. *)

From Stdlib Require Import ZArith QArith Qround String Ascii List Lia.
From Stdlib Require DecimalString HexadecimalString.
From stdpp Require Import gmap strings list.

Open Scope string_scope.

(** ** Characters and the regular-expression passes used by the sources *)

Abbreviation chars := (list ascii).

Definition code (c : ascii) : N := N_of_ascii c.

Definition in_range (lo hi : N) (c : ascii) : bool :=
  ((lo <=? code c) && (code c <=? hi))%N.

Definition is_upper (c : ascii) : bool := in_range 65 90 c.
Definition is_lower (c : ascii) : bool := in_range 97 122 c.
Definition is_digit (c : ascii) : bool := in_range 48 57 c.

(** The class [[a-z0-9]]. *)
Definition is_a_z0_9 (c : ascii) : bool := is_lower c || is_digit c.

(** The class [\s], on ASCII: tab, line feed, vertical tab, form feed,
    carriage return and space. *)
Definition is_space (c : ascii) : bool := in_range 9 13 c || (code c =? 32)%N.

Definition is_char (x c : ascii) : bool := (code c =? code x)%N.

Definition hyphen : ascii := "-"%char.
Definition underscore : ascii := "_"%char.

(** The class [[a-z0-9\s\-\_]] of [styleNameToToken]. *)
Definition is_slug_char (c : ascii) : bool :=
  is_a_z0_9 c || is_space c || is_char hyphen c || is_char underscore c.

Definition lower_char (c : ascii) : ascii :=
  if is_upper c then ascii_of_N (code c + 32) else c.

(** [s.toLowerCase()] *)
Definition toLowerCase_chars (s : chars) : chars := map lower_char s.

(** [s.replace(/[class]/g, r)]: every character of the class is replaced. *)
Definition replace_each (p : ascii -> bool) (r : chars) (s : chars) : chars :=
  flat_map (fun c => if p c then r else [c]) s.

(** What a finished run of class characters becomes under
    [replace(/[class]{min,}/g, r)]: [r] when it is long enough, itself
    otherwise. *)
Definition flush (min : nat) (r run : chars) : chars :=
  if (min <=? length run)%nat then r else run.

(** [s.replace(/[class]{min,}/g, r)] for [min >= 1]: the scan keeps the run
    of class characters read so far in [run]; a maximal run is replaced by
    [r] when it has at least [min] characters. *)
Fixpoint replace_runs_from (p : ascii -> bool) (min : nat) (r run s : chars) : chars :=
  match s with
  | [] => flush min r run
  | c :: s' =>
      if p c then replace_runs_from p min r (run ++ [c]) s'
      else flush min r run ++ c :: replace_runs_from p min r [] s'
  end.

Definition replace_runs (p : ascii -> bool) (min : nat) (r s : chars) : chars :=
  replace_runs_from p min r [] s.

Definition drop_first_if (p : ascii -> bool) (s : chars) : chars :=
  match s with
  | c :: s' => if p c then s' else s
  | [] => []
  end.

Fixpoint drop_last_if (p : ascii -> bool) (s : chars) : chars :=
  match s with
  | [] => []
  | c :: s' =>
      match s' with
      | [] => if p c then [] else [c]
      | _ :: _ => c :: drop_last_if p s'
      end
  end.

(** [s.replace(/^X|X$/g, '')]: one class character is removed at the start
    and one at the end. *)
Definition strip_one_each_end (p : ascii -> bool) (s : chars) : chars :=
  drop_last_if p (drop_first_if p s).

Fixpoint drop_leading (p : ascii -> bool) (s : chars) : chars :=
  match s with
  | c :: s' => if p c then drop_leading p s' else s
  | [] => []
  end.

Fixpoint drop_trailing (p : ascii -> bool) (s : chars) : chars :=
  match s with
  | [] => []
  | c :: s' =>
      match drop_trailing p s' with
      | [] => if p c then [] else [c]
      | t => c :: t
      end
  end.

(** [s.replace(/^[class]+|[class]+$/g, '')]: the leading and the trailing
    run of class characters are removed. *)
Definition strip_runs_each_end (p : ascii -> bool) (s : chars) : chars :=
  drop_trailing p (drop_leading p s).

(** [s.replace(x, r)] with a one-character string pattern: the first
    occurrence only. *)
Fixpoint replace_first (x : ascii) (r : chars) (s : chars) : chars :=
  match s with
  | [] => []
  | c :: s' => if is_char x c then r ++ s' else c :: replace_first x r s'
  end.

(** A method on strings from its definition on characters. *)
Definition on_chars (f : chars -> chars) (s : string) : string :=
  string_of_list_ascii (f (list_ascii_of_string s)).

Definition toLowerCase : string -> string := on_chars toLowerCase_chars.

(** [s.trim()] *)
Definition trim : string -> string := on_chars (strip_runs_each_end is_space).

(** ** Token name generators *)

(** [generateToken] of code.js:
    [name.toLowerCase().replace(/[^a-z0-9]/g, '-').replace(/-+/g, '-').replace(/^-|-$/g, '')] *)
Definition generateToken_chars (name : chars) : chars :=
  strip_one_each_end (is_char hyphen)
    (replace_runs (is_char hyphen) 1 [hyphen]
       (replace_each (fun c => negb (is_a_z0_9 c)) [hyphen]
          (toLowerCase_chars name))).

Definition generateToken : string -> string := on_chars generateToken_chars.

(** [styleNameToToken] of the synchronous extractor:
    [name.toLowerCase().replace(/[^a-z0-9\s\-\_]/g, '').replace(/\s+/g, '-')
         .replace(/_{2,}/g, '_').replace(/-{2,}/g, '-').replace(/^[-_]+|[-_]+$/g, '')] *)
Definition styleNameToToken_chars (name : chars) : chars :=
  strip_runs_each_end (fun c => is_char hyphen c || is_char underscore c)
    (replace_runs (is_char hyphen) 2 [hyphen]
       (replace_runs (is_char underscore) 2 [underscore]
          (replace_runs is_space 1 [hyphen]
             (replace_each (fun c => negb (is_slug_char c)) []
                (toLowerCase_chars name))))).

Definition styleNameToToken : string -> string := on_chars styleNameToToken_chars.

(** *** The slug as the specification words it

    Lower-case; strip the characters outside [[a-z0-9\s_-]]; collapse internal
    white space to a single hyphen; collapse repeated underscore and hyphen
    runs; trim leading and trailing underscores and hyphens. *)

(** Collapsing: a class character followed by another one is dropped, the
    last one of a run is written as [r]. *)
Fixpoint squeeze (p : ascii -> bool) (r : ascii) (s : chars) : chars :=
  match s with
  | [] => []
  | c :: s' =>
      if p c then
        match s' with
        | c' :: _ => if p c' then squeeze p r s' else r :: squeeze p r s'
        | [] => [r]
        end
      else c :: squeeze p r s'
  end.

Definition trim_class (p : ascii -> bool) (s : chars) : chars :=
  rev (drop_leading p (rev (drop_leading p s))).

Definition slugify_spec_chars (name : chars) : chars :=
  trim_class (fun c => is_char hyphen c || is_char underscore c)
    (squeeze (is_char hyphen) hyphen
       (squeeze (is_char underscore) underscore
          (squeeze is_space hyphen
             (filter (fun c => is_slug_char c = true) (map lower_char name))))).

Definition slugify_spec : string -> string := on_chars slugify_spec_chars.

(** Every character that lower-casing does not bring into [[a-z0-9]], read
    as a space. *)
Definition separators_to_spaces (name : chars) : chars :=
  map (fun c => if is_a_z0_9 (lower_char c) then c else " "%char) name.

(** *** Shapes of a generated token *)

(** No two adjacent characters of the class [p]. *)
Fixpoint no_double (p : ascii -> bool) (s : chars) : bool :=
  match s with
  | c :: s' =>
      match s' with
      | c' :: _ => negb (p c && p c') && no_double p s'
      | [] => true
      end
  | [] => true
  end.

Definition head_outside (p : ascii -> bool) (s : chars) : Prop :=
  match s with c :: _ => p c = false | [] => True end.

Definition last_outside (p : ascii -> bool) (s : chars) : Prop :=
  match last s with Some c => p c = false | None => True end.

Definition is_token_char (c : ascii) : bool := is_a_z0_9 c || is_char hyphen c.

(** What [generateToken] returns: characters of [[a-z0-9-]] only, no two
    hyphens in a row, no hyphen at either end. *)
Definition is_token (t : chars) : Prop :=
  Forall (fun c => is_token_char c = true) t /\
  no_double (is_char hyphen) t = true /\
  head_outside (is_char hyphen) t /\
  last_outside (is_char hyphen) t.

(** ** Numbers *)

Inductive Num : Type :=
  | NaN
  | PInf
  | NInf
  | Fin (q : Q).

Definition num (z : Z) : Num := Fin (inject_Z z).

Definition isNaN (x : Num) : bool :=
  match x with NaN => true | _ => false end.

(** [ToBoolean] of a number: [0] and [NaN] are falsy. *)
Definition Num_truthy (x : Num) : bool :=
  match x with
  | NaN => false
  | Fin q => negb (Qeq_bool q 0)
  | PInf | NInf => true
  end.

(** [x < y] *)
Definition Num_lt (x y : Num) : bool :=
  match x, y with
  | NaN, _ | _, NaN => false
  | NInf, NInf => false
  | NInf, _ => true
  | _, NInf => false
  | PInf, _ => false
  | Fin _, PInf => true
  | Fin p, Fin q => negb (Qle_bool q p)
  end.

Definition Math_min (x y : Num) : Num :=
  match x, y with
  | NaN, _ | _, NaN => NaN
  | _, _ => if Num_lt y x then y else x
  end.

Definition Math_max (x y : Num) : Num :=
  match x, y with
  | NaN, _ | _, NaN => NaN
  | _, _ => if Num_lt x y then y else x
  end.

(** An infinity of the sign of [q] times the sign [s]; [NaN] at zero. *)
Definition signed_inf (s : bool) (q : Q) : Num :=
  match (0 ?= q)%Q with
  | Eq => NaN
  | Lt => if s then PInf else NInf
  | Gt => if s then NInf else PInf
  end.

(** [x * y] *)
Definition Num_mul (x y : Num) : Num :=
  match x, y with
  | NaN, _ | _, NaN => NaN
  | Fin p, Fin q => Fin (Qred (p * q))
  | Fin p, PInf | PInf, Fin p => signed_inf true p
  | Fin p, NInf | NInf, Fin p => signed_inf false p
  | PInf, PInf | NInf, NInf => PInf
  | PInf, NInf | NInf, PInf => NInf
  end.

(** [x / y]; a zero divisor is read as [+0]. *)
Definition Num_div (x y : Num) : Num :=
  match x, y with
  | NaN, _ | _, NaN => NaN
  | Fin p, Fin q =>
      if Qeq_bool q 0 then signed_inf true p else Fin (Qred (p / q))
  | Fin _, (PInf | NInf) => num 0
  | PInf, Fin q => if Qle_bool 0 q then PInf else NInf
  | NInf, Fin q => if Qle_bool 0 q then NInf else PInf
  | (PInf | NInf), (PInf | NInf) => NaN
  end.

(** [Math.round(x)]: the nearest integer, a half rounds up. *)
Definition Math_round (x : Num) : Num :=
  match x with
  | Fin q => num (Qfloor (q + Qmake 1 2))
  | _ => x
  end.

(** [x || 0] on a property that may be missing. *)
Definition or_zero (x : option Num) : Num :=
  match x with
  | Some n => if Num_truthy n then n else num 0
  | None => num 0
  end.

(** [Math.max(0, Math.min(1, x))] *)
Definition clamp01 (x : Num) : Num := Math_max (num 0) (Math_min (num 1) x).

(** [n.toString(16)] of an integer. *)
Definition Z_toString16 (z : Z) : string :=
  (if (z <? 0)%Z then "-" else "") ++
  HexadecimalString.NilZero.string_of_uint (N.to_hex_uint (Z.abs_N z)).

Definition Num_toString16 (x : Num) : string :=
  match x with
  | NaN => "NaN"
  | PInf => "Infinity"
  | NInf => "-Infinity"
  | Fin q => Z_toString16 (Qfloor q)
  end.

(** ** Color normalizer *)

(** A color object of the document; a channel that is not there is [None]. *)
Record RGBA : Type := {
  chan_r : option Num;
  chan_g : option Num;
  chan_b : option Num;
  chan_a : option Num
}.

Record StandardRgba : Type := {
  std_r : Num;
  std_g : Num;
  std_b : Num;
  std_a : Num
}.

(** [figmaRgbaToStandardRgba]; the argument is [None] when it is not an
    object. *)
Definition figmaRgbaToStandardRgba (figmaColor : option RGBA) : StandardRgba :=
  match figmaColor with
  | None => {| std_r := num 0; std_g := num 0; std_b := num 0; std_a := num 1 |}
  | Some c =>
      let r := clamp01 (or_zero (chan_r c)) in
      let g := clamp01 (or_zero (chan_g c)) in
      let b := clamp01 (or_zero (chan_b c)) in
      let a := match chan_a c with Some a => clamp01 a | None => num 1 end in
      {| std_r := Math_round (Num_mul r (num 255));
         std_g := Math_round (Num_mul g (num 255));
         std_b := Math_round (Num_mul b (num 255));
         std_a := Num_div (Math_round (Num_mul a (num 100))) (num 100) |}
  end.

(** The inner [toHex] of [rgbToHex]. *)
Definition toHex (c : option Num) : string :=
  let normalizedValue := Math_max (num 0) (Math_min (num 1) (or_zero c)) in
  let intValue := Math_round (Num_mul normalizedValue (num 255)) in
  if isNaN intValue || Num_lt intValue (num 0) || Num_lt (num 255) intValue
  then "00"
  else
    let hex := Num_toString16 intValue in
    if (String.length hex =? 1)%nat then "0" ++ hex else hex.

Definition is_undefined {A} (x : option A) : bool :=
  match x with None => true | Some _ => false end.

(** [rgbToHex]; [None] is JS [null]. *)
Definition rgbToHex (rgb : option RGBA) : option string :=
  match rgb with
  | None => None
  | Some c =>
      let hexR := toHex (chan_r c) in
      let hexG := toHex (chan_g c) in
      let hexB := toHex (chan_b c) in
      if String.eqb hexR "00" && String.eqb hexG "00" && String.eqb hexB "00" &&
         (is_undefined (chan_r c) || is_undefined (chan_g c) || is_undefined (chan_b c))
      then None
      else Some ("#" ++ hexR ++ hexG ++ hexB)
  end.

(** The color object is not there, or one of its [r], [g], [b] is not. *)
Definition lacks_channel (color : option RGBA) : Prop :=
  match color with
  | None => True
  | Some c => chan_r c = None \/ chan_g c = None \/ chan_b c = None
  end.

(** Every channel of the color renders as ["00"]. *)
Definition channels_render_zero (color : option RGBA) : Prop :=
  match color with
  | None => True
  | Some c =>
      toHex (chan_r c) = "00" /\ toHex (chan_g c) = "00" /\ toHex (chan_b c) = "00"
  end.

Definition two_chars (s : string) : bool :=
  match s with
  | String _ (String _ EmptyString) => true
  | _ => false
  end.

(** The two branches that end [toHex], on an integer. *)
Definition pad_hex (z : Z) : string :=
  let hex := Z_toString16 z in
  if (String.length hex =? 1)%nat then "0" ++ hex else hex.

(** ** The JS engine and promises *)

(** The built-ins of the engine that the model takes as given: the decimal
    rendering of a number (string concatenation and template literals),
    [Math.atan2(y, x) * 180 / Math.PI], and [parseFloat] on a string. *)
Class JsEngine : Type := {
  Number_toString : Num -> string;
  Math_atan2_degrees : Num -> Num -> Num;
  parseFloat : string -> Num
}.

Inductive Promise (A : Type) : Type :=
  | Fulfilled (value : A)
  | Rejected (reason : string).
Arguments Fulfilled {A} value.
Arguments Rejected {A} reason.

Definition await {A B} (p : Promise A) (k : A -> Promise B) : Promise B :=
  match p with
  | Fulfilled v => k v
  | Rejected e => Rejected e
  end.

Notation "'let*' x := p 'in' k" := (await p (fun x => k))
  (at level 10, x pattern, p at level 100, k at level 200).

(** [await] over the elements of an array, left to right ([map] with a
    callback that may throw). *)
Fixpoint map_throwing {A B} (f : A -> Promise B) (l : list A) : Promise (list B) :=
  match l with
  | [] => Fulfilled []
  | x :: l' =>
      let* y := f x in
      let* ys := map_throwing f l' in
      Fulfilled (y :: ys)
  end.

Definition TypeError : string := "TypeError".

(** ** String helpers of the extractors *)

Fixpoint starts_with (p s : chars) : bool :=
  match p, s with
  | [], _ => true
  | _ :: _, [] => false
  | a :: p', c :: s' => Ascii.eqb a c && starts_with p' s'
  end.

(** [s.startsWith(p)] *)
Definition startsWith (s p : string) : bool :=
  starts_with (list_ascii_of_string p) (list_ascii_of_string s).

Fixpoint includes_chars (s sub : chars) : bool :=
  starts_with sub s ||
  match s with
  | [] => false
  | _ :: s' => includes_chars s' sub
  end.

(** [s.includes(sub)] *)
Definition includes (s sub : string) : bool :=
  includes_chars (list_ascii_of_string s) (list_ascii_of_string sub).

(** [s.match(/(\d{3})/)]: the first three consecutive digits. *)
Fixpoint match_three_digits (s : chars) : option string :=
  match s with
  | c1 :: s' =>
      match s' with
      | c2 :: c3 :: _ =>
          if is_digit c1 && is_digit c2 && is_digit c3
          then Some (string_of_list_ascii [c1; c2; c3])
          else match_three_digits s'
      | _ => None
      end
  | [] => None
  end.

(** [s.toLowerCase().replace('_', '-')] of the text and effect extractors. *)
Definition kebab (s : string) : string :=
  on_chars (replace_first underscore [hyphen]) (toLowerCase s).

(** The [description] property an extractor attaches:
    [if (d && d.trim()) result.description = d.trim()]. *)
Definition clean_description (d : option string) : option string :=
  match d with
  | Some s => if String.eqb (trim s) "" then None else Some (trim s)
  | None => None
  end.

(** A string property that may be missing, read as a condition. *)
Definition truthy_string (s : option string) : bool :=
  match s with
  | Some s => negb (String.eqb s "")
  | None => false
  end.

(** [x || d] on a number that may be missing. *)
Definition Num_or (x : option Num) (d : Num) : Num :=
  match x with
  | Some n => if Num_truthy n then n else d
  | None => d
  end.

Section Rendering.
Context {engine : JsEngine}.

(** The template [rgba(${r}, ${g}, ${b}, ${a})]. *)
Definition rgba_string (r g b a : Num) : string :=
  "rgba(" ++ Number_toString r ++ ", " ++ Number_toString g ++ ", " ++
  Number_toString b ++ ", " ++ Number_toString a ++ ")".

(** [Math.round(x * 100) / 100] *)
Definition round2 (x : Num) : Num :=
  Num_div (Math_round (Num_mul x (num 100))) (num 100).

(** [Math.round(position * 100) + '%'] *)
Definition percent (position : Num) : string :=
  Number_toString (Math_round (Num_mul position (num 100))) ++ "%".

(** A number that may be missing, in a string concatenation. *)
Definition show_optional (x : option Num) : string :=
  match x with
  | Some n => Number_toString n
  | None => "undefined"
  end.

End Rendering.

(** ** Paint styles *)

Module ColorStop.
Record t : Type := {
  position : Num;
  color : option RGBA
}.
End ColorStop.

Module Paint.
Record t : Type := {
  type : string;
  opacity : option Num;
  color : option RGBA;
  gradientStops : option (list ColorStop.t);
  gradientTransform : option (list (list Num));
  scaleMode : option string
}.
End Paint.

Module PaintStyle.
Record t : Type := {
  name : string;
  description : option string;
  paints : option (list Paint.t)
}.
End PaintStyle.

Module StopData.
Record t : Type := {
  color : option string;
  position : string
}.
End StopData.

(** The record [processColorStyle] builds. *)
Module ColorData.
Record t : Type := {
  name : string;
  token : string;
  type : string;
  description : option string;
  value : string;
  stops : option (list StopData.t);
  scaleMode : option string
}.
End ColorData.

Definition is_gradient (type : string) : bool :=
  String.eqb type "GRADIENT_LINEAR" || String.eqb type "GRADIENT_RADIAL" ||
  String.eqb type "GRADIENT_ANGULAR" || String.eqb type "GRADIENT_DIAMOND".

Section PaintStyles.
Context {engine : JsEngine}.

(** The color of one shadow or gradient stop whose color object [c] is
    there: [rgba(...)] under an alpha below 1, the hex form otherwise
    ([None] when [rgbToHex] gives [null]). *)
Definition color_value (c : RGBA) : option string :=
  let opacity := match chan_a c with Some a => round2 a | None => num 1 end in
  if Num_lt opacity (num 1) then
    let rgba := figmaRgbaToStandardRgba (Some c) in
    Some (rgba_string (std_r rgba) (std_g rgba) (std_b rgba) opacity)
  else rgbToHex (Some c).

(** The callback of [paint.gradientStops.map] in [generateGradientCSS];
    reading [stop.color.a] throws when the stop has no color. *)
Definition gradient_stop_css (stop : ColorStop.t) : Promise string :=
  match ColorStop.color stop with
  | None => Rejected TypeError
  | Some c =>
      let colorValue := default "transparent" (color_value c) in
      Fulfilled (colorValue ++ " " ++ percent (ColorStop.position stop))
  end.

(** [paint.gradientTransform[0][1]] and [[0][0]], as the arguments of
    [Math.atan2]: a missing row throws, a missing entry is [undefined]. *)
Definition gradient_angle (paint : Paint.t) : Promise Num :=
  match Paint.gradientTransform paint with
  | None => Fulfilled (num 0)
  | Some m =>
      match m with
      | [] => Rejected TypeError
      | row :: _ =>
          Fulfilled (Math_atan2_degrees (default NaN (row !! 1%nat))
                                        (default NaN (row !! 0%nat)))
      end
  end.

Definition generateGradientCSS (paint : Paint.t) : Promise string :=
  match Paint.gradientStops paint with
  | None => Fulfilled "transparent"
  | Some gradientStops =>
      let* parts := map_throwing gradient_stop_css gradientStops in
      let stops := String.concat ", " parts in
      if String.eqb (Paint.type paint) "GRADIENT_LINEAR" then
        let* angle := gradient_angle paint in
        Fulfilled ("linear-gradient(" ++ Number_toString (Math_round angle) ++
                   "deg, " ++ stops ++ ")")
      else if String.eqb (Paint.type paint) "GRADIENT_RADIAL" then
        Fulfilled ("radial-gradient(circle, " ++ stops ++ ")")
      else if String.eqb (Paint.type paint) "GRADIENT_ANGULAR" then
        Fulfilled ("conic-gradient(" ++ stops ++ ")")
      else Fulfilled ("linear-gradient(" ++ stops ++ ")")
  end.

(** [opacity] of the SOLID case:
    [paint.opacity !== undefined ? Math.round(paint.opacity * 100) / 100 : 1] *)
Definition solid_opacity (paint : Paint.t) : Num :=
  match Paint.opacity paint with
  | Some o => round2 o
  | None => num 1
  end.

Definition processColorStyle (style : PaintStyle.t) : Promise (option ColorData.t) :=
  match PaintStyle.paints style with
  | None | Some [] => Fulfilled None
  | Some (paint :: _) =>
      let result value stops scaleMode :=
        {| ColorData.name := PaintStyle.name style;
           ColorData.token := generateToken (PaintStyle.name style);
           ColorData.type := toLowerCase (Paint.type paint);
           ColorData.description := clean_description (PaintStyle.description style);
           ColorData.value := value;
           ColorData.stops := stops;
           ColorData.scaleMode := scaleMode |} in
      if String.eqb (Paint.type paint) "SOLID" then
        let opacity := solid_opacity paint in
        if Num_lt opacity (num 1) then
          let rgba := figmaRgbaToStandardRgba (Paint.color paint) in
          Fulfilled (Some (result
            (rgba_string (std_r rgba) (std_g rgba) (std_b rgba) opacity) None None))
        else
          match rgbToHex (Paint.color paint) with
          | None => Fulfilled None
          | Some hex => Fulfilled (Some (result hex None None))
          end
      else if is_gradient (Paint.type paint) then
        match Paint.gradientStops paint with
        | None | Some [] => Fulfilled None
        | Some gradientStops =>
            let validStops :=
              filter (fun stop => rgbToHex (ColorStop.color stop) <> None) gradientStops in
            match validStops with
            | [] => Fulfilled None
            | _ :: _ =>
                let* css := generateGradientCSS paint in
                Fulfilled (Some (result css
                  (Some (map (fun stop =>
                           {| StopData.color := rgbToHex (ColorStop.color stop);
                              StopData.position := percent (ColorStop.position stop) |})
                         validStops))
                  None))
            end
        end
      else if String.eqb (Paint.type paint) "IMAGE" then
        Fulfilled (Some (result "image" None
          (Some (if truthy_string (Paint.scaleMode paint)
                 then default "" (Paint.scaleMode paint) else "fill"))))
      else Fulfilled (Some (result "transparent" None None))
  end.

End PaintStyles.

(** ** Text styles *)

Module FontName.
Record t : Type := {
  family : option string;
  style : option string
}.
End FontName.

(** The shape of [lineHeight] and [letterSpacing]. *)
Module UnitValue.
Record t : Type := {
  unit : string;
  value : option Num
}.
End UnitValue.

Module TextStyle.
Record t : Type := {
  name : string;
  description : option string;
  fontName : option FontName.t;
  fontSize : option Num;
  lineHeight : option UnitValue.t;
  letterSpacing : option UnitValue.t;
  textCase : option string;
  textDecoration : option string
}.
End TextStyle.

(** A property that holds a string or a number. *)
Inductive StringOrNumber : Type :=
  | AString (s : string)
  | ANumber (n : Num).

Module TextData.
Record t : Type := {
  name : string;
  token : string;
  type : string;
  description : option string;
  fontFamily : option string;
  fontWeight : option string;
  fontStyle : option string;
  fontSize : option string;
  lineHeight : option StringOrNumber;
  letterSpacing : option string;
  textTransform : option string;
  textDecoration : option string
}.
End TextData.

(** The entries of [weightMap], in the order [Object.entries] gives them. *)
Definition weightMap : list (string * string) :=
  [("thin", "100"); ("extralight", "200"); ("light", "300"); ("regular", "400");
   ("normal", "400"); ("medium", "500"); ("semibold", "600"); ("bold", "700");
   ("extrabold", "800"); ("black", "900")].

Definition parseFontWeight (fontStyle : string) : string :=
  let style := toLowerCase fontStyle in
  match List.find (fun kv => includes style (fst kv)) weightMap with
  | Some kv => snd kv
  | None =>
      match match_three_digits (list_ascii_of_string style) with
      | Some digits => digits
      | None => "400"
      end
  end.

Section TextStyles.
Context {engine : JsEngine}.

Definition processTextStyle (style : TextStyle.t) : Promise (option TextData.t) :=
  let fontName := TextStyle.fontName style in
  let fontStyleName := fontName ≫= FontName.style in
  Fulfilled (Some
    {| TextData.name := TextStyle.name style;
       TextData.token := generateToken (TextStyle.name style);
       TextData.type := "text";
       TextData.description := clean_description (TextStyle.description style);
       TextData.fontFamily :=
         if truthy_string (fontName ≫= FontName.family)
         then fontName ≫= FontName.family else None;
       TextData.fontWeight :=
         if truthy_string fontStyleName then
           let weight := parseFontWeight (default "" fontStyleName) in
           if String.eqb weight "" then None else Some weight
         else None;
       TextData.fontStyle :=
         if truthy_string fontStyleName &&
            includes (toLowerCase (default "" fontStyleName)) "italic"
         then Some "italic" else None;
       TextData.fontSize :=
         match TextStyle.fontSize style with
         | Some size => if Num_truthy size then Some (Number_toString size ++ "px") else None
         | None => None
         end;
       TextData.lineHeight :=
         match TextStyle.lineHeight style with
         | Some lh =>
             if String.eqb (UnitValue.unit lh) "PIXELS" then
               Some (AString (show_optional (UnitValue.value lh) ++ "px"))
             else if String.eqb (UnitValue.unit lh) "PERCENT" then
               Some (ANumber (Num_div (default NaN (UnitValue.value lh)) (num 100)))
             else None
         | None => None
         end;
       TextData.letterSpacing :=
         match TextStyle.letterSpacing style with
         | Some ls =>
             if String.eqb (UnitValue.unit ls) "PIXELS" then
               Some (show_optional (UnitValue.value ls) ++ "px")
             else if String.eqb (UnitValue.unit ls) "PERCENT" then
               Some (show_optional (UnitValue.value ls) ++ "%")
             else None
         | None => None
         end;
       TextData.textTransform :=
         match TextStyle.textCase style with
         | Some textCase =>
             if negb (String.eqb textCase "") && negb (String.eqb textCase "ORIGINAL")
             then Some (kebab textCase) else None
         | None => None
         end;
       TextData.textDecoration :=
         match TextStyle.textDecoration style with
         | Some decoration =>
             if negb (String.eqb decoration "") && negb (String.eqb decoration "NONE")
             then Some (kebab decoration) else None
         | None => None
         end |}).

End TextStyles.

(** ** Effect styles *)

Module Vector.
Record t : Type := {
  x : option Num;
  y : option Num
}.
End Vector.

Module Effect.
Record t : Type := {
  type : string;
  offset : option Vector.t;
  radius : option Num;
  spread : option Num;
  color : option RGBA
}.
End Effect.

Module EffectStyle.
Record t : Type := {
  name : string;
  description : option string;
  effects : option (list Effect.t)
}.
End EffectStyle.

Module CleanEffect.
Record t : Type := {
  type : string;
  x : option Num;
  y : option Num;
  blur : option Num;
  spread : option Num;
  color : option string
}.
End CleanEffect.

Module EffectData.
Record t : Type := {
  name : string;
  token : string;
  type : string;
  value : string;
  description : option string;
  effects : option (list CleanEffect.t)
}.
End EffectData.

Definition is_shadow (effect : Effect.t) : bool :=
  String.eqb (Effect.type effect) "DROP_SHADOW" ||
  String.eqb (Effect.type effect) "INNER_SHADOW".

Section EffectStyles.
Context {engine : JsEngine}.

(** [(effect.offset && effect.offset.x) || 0] *)
Definition offset_x (effect : Effect.t) : Num :=
  Num_or (Effect.offset effect ≫= Vector.x) (num 0).

Definition offset_y (effect : Effect.t) : Num :=
  Num_or (Effect.offset effect ≫= Vector.y) (num 0).

(** The entry one effect pushes on [shadows] in [generateEffectCSS], if
    any. *)
Definition shadow_css (effect : Effect.t) : option string :=
  if is_shadow effect then
    match Effect.color effect with
    | None => None
    | Some c =>
        let inset :=
          if String.eqb (Effect.type effect) "INNER_SHADOW" then "inset " else "" in
        match color_value c with
        | None => None
        | Some colorValue =>
            Some (inset ++ Number_toString (offset_x effect) ++ "px " ++
                  Number_toString (offset_y effect) ++ "px " ++
                  Number_toString (Num_or (Effect.radius effect) (num 0)) ++ "px " ++
                  Number_toString (Num_or (Effect.spread effect) (num 0)) ++ "px " ++
                  colorValue)
        end
    end
  else None.

Definition generateEffectCSS (effects : option (list Effect.t)) : string :=
  match effects with
  | None | Some [] => ""
  | Some effects =>
      let shadows := omap shadow_css effects in
      match shadows with
      | [] => ""
      | _ :: _ => "box-shadow: " ++ String.concat ", " shadows
      end
  end.

(** The callback of [style.effects.map] in [processEffectStyle]. *)
Definition cleanEffect (effect : Effect.t) : CleanEffect.t :=
  if is_shadow effect then
    {| CleanEffect.type := kebab (Effect.type effect);
       CleanEffect.x := Some (offset_x effect);
       CleanEffect.y := Some (offset_y effect);
       CleanEffect.blur := Some (Num_or (Effect.radius effect) (num 0));
       CleanEffect.spread := Some (Num_or (Effect.spread effect) (num 0));
       CleanEffect.color :=
         match Effect.color effect with
         | Some c => Some (default "transparent" (color_value c))
         | None => None
         end |}
  else
    {| CleanEffect.type := kebab (Effect.type effect);
       CleanEffect.x := None; CleanEffect.y := None;
       CleanEffect.blur := None; CleanEffect.spread := None;
       CleanEffect.color := None |}.

Definition processEffectStyle (style : EffectStyle.t) : Promise (option EffectData.t) :=
  match EffectStyle.effects style with
  | None | Some [] => Fulfilled None
  | Some effects =>
      let cssValue := generateEffectCSS (Some effects) in
      if String.eqb cssValue "" || String.eqb (trim cssValue) "" then Fulfilled None
      else
        Fulfilled (Some
          {| EffectData.name := EffectStyle.name style;
             EffectData.token := generateToken (EffectStyle.name style);
             EffectData.type := "effect";
             EffectData.value := cssValue;
             EffectData.description := clean_description (EffectStyle.description style);
             EffectData.effects := Some (map cleanEffect effects) |})
  end.

End EffectStyles.

(** ** Grid styles *)

Module LayoutGrid.
Record t : Type := {
  pattern : string;
  count : option Num;
  gutterSize : option Num;
  offset : option Num
}.
End LayoutGrid.

Module GridStyle.
Record t : Type := {
  name : string;
  description : option string;
  layoutGrids : option (list LayoutGrid.t)
}.
End GridStyle.

Module GridEntry.
Record t : Type := {
  pattern : string;
  count : Num;
  gutter : Num;
  margin : Num
}.
End GridEntry.

Module GridData.
Record t : Type := {
  name : string;
  token : string;
  type : string;
  description : option string;
  grids : option (list GridEntry.t)
}.
End GridData.

Definition processGridStyle (style : GridStyle.t) : Promise (option GridData.t) :=
  match GridStyle.layoutGrids style with
  | None | Some [] => Fulfilled None
  | Some layoutGrids =>
      Fulfilled (Some
        {| GridData.name := GridStyle.name style;
           GridData.token := generateToken (GridStyle.name style);
           GridData.type := "grid";
           GridData.description := clean_description (GridStyle.description style);
           GridData.grids :=
             Some (map (fun grid =>
                     {| GridEntry.pattern := toLowerCase (LayoutGrid.pattern grid);
                        GridEntry.count := Num_or (LayoutGrid.count grid) (num 12);
                        GridEntry.gutter := Num_or (LayoutGrid.gutterSize grid) (num 20);
                        GridEntry.margin := Num_or (LayoutGrid.offset grid) (num 0) |})
                   layoutGrids) |})
  end.

(** ** Variables *)

(** The value a variable holds for a mode, and what reading one can give. *)
Inductive VariableValue : Type :=
  | VUndefined
  | VNull
  | VBoolean (b : bool)
  | VNumber (n : Num)
  | VString (s : string)
  | VColor (c : RGBA)
  | VAlias (id : string).

Module FigmaVariable.
Record t : Type := {
  name : string;
  description : option string;
  variableCollectionId : string;
  resolvedType : string;
  valuesByMode : list (string * VariableValue)
}.
End FigmaVariable.

Module Mode.
Record t : Type := {
  modeId : option string;
  id : option string;
  name : option string
}.
End Mode.

Module VariableCollection.
Record t : Type := {
  id : string;
  name : string;
  modes : list Mode.t
}.
End VariableCollection.

Module VarData.
Record t : Type := {
  name : string;
  token : string;
  type : string;
  value : VariableValue;
  values : option (list (string * VariableValue));
  description : option string
}.
End VarData.

(** *** Objects whose key order is read back

    The own keys of an object are listed with the array indices first, in
    ascending order, and then the other keys in the order they were added. *)

Fixpoint all_digits (s : chars) : bool :=
  match s with
  | [] => true
  | c :: s' => is_digit c && all_digits s'
  end.

Fixpoint digits_value (acc : N) (s : chars) : N :=
  match s with
  | [] => acc
  | c :: s' => digits_value (acc * 10 + (code c - 48)) s'
  end.

(** The array index a key denotes: a canonical decimal below [2^32 - 1]. *)
Definition array_index (k : string) : option N :=
  match list_ascii_of_string k with
  | [] => None
  | c :: s =>
      if all_digits (c :: s) && (negb (is_char "0"%char c) || (length s =? 0)%nat) &&
         (digits_value 0 (c :: s) <? 4294967295)%N
      then Some (digits_value 0 (c :: s)) else None
  end.

(** Whether a new key [k] is listed before the existing key [k']. *)
Definition key_before (k k' : string) : bool :=
  match array_index k, array_index k' with
  | Some i, Some j => (i <? j)%N
  | Some _, None => true
  | None, _ => false
  end.

Section Objects.
Context {V : Type}.

Definition has_key (k : string) (o : list (string * V)) : bool :=
  existsb (fun kv => String.eqb k (fst kv)) o.

Fixpoint obj_update (k : string) (v : V) (o : list (string * V)) : list (string * V) :=
  match o with
  | [] => []
  | kv :: o' => if String.eqb k (fst kv) then (k, v) :: o' else kv :: obj_update k v o'
  end.

Fixpoint obj_insert (k : string) (v : V) (o : list (string * V)) : list (string * V) :=
  match o with
  | [] => [(k, v)]
  | kv :: o' => if key_before k (fst kv) then (k, v) :: kv :: o' else kv :: obj_insert k v o'
  end.

(** [o[k] = v] *)
Definition obj_set (k : string) (v : V) (o : list (string * V)) : list (string * V) :=
  if has_key k o then obj_update k v o else obj_insert k v o.

End Objects.

(** [values[modeId]]: [undefined] when the key is not there. *)
Definition value_for_mode (modeId : string) (values : list (string * VariableValue))
  : VariableValue :=
  match List.find (fun kv => String.eqb modeId (fst kv)) values with
  | Some kv => snd kv
  | None => VUndefined
  end.

Definition is_undefined_value (v : VariableValue) : bool :=
  match v with VUndefined => true | _ => false end.

Definition is_null_value (v : VariableValue) : bool :=
  match v with VNull => true | _ => false end.

(** [v !== undefined && v !== null] *)
Definition is_present (v : VariableValue) : bool :=
  negb (is_undefined_value v) && negb (is_null_value v).

(** The object a value is when it is read as a color
    ([v && typeof v === 'object']); an alias object has no channel. *)
Definition as_color_object (v : VariableValue) : option RGBA :=
  match v with
  | VColor c => Some c
  | VAlias _ => Some {| chan_r := None; chan_g := None; chan_b := None; chan_a := None |}
  | _ => None
  end.

(** [mode.modeId || mode.id] *)
Definition mode_key (mode : Mode.t) : option string :=
  if truthy_string (Mode.modeId mode) then Mode.modeId mode else Mode.id mode.

(** [collection.modes.find(m => m.id === modeId || m.modeId === modeId)] *)
Definition find_mode (modes : list Mode.t) (modeId : string) : option Mode.t :=
  List.find (fun m => bool_decide (Mode.id m = Some modeId) ||
                      bool_decide (Mode.modeId m = Some modeId)) modes.

(** [(mode && mode.name) || `Mode ${modeId}`] *)
Definition mode_display_name (collection : option VariableCollection.t) (modeId : string)
  : string :=
  let mode := collection ≫= (fun c => find_mode (VariableCollection.modes c) modeId) in
  if truthy_string (mode ≫= Mode.name) then default "" (mode ≫= Mode.name)
  else "Mode " ++ modeId.

(** ** The document the plugin runs in *)

(** The [figma] global: the six queries of the fetch stage, each already
    settled, the lookup used to resolve an alias, and what the metadata
    reads. *)
Module Figma.
Record t : Type := {
  fileKey : option string;
  root_name : option string;
  now_ISOString : string;
  getLocalPaintStylesAsync : Promise (list PaintStyle.t);
  getLocalTextStylesAsync : Promise (list TextStyle.t);
  getLocalEffectStylesAsync : Promise (list EffectStyle.t);
  getLocalGridStylesAsync : Promise (list GridStyle.t);
  getLocalVariablesAsync : Promise (list FigmaVariable.t);
  getLocalVariableCollectionsAsync : Promise (list VariableCollection.t);
  getVariableByIdAsync : string -> Promise (option FigmaVariable.t)
}.
End Figma.

Abbreviation CollectionMap := (gmap string VariableCollection.t).

Section Variables.
Context {engine : JsEngine} (figma : Figma.t).

(** The alias branch at the top of the loop body of [processVariable]:
    the value to convert, or [None] when the iteration ends at [continue]. *)
Definition resolve_alias (modeId : string) (rawValue : VariableValue)
  : option VariableValue :=
  match rawValue with
  | VAlias id =>
      match Figma.getVariableByIdAsync figma id with
      | Fulfilled (Some aliasedVariable) =>
          let values := FigmaVariable.valuesByMode aliasedVariable in
          let actualValue := value_for_mode modeId values in
          if is_undefined_value actualValue then
            match values with
            | (firstModeId, _) :: _ => Some (value_for_mode firstModeId values)
            | [] => Some VUndefined
            end
          else Some actualValue
      | Fulfilled None => None
      | Rejected _ => None
      end
  | _ => Some rawValue
  end.

(** The [switch (variable.resolvedType)]: the [cleanValue] it leaves
    ([VNull] when it assigns none) and whether it set [hasValidValue]. *)
Definition clean_value (resolvedType : string) (actualValue : VariableValue)
  : VariableValue * bool :=
  if String.eqb resolvedType "COLOR" then
    match as_color_object actualValue with
    | Some c =>
        let rgba := figmaRgbaToStandardRgba (Some c) in
        if Num_lt (std_a rgba) (num 1) then
          (VString (rgba_string (std_r rgba) (std_g rgba) (std_b rgba) (std_a rgba)), true)
        else
          match rgbToHex (Some {| chan_r := chan_r c; chan_g := chan_g c;
                                  chan_b := chan_b c; chan_a := None |}) with
          | Some hex => (VString hex, true)
          | None => (VNull, false)
          end
    | None => (VNull, false)
    end
  else if String.eqb resolvedType "FLOAT" then
    match actualValue with
    | VNumber n => (VNumber n, true)
    | VString s =>
        if isNaN (parseFloat s) then (VNull, false) else (VNumber (parseFloat s), true)
    | _ => (VNull, false) (* [parseFloat] of a boolean or an object is [NaN] *)
    end
  else if String.eqb resolvedType "STRING" then
    match actualValue with
    | VUndefined | VNull | VString "" => (VNull, false)
    | _ => (actualValue, true)
    end
  else
    (* BOOLEAN and the default case *)
    if is_present actualValue then (actualValue, true) else (VNull, false).

(** One iteration of [for (const [modeId, rawValue] of Object.entries(...))]
    on the pair [(convertedValues, hasValidValue)]. *)
Definition mode_step (variable : FigmaVariable.t) (collection : option VariableCollection.t)
    (acc : list (string * VariableValue) * bool) (entry : string * VariableValue)
  : list (string * VariableValue) * bool :=
  let '(convertedValues, hasValidValue) := acc in
  let '(modeId, rawValue) := entry in
  match resolve_alias modeId rawValue with
  | None => acc
  | Some actualValue =>
      let '(cleanValue, valid) :=
        clean_value (FigmaVariable.resolvedType variable) actualValue in
      (if is_null_value cleanValue then convertedValues
       else obj_set (mode_display_name collection modeId) cleanValue convertedValues,
       hasValidValue || valid)
  end.

Definition processVariable (variable : FigmaVariable.t) (collectionMap : CollectionMap)
  : Promise (option VarData.t) :=
  let collection := collectionMap !! FigmaVariable.variableCollectionId variable in
  let '(convertedValues, hasValidValue) :=
    foldl (mode_step variable collection) ([], false)
          (FigmaVariable.valuesByMode variable) in
  if negb hasValidValue || (length convertedValues =? 0)%nat then Fulfilled None
  else
    let modeNames := map fst convertedValues in
    let hasMultipleModes := (1 <? length modeNames)%nat in
    let hasMeaningfulModeNames :=
      existsb (fun name => negb (startsWith name "Mode ")) modeNames in
    Fulfilled (Some
      {| VarData.name := FigmaVariable.name variable;
         VarData.token := generateToken (FigmaVariable.name variable);
         VarData.type := toLowerCase (FigmaVariable.resolvedType variable);
         VarData.value := default VUndefined (head (map snd convertedValues));
         VarData.values :=
           if hasMultipleModes || hasMeaningfulModeNames
           then Some convertedValues else None;
         VarData.description := clean_description (FigmaVariable.description variable) |}).


End Variables.

(** ** The export document *)

Module ModeData.
Record t : Type := {
  id : option string;
  name : string
}.
End ModeData.

(** [collection.variables]: the four type buckets. *)
Module Buckets.
Record t : Type := {
  colors : list VarData.t;
  numbers : list VarData.t;
  strings : list VarData.t;
  booleans : list VarData.t
}.
End Buckets.

Module CollectionData.
Record t : Type := {
  id : string;
  modes : list ModeData.t;
  variables : Buckets.t
}.
End CollectionData.

Module Styles.
Record t : Type := {
  colors : list ColorData.t;
  textStyles : list TextData.t;
  effectStyles : list EffectData.t;
  gridStyles : list GridData.t
}.
End Styles.

Module Metadata.
Record t : Type := {
  exportDate : string;
  figmaFileKey : string;
  fileName : string;
  pluginVersion : string;
  collectionsFound : nat;
  collectionsExported : nat
}.
End Metadata.

Module ExportDocument.
Record t : Type := {
  styles : Styles.t;
  collections : gmap string CollectionData.t;
  metadata : Metadata.t
}.
End ExportDocument.

Definition empty_buckets : Buckets.t :=
  {| Buckets.colors := []; Buckets.numbers := [];
     Buckets.strings := []; Buckets.booleans := [] |}.

(** The callback of [collection.modes.map] that builds an exported mode. *)
Definition mode_data (mode : Mode.t) : ModeData.t :=
  {| ModeData.id := mode_key mode;
     ModeData.name :=
       if truthy_string (Mode.name mode) then default "" (Mode.name mode)
       else "Mode " ++ default "undefined" (mode_key mode) |}.

(** [totalVariables] of the pruning pass. *)
Definition totalVariables (collection : CollectionData.t) : nat :=
  length (Buckets.colors (CollectionData.variables collection)) +
  length (Buckets.numbers (CollectionData.variables collection)) +
  length (Buckets.strings (CollectionData.variables collection)) +
  length (Buckets.booleans (CollectionData.variables collection)).

(** The [switch (varData.type)] that files a record in its bucket; a record
    of another type is filed nowhere. *)
Definition push_variable (varData : VarData.t) (collection : CollectionData.t)
  : CollectionData.t :=
  let v := CollectionData.variables collection in
  let with_variables v' :=
    {| CollectionData.id := CollectionData.id collection;
       CollectionData.modes := CollectionData.modes collection;
       CollectionData.variables := v' |} in
  if String.eqb (VarData.type varData) "color" then
    with_variables {| Buckets.colors := Buckets.colors v ++ [varData];
                      Buckets.numbers := Buckets.numbers v;
                      Buckets.strings := Buckets.strings v;
                      Buckets.booleans := Buckets.booleans v |}
  else if String.eqb (VarData.type varData) "float" then
    with_variables {| Buckets.colors := Buckets.colors v;
                      Buckets.numbers := Buckets.numbers v ++ [varData];
                      Buckets.strings := Buckets.strings v;
                      Buckets.booleans := Buckets.booleans v |}
  else if String.eqb (VarData.type varData) "string" then
    with_variables {| Buckets.colors := Buckets.colors v;
                      Buckets.numbers := Buckets.numbers v;
                      Buckets.strings := Buckets.strings v ++ [varData];
                      Buckets.booleans := Buckets.booleans v |}
  else if String.eqb (VarData.type varData) "boolean" then
    with_variables {| Buckets.colors := Buckets.colors v;
                      Buckets.numbers := Buckets.numbers v;
                      Buckets.strings := Buckets.strings v;
                      Buckets.booleans := Buckets.booleans v ++ [varData] |}
  else collection.

(** [collectionMap]: the last collection set under an id is the one read. *)
Definition build_collectionMap (collections : list VariableCollection.t) : CollectionMap :=
  foldl (fun m c => <[VariableCollection.id c := c]> m) ∅ collections.

(** [data.collections] after [collections.forEach]: one entry per named
    collection, a later collection of the same name replacing an earlier
    one. *)
Definition initial_collections (collections : list VariableCollection.t)
  : gmap string CollectionData.t :=
  foldl (fun m c =>
           if String.eqb (VariableCollection.name c) "" then m
           else <[VariableCollection.name c :=
                    {| CollectionData.id := VariableCollection.id c;
                       CollectionData.modes := map mode_data (VariableCollection.modes c);
                       CollectionData.variables := empty_buckets |}]> m)
        ∅ collections.

(** [(collection && collection.name) ? collection.name : 'Other'] *)
Definition collectionName_of (collection : option VariableCollection.t) : string :=
  match collection with
  | Some c =>
      if String.eqb (VariableCollection.name c) "" then "Other"
      else VariableCollection.name c
  | None => "Other"
  end.

(** [`${collectionName}:${variable.name}`] *)
Definition variableKey_of (collectionMap : CollectionMap) (variable : FigmaVariable.t)
  : string :=
  collectionName_of (collectionMap !! FigmaVariable.variableCollectionId variable)
  ++ ":" ++ FigmaVariable.name variable.

(** ** The export orchestrator *)

(** What the loop over the variables updates. *)
Module ExportState.
Record t : Type := {
  collections : gmap string CollectionData.t;
  processedVariableNames : gset string;
  processedCount : nat;
  skippedCount : nat
}.
End ExportState.

Definition skip_variable (st : ExportState.t) : ExportState.t :=
  {| ExportState.collections := ExportState.collections st;
     ExportState.processedVariableNames := ExportState.processedVariableNames st;
     ExportState.processedCount := ExportState.processedCount st;
     ExportState.skippedCount := S (ExportState.skippedCount st) |}.

Inductive UiMessage : Type :=
  | ExportStart
  | ExportComplete (data : ExportDocument.t)
  | ExportError (message : string).

Definition fatal_message : string :=
  "Failed to export styles and variables. Please ensure the file has loaded completely and try again.".

(** [try { ... } catch (error) { throw new Error(message) }] *)
Definition rethrow_as {A} (message : string) (body : Promise A) : Promise A :=
  match body with
  | Fulfilled v => Fulfilled v
  | Rejected _ => Rejected message
  end.

(** One list of the export: [for (const item of items) { try { const d =
    await process(item); if (d) out.push(d) } catch (error) { warn } }]. *)
Definition collect {A B} (process : A -> Promise (option B)) (items : list A) : list B :=
  omap (fun item =>
          match process item with
          | Fulfilled (Some data) => Some data
          | Fulfilled None => None
          | Rejected _ => None
          end) items.

Section Orchestrator.
Context {engine : JsEngine} (figma : Figma.t).

(** The entry created for a collection name that [data.collections] does
    not have yet. *)
Definition new_collection (variable : FigmaVariable.t)
    (collection : option VariableCollection.t) : CollectionData.t :=
  {| CollectionData.id := FigmaVariable.variableCollectionId variable;
     CollectionData.modes :=
       match collection with
       | Some c => map mode_data (VariableCollection.modes c)
       | None => []
       end;
     CollectionData.variables := empty_buckets |}.

(** The body of [for (const variable of variables)]. *)
Definition variable_step (collectionMap : CollectionMap) (st : ExportState.t)
    (variable : FigmaVariable.t) : ExportState.t :=
  let collection := collectionMap !! FigmaVariable.variableCollectionId variable in
  let collectionName := collectionName_of collection in
  let variableKey := variableKey_of collectionMap variable in
  if bool_decide (variableKey ∈ ExportState.processedVariableNames st) then skip_variable st
  else
    match processVariable figma variable collectionMap with
    | Fulfilled (Some varData) =>
        let ensured :=
          match ExportState.collections st !! collectionName with
          | Some _ => ExportState.collections st
          | None =>
              <[collectionName := new_collection variable collection]>
                (ExportState.collections st)
          end in
        {| ExportState.collections := alter (push_variable varData) collectionName ensured;
           ExportState.processedVariableNames :=
             {[variableKey]} ∪ ExportState.processedVariableNames st;
           ExportState.processedCount := S (ExportState.processedCount st);
           ExportState.skippedCount := ExportState.skippedCount st |}
    | Fulfilled None => skip_variable st
    | Rejected _ => skip_variable st
    end.

Definition process_variables (collectionMap : CollectionMap)
    (collections : list VariableCollection.t) (variables : list FigmaVariable.t)
  : ExportState.t :=
  foldl (variable_step collectionMap)
        {| ExportState.collections := initial_collections collections;
           ExportState.processedVariableNames := ∅;
           ExportState.processedCount := 0;
           ExportState.skippedCount := 0 |}
        variables.

(** The names pushed on [collectionsToRemove]. *)
Definition collectionsToRemove (collections : gmap string CollectionData.t) : list string :=
  omap (fun kv => if (totalVariables (snd kv) =? 0)%nat then Some (fst kv) else None)
       (map_to_list collections).

(** [collectionsToRemove.forEach(name => { delete data.collections[name] })] *)
Definition remove_empty_collections (collections : gmap string CollectionData.t)
  : gmap string CollectionData.t :=
  foldl (fun m name => delete name m) collections (collectionsToRemove collections).

(** [Promise.all] of the six queries. *)
Definition fetch_all :
  Promise (list PaintStyle.t * list TextStyle.t * list EffectStyle.t * list GridStyle.t *
           list FigmaVariable.t * list VariableCollection.t) :=
  let* paintStyles := Figma.getLocalPaintStylesAsync figma in
  let* textStyles := Figma.getLocalTextStylesAsync figma in
  let* effectStyles := Figma.getLocalEffectStylesAsync figma in
  let* gridStyles := Figma.getLocalGridStylesAsync figma in
  let* variables := Figma.getLocalVariablesAsync figma in
  let* collections := Figma.getLocalVariableCollectionsAsync figma in
  Fulfilled (paintStyles, textStyles, effectStyles, gridStyles, variables, collections).

Definition exportStylesAndVariables : Promise ExportDocument.t :=
  rethrow_as fatal_message
    (let* fetched := fetch_all in
     let '(paintStyles, textStyles, effectStyles, gridStyles, variables, collections) :=
       fetched in
     let collectionMap := build_collectionMap collections in
     let st := process_variables collectionMap collections variables in
     let exported := remove_empty_collections (ExportState.collections st) in
     Fulfilled
       {| ExportDocument.styles :=
            {| Styles.colors := collect processColorStyle paintStyles;
               Styles.textStyles := collect processTextStyle textStyles;
               Styles.effectStyles := collect processEffectStyle effectStyles;
               Styles.gridStyles := collect processGridStyle gridStyles |};
          ExportDocument.collections := exported;
          ExportDocument.metadata :=
            {| Metadata.exportDate := Figma.now_ISOString figma;
               Metadata.figmaFileKey :=
                 if truthy_string (Figma.fileKey figma)
                 then default "" (Figma.fileKey figma) else "unknown";
               Metadata.fileName :=
                 if truthy_string (Figma.root_name figma)
                 then default "" (Figma.root_name figma) else "Untitled";
               Metadata.pluginVersion := "1.0.0";
               Metadata.collectionsFound := length collections;
               Metadata.collectionsExported := size exported |} |}).

(** [figma.ui.onmessage]: the messages it posts to the UI. *)
Definition onmessage (msg_type : string) : list UiMessage :=
  if String.eqb msg_type "export-data" then
    ExportStart ::
    match exportStylesAndVariables with
    | Fulfilled data => [ExportComplete data]
    | Rejected message =>
        [ExportError (if String.eqb message ""
                      then "An unexpected error occurred during export" else message)]
    end
  else [].

(** One of the six queries of the fetch stage rejects. *)
Definition fetch_rejects : Prop :=
  (exists e, Figma.getLocalPaintStylesAsync figma = Rejected e) \/
  (exists e, Figma.getLocalTextStylesAsync figma = Rejected e) \/
  (exists e, Figma.getLocalEffectStylesAsync figma = Rejected e) \/
  (exists e, Figma.getLocalGridStylesAsync figma = Rejected e) \/
  (exists e, Figma.getLocalVariablesAsync figma = Rejected e) \/
  (exists e, Figma.getLocalVariableCollectionsAsync figma = Rejected e).

End Orchestrator.

(** The records of a collection, over its four buckets. *)
Definition all_variables (c : CollectionData.t) : list VarData.t :=
  (Buckets.colors (CollectionData.variables c) ++
   Buckets.numbers (CollectionData.variables c) ++
   Buckets.strings (CollectionData.variables c) ++
   Buckets.booleans (CollectionData.variables c))%list.

(** The values of [varData.type] that have a bucket. *)
Definition bucket_types : list string := ["color"; "float"; "string"; "boolean"].

(** The number of variable records over all collections. *)
Definition exported_variables (collections : gmap string CollectionData.t) : nat :=
  map_fold (fun _ c n => totalVariables c + n) 0 collections.

(** ** An engine to run the model on examples

    Decimal rendering of integers and of decimals that terminate (the values
    the examples print), [atan2] on the axes, and [parseFloat] on a signed
    decimal prefix. *)
Module ExampleEngine.

Definition decimal (z : Z) : string :=
  DecimalString.NilZero.string_of_int (Z.to_int z).

(** The digits of [r / d] after the decimal point, up to [fuel] of them. *)
Fixpoint fraction_digits (fuel : nat) (r d : Z) : string :=
  match fuel with
  | O => ""
  | S fuel' =>
      if (r =? 0)%Z then ""
      else decimal (r * 10 / d) ++ fraction_digits fuel' ((r * 10) mod d) d
  end.

Definition show (x : Num) : string :=
  match x with
  | NaN => "NaN"
  | PInf => "Infinity"
  | NInf => "-Infinity"
  | Fin q =>
      let n := Qnum q in
      let d := Zpos (Qden q) in
      let whole := (Z.abs n / d)%Z in
      let rest := (Z.abs n mod d)%Z in
      (if (n <? 0)%Z then "-" else "") ++ decimal whole ++
      (if (rest =? 0)%Z then "" else "." ++ fraction_digits 20 rest d)
  end.

Definition atan2_degrees (y x : Num) : Num :=
  match y, x with
  | Fin p, Fin q =>
      match (0 ?= p)%Q, (0 ?= q)%Q with
      | Eq, Gt => num 180
      | Eq, _ => num 0
      | Lt, Eq => num 90
      | Gt, Eq => num (-90)
      | _, _ => NaN
      end
  | _, _ => NaN
  end.

Fixpoint leading_digits (s : chars) : chars * chars :=
  match s with
  | c :: s' =>
      if is_digit c then (c :: fst (leading_digits s'), snd (leading_digits s'))
      else ([], s)
  | [] => ([], [])
  end.

Definition parse_decimal (s : string) : Num :=
  let s := drop_leading is_space (list_ascii_of_string s) in
  let negative := starts_with ["-"%char] s in
  let s := if negative || starts_with ["+"%char] s then tail s else s in
  let '(whole, rest) := leading_digits s in
  let fraction :=
    match rest with
    | "."%char :: rest' => fst (leading_digits rest')
    | _ => []
    end in
  match (whole ++ fraction)%list with
  | [] => NaN
  | ds =>
      let q := Qred (Qmake (Z.of_N (digits_value 0 ds))
                           (Z.to_pos (10 ^ Z.of_nat (length fraction)))) in
      Fin (if negative then Qopp q else q)
  end.

Definition engine : JsEngine :=
  {| Number_toString := show;
     Math_atan2_degrees := atan2_degrees;
     parseFloat := parse_decimal |}.

End ExampleEngine.

(** ** Example documents *)

Module Examples.

Definition red : RGBA :=
  {| chan_r := Some (num 1); chan_g := Some (num 0); chan_b := Some (num 0);
     chan_a := Some (num 1) |}.

Definition blue : RGBA :=
  {| chan_r := Some (num 0); chan_g := Some (num 0); chan_b := Some (num 1);
     chan_a := Some (num 1) |}.

(** A color object without its [r]. *)
Definition no_red : RGBA :=
  {| chan_r := None; chan_g := Some (num 0); chan_b := Some (num 0); chan_a := None |}.

Definition solid (opacity : option Num) (color : option RGBA) : Paint.t :=
  {| Paint.type := "SOLID"; Paint.opacity := opacity; Paint.color := color;
     Paint.gradientStops := None; Paint.gradientTransform := None;
     Paint.scaleMode := None |}.

Definition translucent_paint : Paint.t := solid (Some (Fin (Qmake 1 2))) (Some no_red).

Definition translucent_style : PaintStyle.t :=
  {| PaintStyle.name := "Overlay / Scrim"; PaintStyle.description := None;
     PaintStyle.paints := Some [translucent_paint] |}.

Definition no_paints : PaintStyle.t :=
  {| PaintStyle.name := "Empty"; PaintStyle.description := None;
     PaintStyle.paints := Some [] |}.

Definition no_effects : EffectStyle.t :=
  {| EffectStyle.name := "Empty"; EffectStyle.description := None;
     EffectStyle.effects := Some [] |}.

Definition no_grids : GridStyle.t :=
  {| GridStyle.name := "Empty"; GridStyle.description := None;
     GridStyle.layoutGrids := Some [] |}.

Definition layer_blur : Effect.t :=
  {| Effect.type := "LAYER_BLUR"; Effect.offset := None;
     Effect.radius := Some (num 4); Effect.spread := None; Effect.color := None |}.

Definition blur_only : EffectStyle.t :=
  {| EffectStyle.name := "Glass / Blur"; EffectStyle.description := None;
     EffectStyle.effects := Some [layer_blur] |}.

Definition light : Mode.t :=
  {| Mode.modeId := Some "m1"; Mode.id := None; Mode.name := Some "Light" |}.

Definition brand : VariableCollection.t :=
  {| VariableCollection.id := "c1"; VariableCollection.name := "Brand";
     VariableCollection.modes := [light] |}.

(** A fetched collection that is itself named "Other". *)
Definition misc : VariableCollection.t :=
  {| VariableCollection.id := "c2"; VariableCollection.name := "Other";
     VariableCollection.modes := [light] |}.

Definition color_variable (name : string) (value : VariableValue) : FigmaVariable.t :=
  {| FigmaVariable.name := name; FigmaVariable.description := None;
     FigmaVariable.variableCollectionId := "c1"; FigmaVariable.resolvedType := "COLOR";
     FigmaVariable.valuesByMode := [("m1", value)] |}.

Definition primary_unresolved : FigmaVariable.t := color_variable "primary" (VAlias "deleted").
Definition primary_red : FigmaVariable.t := color_variable "primary" (VColor red).
Definition primary_blue : FigmaVariable.t := color_variable "primary" (VColor blue).

(** A number variable whose collection id [collectionId] is not fetched. *)
Definition gap (collectionId : string) (value : Z) : FigmaVariable.t :=
  {| FigmaVariable.name := "gap"; FigmaVariable.description := None;
     FigmaVariable.variableCollectionId := collectionId;
     FigmaVariable.resolvedType := "FLOAT";
     FigmaVariable.valuesByMode := [("m9", VNumber (num value))] |}.

(** A document with no style, whose fetch stage succeeds and in which no
    alias resolves. *)
Definition document (collections : list VariableCollection.t)
    (variables : list FigmaVariable.t) : Figma.t :=
  {| Figma.fileKey := None; Figma.root_name := Some "Tokens";
     Figma.now_ISOString := "2025-01-01T00:00:00.000Z";
     Figma.getLocalPaintStylesAsync := Fulfilled [];
     Figma.getLocalTextStylesAsync := Fulfilled [];
     Figma.getLocalEffectStylesAsync := Fulfilled [];
     Figma.getLocalGridStylesAsync := Fulfilled [];
     Figma.getLocalVariablesAsync := Fulfilled variables;
     Figma.getLocalVariableCollectionsAsync := Fulfilled collections;
     Figma.getVariableByIdAsync := fun _ => Fulfilled None |}.

Definition colliding_document : Figma.t :=
  document [brand] [primary_unresolved; primary_red].

Definition orphans_document : Figma.t :=
  document [misc] [gap "gone-1" 4; gap "gone-2" 8].

Definition lone_orphan_document : Figma.t :=
  document [brand] [gap "gone-1" 4].

(** The record [processVariable] builds for [gap id value]. *)
Definition gap_record (value : Z) : VarData.t :=
  {| VarData.name := "gap"; VarData.token := "gap"; VarData.type := "float";
     VarData.value := VNumber (num value); VarData.values := None;
     VarData.description := None |}.

Definition black : RGBA :=
  {| chan_r := Some (num 0); chan_g := Some (num 0); chan_b := Some (num 0);
     chan_a := None |}.

Definition brand_primary : PaintStyle.t :=
  {| PaintStyle.name := "Brand / Primary"; PaintStyle.description := None;
     PaintStyle.paints := Some [solid (Some (num 1)) (Some black)] |}.

Definition drop_shadow : Effect.t :=
  {| Effect.type := "DROP_SHADOW";
     Effect.offset := Some {| Vector.x := Some (num 2); Vector.y := Some (num 4) |};
     Effect.radius := Some (num 8); Effect.spread := Some (num 0);
     Effect.color :=
       Some {| chan_r := Some (num 0); chan_g := Some (num 0); chan_b := Some (num 0);
               chan_a := Some (Fin (Qmake 1 2)) |} |}.

Definition elevation : EffectStyle.t :=
  {| EffectStyle.name := "Elevation / 1"; EffectStyle.description := Some " card ";
     EffectStyle.effects := Some [drop_shadow; layer_blur] |}.

Definition sunset : PaintStyle.t :=
  {| PaintStyle.name := "Sunset"; PaintStyle.description := None;
     PaintStyle.paints :=
       Some [ {| Paint.type := "GRADIENT_LINEAR"; Paint.opacity := None;
                 Paint.color := None;
                 Paint.gradientStops :=
                   Some [ {| ColorStop.position := num 0; ColorStop.color := Some red |};
                          {| ColorStop.position := num 1; ColorStop.color := Some blue |} ];
                 Paint.gradientTransform :=
                   Some [[num 1; num 0; num 0]; [num 0; num 1; num 0]];
                 Paint.scaleMode := None |} ] |}.

End Examples.

(** ** Shapes of the exported values *)

(** A digit of [[0-9a-f]]. *)
Definition is_hex_digit (c : ascii) : bool := is_digit c || in_range 97 102 c.

(** A [#rrggbb] string in lower-case hexadecimal digits. *)
Definition is_hex_color (s : string) : bool :=
  match list_ascii_of_string s with
  | "#"%char :: digits => (length digits =? 6)%nat && forallb is_hex_digit digits
  | _ => false
  end.

(** The 8-bit value both normalizers compute for a channel:
    [Math.round(Math.max(0, Math.min(1, c || 0)) * 255)]. *)
Definition channel_byte (c : option Num) : Num :=
  Math_round (Num_mul (clamp01 (or_zero c)) (num 255)).

(** Two lower-case hexadecimal digits. *)
Definition hex_pair (s : string) : bool :=
  match s with
  | String a (String b EmptyString) => is_hex_digit a && is_hex_digit b
  | _ => false
  end.

(** A string of exactly three decimal digits. *)
Definition three_digits (s : string) : bool :=
  match list_ascii_of_string s with
  | [a; b; c] => is_digit a && is_digit b && is_digit c
  | _ => false
  end.

(** The class [[a-z0-9_-]]. *)
Definition is_slug_out_char (c : ascii) : bool :=
  is_a_z0_9 c || is_char hyphen c || is_char underscore c.

(** What [styleNameToToken] returns: characters of [[a-z0-9_-]] only, no two
    hyphens and no two underscores in a row, neither of them at either
    end. *)
Definition is_slug (t : chars) : Prop :=
  Forall (fun c => is_slug_out_char c = true) t /\
  no_double (is_char hyphen) t = true /\
  no_double (is_char underscore) t = true /\
  head_outside (fun c => is_char hyphen c || is_char underscore c) t /\
  last_outside (fun c => is_char hyphen c || is_char underscore c) t.

(** An ASCII letter, a digit, a white-space character or a hyphen. *)
Definition is_plain_name_char (c : ascii) : bool :=
  is_a_z0_9 (lower_char c) || is_space c || is_char hyphen c.

Section ValueShapes.
Context {engine : JsEngine}.

(** The two forms of an exported color: [#rrggbb], or [rgba(r, g, b, a)]
    with 8-bit channels and an alpha below 1. *)
Definition is_css_color (s : string) : Prop :=
  is_hex_color s = true \/
  exists r g b a,
    (0 <= r <= 255)%Z /\ (0 <= g <= 255)%Z /\ (0 <= b <= 255)%Z /\
    Num_lt a (num 1) = true /\
    s = rgba_string (num r) (num g) (num b) a.

(** What the [switch] of [processVariable] lets through for a resolved
    type. *)
Definition value_fits (resolvedType : string) (v : VariableValue) : Prop :=
  is_present v = true /\
  (resolvedType = "COLOR" -> exists s, v = VString s /\ is_css_color s) /\
  (resolvedType = "FLOAT" -> exists n, v = VNumber n) /\
  (resolvedType = "STRING" -> v <> VString "").

End ValueShapes.

(** Every record of a collection is in the bucket of its type. *)
Definition well_filed (c : CollectionData.t) : Prop :=
  Forall (fun x => VarData.type x = "color") (Buckets.colors (CollectionData.variables c)) /\
  Forall (fun x => VarData.type x = "float") (Buckets.numbers (CollectionData.variables c)) /\
  Forall (fun x => VarData.type x = "string") (Buckets.strings (CollectionData.variables c)) /\
  Forall (fun x => VarData.type x = "boolean") (Buckets.booleans (CollectionData.variables c)).

(** ** Helpers of code.js beside the extractors, and of the synchronous
    extractor *)

(** What [figmaRgbToStandardRgb] returns. *)
Record StandardRgb : Type := {
  rgb_r : Num;
  rgb_g : Num;
  rgb_b : Num
}.

(** [figmaRgbToStandardRgb]: a channel that is not there multiplies to
    [NaN]. *)
Definition figmaRgbToStandardRgb (figmaColor : RGBA) : StandardRgb :=
  {| rgb_r := Math_round (Num_mul (default NaN (chan_r figmaColor)) (num 255));
     rgb_g := Math_round (Num_mul (default NaN (chan_g figmaColor)) (num 255));
     rgb_b := Math_round (Num_mul (default NaN (chan_b figmaColor)) (num 255)) |}.

(** A channel value between 0 and 1. *)
Definition in_unit (q : Q) : Prop := (0 <= q)%Q /\ (q <= 1)%Q.

Section SolidCSS.
Context {engine : JsEngine}.

(** [generateSolidColorCSS]; destructuring [paint.color] throws when the
    paint has no color. *)
Definition generateSolidColorCSS (paint : Paint.t) : Promise string :=
  match Paint.color paint with
  | None => Rejected TypeError
  | Some c =>
      let opacity := solid_opacity paint in
      if Num_lt opacity (num 1) then
        let rgba := figmaRgbaToStandardRgba (Some c) in
        Fulfilled (rgba_string (std_r rgba) (std_g rgba) (std_b rgba) opacity)
      else Fulfilled (default "transparent" (rgbToHex (Some c)))
  end.

End SolidCSS.

(** The color helpers of the synchronous extractor (and of the earlier
    variant kept in code.js): no clamping and no validation. *)
Module Legacy.

Definition toHex (n : Num) : string :=
  let hex := Num_toString16 (Math_round (Num_mul n (num 255))) in
  if (String.length hex =? 1)%nat then "0" ++ hex else hex.

(** [rgbToHex(r, g, b)] *)
Definition rgbToHex (r g b : Num) : string := "#" ++ toHex r ++ toHex g ++ toHex b.

Section Rendering.
Context {engine : JsEngine}.

(** [rgbaToCSS(r, g, b, a)] *)
Definition rgbaToCSS (r g b a : Num) : string :=
  rgba_string (Math_round (Num_mul r (num 255))) (Math_round (Num_mul g (num 255)))
              (Math_round (Num_mul b (num 255))) a.

End Rendering.

End Legacy.

(** ** More example documents *)

Module Showcase.

Definition body : TextStyle.t :=
  {| TextStyle.name := "Body / Regular"; TextStyle.description := None;
     TextStyle.fontName := Some {| FontName.family := Some "Inter";
                                   FontName.style := Some "Regular" |};
     TextStyle.fontSize := Some (num 16); TextStyle.lineHeight := None;
     TextStyle.letterSpacing := None; TextStyle.textCase := None;
     TextStyle.textDecoration := None |}.

Definition columns : GridStyle.t :=
  {| GridStyle.name := "Columns"; GridStyle.description := None;
     GridStyle.layoutGrids :=
       Some [ {| LayoutGrid.pattern := "COLUMNS"; LayoutGrid.count := Some (num 0);
                 LayoutGrid.gutterSize := None; LayoutGrid.offset := Some (num 24) |} ] |}.

(** A document with styles of the four kinds, some of which are skipped,
    and the variables of [Examples]. *)
Definition styled_document : Figma.t :=
  {| Figma.fileKey := Some "f1"; Figma.root_name := Some "Tokens";
     Figma.now_ISOString := "2025-01-01T00:00:00.000Z";
     Figma.getLocalPaintStylesAsync :=
       Fulfilled [Examples.brand_primary; Examples.no_paints; Examples.sunset];
     Figma.getLocalTextStylesAsync := Fulfilled [body];
     Figma.getLocalEffectStylesAsync := Fulfilled [Examples.blur_only; Examples.elevation];
     Figma.getLocalGridStylesAsync := Fulfilled [Examples.no_grids; columns];
     Figma.getLocalVariablesAsync :=
       Fulfilled [Examples.primary_red; Examples.gap "gone-1" 4; Examples.primary_blue];
     Figma.getLocalVariableCollectionsAsync := Fulfilled [Examples.brand];
     Figma.getVariableByIdAsync := fun _ => Fulfilled None |}.




End Showcase.

(** * Properties *)

Local Open Scope list_scope.

(** ** The scenarios of the specification, run on the model *)

Example scenario_brand_primary :
  processColorStyle (engine := ExampleEngine.engine) Examples.brand_primary =
  Fulfilled (Some {| ColorData.name := "Brand / Primary"; ColorData.token := "brand-primary";
                     ColorData.type := "solid"; ColorData.description := None;
                     ColorData.value := "#000000"; ColorData.stops := None;
                     ColorData.scaleMode := None |}).
Proof. reflexivity. Qed.

Example scenario_linear_gradient :
  ColorData.value <$>
    collect (processColorStyle (engine := ExampleEngine.engine)) [Examples.sunset] =
  ["linear-gradient(0deg, #ff0000 0%, #0000ff 100%)"].
Proof. reflexivity. Qed.

Example scenario_drop_shadow :
  (fun data => (EffectData.value data, EffectData.description data,
                CleanEffect.type <$> default [] (EffectData.effects data))) <$>
    collect (processEffectStyle (engine := ExampleEngine.engine)) [Examples.elevation] =
  [("box-shadow: 2px 4px 8px 0px rgba(0, 0, 0, 0.5)", Some "card",
    ["drop-shadow"; "layer-blur"])].
Proof. reflexivity. Qed.

Example scenario_fetch_rejects :
  onmessage (engine := ExampleEngine.engine)
    {| Figma.fileKey := None; Figma.root_name := None; Figma.now_ISOString := "";
       Figma.getLocalPaintStylesAsync := Fulfilled [Examples.brand_primary];
       Figma.getLocalTextStylesAsync := Fulfilled [];
       Figma.getLocalEffectStylesAsync := Fulfilled [];
       Figma.getLocalGridStylesAsync := Rejected "not loaded";
       Figma.getLocalVariablesAsync := Fulfilled [];
       Figma.getLocalVariableCollectionsAsync := Fulfilled [];
       Figma.getVariableByIdAsync := fun _ => Fulfilled None |}
    "export-data" =
  [ExportStart; ExportError fatal_message].
Proof. reflexivity. Qed.

Example scenario_font_weights :
  map parseFontWeight ["Semi Bold Italic"; "SemiBold"; "W650"; "Condensed"] =
  ["700"; "600"; "650"; "400"].
Proof. reflexivity. Qed.

Example scenario_key_order :
  obj_set "2" 1 (obj_set "Dark" 2 (obj_set "10" 3 [])) =
  [("2", 1); ("10", 3); ("Dark", 2)].
Proof. reflexivity. Qed.

(** ** Token name generators *)

Section RunLemmas.
Variables (p : ascii -> bool) (h : ascii).
Hypothesis p_h : p h = true.

Lemma no_double_cons c s :
  no_double p (c :: s) = true <->
  (p c = true -> head_outside p s) /\ no_double p s = true.
Proof.
  destruct s as [|c' s]; simpl.
  - tauto.
  - rewrite andb_true_iff, negb_true_iff, andb_false_iff.
    destruct (p c), (p c'); intuition congruence.
Qed.

Lemma replace_runs_from_Forall (P : ascii -> Prop) min r :
  Forall P r -> forall s run, Forall P s -> Forall P run ->
  Forall P (replace_runs_from p min r run s).
Proof.
  intros Hr s. induction s as [|c s IH]; intros run Hs Hrun; simpl.
  - unfold flush. by destruct (min <=? length run)%nat.
  - inversion Hs; subst. destruct (p c).
    + apply IH; [done| ]. apply Forall_app; auto.
    + apply Forall_app. split.
      * unfold flush. by destruct (min <=? length run)%nat.
      * constructor; [done| ]. by apply IH.
Qed.

(** The shape of a collapsed string: no two class characters in a row, and a
    pending run comes out as one [h] followed by a character outside the
    class. *)
Lemma replace_runs_from_shape s : forall run,
  no_double p (replace_runs_from p 1 [h] run s) = true /\
  (run <> [] -> exists out, replace_runs_from p 1 [h] run s = h :: out /\ head_outside p out) /\
  (run = [] -> head_outside p s -> head_outside p (replace_runs_from p 1 [h] run s)).
Proof.
  induction s as [|c s IH]; intros run; cbn [replace_runs_from].
  - unfold flush. destruct run as [|x run]; cbn [length Nat.leb].
    + split; [done| ]. split; [congruence| ]. done.
    + split; [done| ]. split; [ |congruence]. intros _. by exists [].
  - destruct (p c) eqn:Hc.
    + destruct (IH (run ++ [c])) as (Hn & Hne & _).
      destruct Hne as (out & Hout & Hhead); [by destruct run| ].
      split; [done| ]. split.
      * intros _. eauto.
      * intros _ Hh. simpl in Hh. congruence.
    + destruct (IH []) as (Hn & _ & Hnil).
      assert (Hcons : no_double p (c :: replace_runs_from p 1 [h] [] s) = true).
      { apply no_double_cons. split; [congruence|done]. }
      unfold flush. destruct run as [|x run]; cbn [length Nat.leb app].
      * split; [done| ]. split; [congruence| ]. done.
      * split; [ |split; [ |congruence] ].
        -- apply no_double_cons. split; [ |done]. intros _. exact Hc.
        -- intros _. eexists. split; [done| ]. exact Hc.
Qed.

Lemma replace_runs_no_double s : no_double p (replace_runs p 1 [h] s) = true.
Proof. apply replace_runs_from_shape. Qed.

Hypothesis p_only_h : forall c, p c = true -> c = h.

(** A string without repeated class characters is left as it is. *)
Lemma replace_runs_from_fixed s : forall run,
  run = [] \/ run = [h] ->
  no_double p (run ++ s) = true ->
  replace_runs_from p 1 [h] run s = run ++ s.
Proof.
  induction s as [|c s IH]; intros run Hrun Hn; simpl.
  - destruct Hrun as [-> | ->]; reflexivity.
  - destruct (p c) eqn:Hc.
    + assert (c = h) as -> by auto.
      destruct Hrun as [-> | ->].
      * simpl. apply (IH [h]); auto.
      * simpl in Hn. rewrite p_h in Hn. done.
    + destruct Hrun as [-> | ->]; simpl.
      * f_equal. apply (IH []); auto. simpl in Hn.
        destruct s; [done| ]. by apply andb_true_iff in Hn as [_ Hn].
      * f_equal. f_equal. apply (IH []); auto. simpl in Hn.
        apply andb_true_iff in Hn as [_ Hn].
        destruct s; [done| ]. by apply andb_true_iff in Hn as [_ Hn].
Qed.

Lemma replace_runs_fixed s :
  no_double p s = true -> replace_runs p 1 [h] s = s.
Proof. intros. apply (replace_runs_from_fixed s []); auto. Qed.

End RunLemmas.

Section EdgeLemmas.
Variable p : ascii -> bool.

Lemma drop_first_if_Forall (P : ascii -> Prop) s :
  Forall P s -> Forall P (drop_first_if p s).
Proof.
  destruct s as [|c s]; simpl; [done| ].
  intros H. destruct (p c); [by inversion H|done].
Qed.

Lemma drop_first_if_shape s :
  no_double p s = true ->
  no_double p (drop_first_if p s) = true /\ head_outside p (drop_first_if p s).
Proof.
  destruct s as [|c s]; [done| ].
  intros H. pose proof H as H'. apply no_double_cons in H' as [Hh Hn].
  cbn [drop_first_if]. destruct (p c) eqn:Hc; [auto| ].
  split; [done| ]. exact Hc.
Qed.

Lemma drop_first_if_fixed s : head_outside p s -> drop_first_if p s = s.
Proof. destruct s as [|c s]; simpl; [done| ]. by intros ->. Qed.

Lemma drop_last_if_Forall (P : ascii -> Prop) s :
  Forall P s -> Forall P (drop_last_if p s).
Proof.
  induction s as [|c s IH]; [done| ].
  intros H. inversion H; subst. cbn [drop_last_if].
  destruct s as [|c' s]; [by destruct (p c)| ].
  constructor; auto.
Qed.

Lemma drop_last_if_head s : head_outside p s -> head_outside p (drop_last_if p s).
Proof.
  destruct s as [|c s]; [done| ]. cbn [drop_last_if].
  destruct s; [ |done]. simpl. intros Hc. by rewrite Hc.
Qed.

Lemma drop_last_if_no_double s :
  no_double p s = true -> no_double p (drop_last_if p s) = true.
Proof.
  induction s as [|c s IH]; [done| ].
  intros H. apply no_double_cons in H as [Hh Hn]. cbn [drop_last_if].
  destruct s as [|c' s]; [by destruct (p c)| ].
  apply no_double_cons. split; [ |auto].
  intros Hc. apply drop_last_if_head. auto.
Qed.

Lemma drop_last_if_last s :
  no_double p s = true -> last_outside p (drop_last_if p s).
Proof.
  unfold last_outside. induction s as [|c s IH]; [done| ].
  intros H. apply no_double_cons in H as [Hh Hn]. cbn [drop_last_if].
  destruct s as [|c' s].
  - destruct (p c) eqn:Hc; simpl; done.
  - specialize (IH Hn). cbn [drop_last_if] in IH |- *.
    destruct s as [|c'' s].
    + destruct (p c') eqn:Hc'; simpl in *; [ |done].
      destruct (p c) eqn:Hc; [ |done]. specialize (Hh eq_refl). simpl in Hh. congruence.
    + exact IH.
Qed.

Lemma drop_last_if_fixed s : last_outside p s -> drop_last_if p s = s.
Proof.
  unfold last_outside. induction s as [|c s IH]; [done| ].
  cbn [drop_last_if]. destruct s as [|c' s].
  - simpl. by intros ->.
  - intros H. f_equal. by apply IH.
Qed.

End EdgeLemmas.

Lemma is_char_eq x c : is_char x c = true -> c = x.
Proof.
  unfold is_char, code. intros H. apply N.eqb_eq in H.
  rewrite <- (ascii_N_embedding c), <- (ascii_N_embedding x). by f_equal.
Qed.

Lemma is_char_refl x : is_char x x = true.
Proof. unfold is_char. apply N.eqb_refl. Qed.

Lemma lower_char_token c : is_token_char c = true -> lower_char c = c.
Proof.
  destruct c as [[] [] [] [] [] [] [] []]; vm_compute; congruence.
Qed.

Lemma replace_each_token s :
  Forall (fun c => is_token_char c = true)
         (replace_each (fun c => negb (is_a_z0_9 c)) [hyphen] s).
Proof.
  induction s as [|c s IH]; [constructor| ].
  unfold replace_each in *. cbn [flat_map].
  destruct (is_a_z0_9 c) eqn:Hc; cbn [negb app]; constructor; auto.
  unfold is_token_char. by rewrite Hc.
Qed.

Lemma replace_each_token_fixed s :
  Forall (fun c => is_token_char c = true) s ->
  replace_each (fun c => negb (is_a_z0_9 c)) [hyphen] s = s.
Proof.
  induction 1 as [|c s Hc _ IH]; [done| ].
  unfold replace_each in *. cbn [flat_map]. rewrite IH.
  unfold is_token_char in Hc.
  destruct (is_a_z0_9 c); cbn [negb app]; [done| ].
  simpl in Hc. apply is_char_eq in Hc. by subst.
Qed.

Lemma generateToken_chars_is_token s : is_token (generateToken_chars s).
Proof.
  unfold generateToken_chars, strip_one_each_end.
  set (t := replace_runs _ _ _ _).
  assert (Ht : Forall (fun c => is_token_char c = true) t).
  { apply replace_runs_from_Forall.
    - by repeat constructor.
    - apply replace_each_token.
    - constructor. }
  assert (Hn : no_double (is_char hyphen) t = true).
  { by apply replace_runs_no_double. }
  destruct (drop_first_if_shape _ _ Hn) as [Hn' Hh].
  split; [by apply drop_last_if_Forall, drop_first_if_Forall| ].
  split; [by apply drop_last_if_no_double| ].
  split; [by apply drop_last_if_head|by apply drop_last_if_last].
Qed.

Lemma generateToken_chars_fixed t : is_token t -> generateToken_chars t = t.
Proof.
  intros (Ht & Hn & Hh & Hl).
  unfold generateToken_chars, strip_one_each_end, toLowerCase_chars.
  assert (map lower_char t = t) as ->.
  { clear -Ht. induction Ht as [|c t Hc _ IH]; [done| ].
    simpl. by rewrite IH, lower_char_token. }
  rewrite replace_each_token_fixed by done.
  rewrite (replace_runs_fixed _ hyphen (is_char_refl _) (fun c => is_char_eq hyphen c)) by done.
  rewrite drop_first_if_fixed by done.
  by apply drop_last_if_fixed.
Qed.

(** C7. [generateToken] is idempotent: applying it to one of its results
    gives that result back. *)
Theorem generateToken_idempotent (x : string) :
  generateToken (generateToken x) = generateToken x.
Proof.
  unfold generateToken, on_chars.
  rewrite list_ascii_of_string_of_list_ascii.
  f_equal. apply generateToken_chars_fixed, generateToken_chars_is_token.
Qed.

(** *** The two generators and the slug of the specification *)

Lemma replace_each_delete p s :
  replace_each (fun c => negb (p c)) [] s = filter (fun c => p c = true) s.
Proof.
  induction s as [|c s IH]; [done| ].
  unfold replace_each in *. cbn [flat_map]. rewrite IH.
  rewrite filter_cons. destruct (p c) eqn:Hc; cbn [negb].
  - by rewrite decide_True.
  - by rewrite decide_False by congruence.
Qed.

Section SqueezeLemmas.
Variables (p : ascii -> bool) (r : ascii).

Lemma squeeze_run run s :
  Forall (fun c => p c = true) run -> run <> [] -> head_outside p s ->
  squeeze p r (run ++ s) = r :: squeeze p r s.
Proof.
  intros Hrun. induction Hrun as [|c run Hc Hrun IH]; [done| ].
  intros _ Hs. cbn [app squeeze]. rewrite Hc.
  destruct run as [|c' run].
  - cbn [app]. destruct s as [|c' s]; [done| ]. simpl in Hs. by rewrite Hs.
  - cbn [app] in *. inversion Hrun; subst.
    rewrite H1. apply IH; done.
Qed.

Lemma replace_runs_from_squeeze s : forall run,
  Forall (fun c => p c = true) run ->
  replace_runs_from p 1 [r] run s = squeeze p r (run ++ s).
Proof.
  induction s as [|c s IH]; intros run Hrun; cbn [replace_runs_from].
  - rewrite app_nil_r. unfold flush. destruct run as [|x run]; [done| ].
    cbn [length Nat.leb]. rewrite <- (app_nil_r (x :: run)).
    by rewrite squeeze_run.
  - destruct (p c) eqn:Hc.
    + rewrite IH by (apply Forall_app; auto). by rewrite <- app_assoc.
    + rewrite (IH []) by constructor. cbn [app].
      unfold flush. destruct run as [|x run]; cbn [length Nat.leb app].
      * cbn [squeeze]. by rewrite Hc.
      * change (x :: run ++ c :: s) with ((x :: run) ++ c :: s).
        rewrite squeeze_run by done. cbn [squeeze]. by rewrite Hc.
Qed.

Lemma replace_runs_squeeze s : replace_runs p 1 [r] s = squeeze p r s.
Proof. apply (replace_runs_from_squeeze s []). constructor. Qed.

End SqueezeLemmas.

(** Under [/x{2,}/ -> x] a run of a single [x] stays, as it does under
    [/x+/ -> x]. *)
Lemma replace_runs_two_or_more x s :
  replace_runs (is_char x) 2 [x] s = replace_runs (is_char x) 1 [x] s.
Proof.
  unfold replace_runs.
  assert (Hflush : forall run, Forall (fun c => is_char x c = true) run ->
                     flush 2 [x] run = flush 1 [x] run).
  { intros run Hrun. unfold flush.
    destruct run as [|a [|b run]]; cbn [length Nat.leb]; try done.
    inversion Hrun; subst. f_equal. by apply is_char_eq. }
  assert (H : forall run, Forall (fun c => is_char x c = true) run ->
     replace_runs_from (is_char x) 2 [x] run s = replace_runs_from (is_char x) 1 [x] run s).
  { induction s as [|c s IH]; intros run Hrun; cbn [replace_runs_from].
    - by apply Hflush.
    - destruct (is_char x c) eqn:Hc.
      + apply IH, Forall_app; auto.
      + rewrite Hflush by done. by rewrite (IH []) by constructor. }
  apply H. constructor.
Qed.

Lemma drop_leading_snoc p s c :
  drop_leading p (s ++ [c]) =
  match drop_leading p s with
  | [] => if p c then [] else [c]
  | t => t ++ [c]
  end.
Proof.
  induction s as [|a s IH]; cbn [app drop_leading]; [done| ].
  destruct (p a); [done| ]. done.
Qed.

Lemma drop_trailing_rev p s : drop_trailing p s = rev (drop_leading p (rev s)).
Proof.
  induction s as [|c s IH]; [done| ].
  cbn [drop_trailing rev]. rewrite drop_leading_snoc, IH.
  destruct (drop_leading p (rev s)) as [|a t] eqn:Ht.
  - by destruct (p c).
  - cbn [rev]. rewrite rev_app_distr. cbn [rev app].
    destruct (rev t ++ [a]) eqn:E; [by destruct (rev t)|done].
Qed.

Lemma styleNameToToken_chars_spec s :
  styleNameToToken_chars s = slugify_spec_chars s.
Proof.
  unfold styleNameToToken_chars, slugify_spec_chars, strip_runs_each_end, trim_class.
  rewrite drop_trailing_rev. do 2 f_equal.
  rewrite !replace_runs_two_or_more, !replace_runs_squeeze.
  by rewrite (replace_each_delete is_slug_char).
Qed.

Lemma replace_each_single p r s :
  replace_each p [r] s = map (fun c => if p c then r else c) s.
Proof.
  induction s as [|c s IH]; [done| ].
  unfold replace_each in *. cbn [flat_map map]. rewrite IH. by destruct (p c).
Qed.

Lemma squeeze_map {A} (p1 p2 : ascii -> bool) r (f g : A -> ascii) (s : list A) :
  (forall x, p1 (f x) = p2 (g x)) ->
  (forall x, p1 (f x) = false -> f x = g x) ->
  squeeze p1 r (map f s) = squeeze p2 r (map g s).
Proof.
  intros Hp Hfg. induction s as [|x s IH]; [done| ].
  cbn [map squeeze]. rewrite <- Hp. destruct (p1 (f x)) eqn:Hx.
  - destruct s as [|y s]; [done| ]. cbn [map] in *. rewrite <- Hp.
    destruct (p1 (f y)); by rewrite IH.
  - by rewrite IH, Hfg.
Qed.

Lemma squeeze_outside p r s :
  Forall (fun c => p c = false) s -> squeeze p r s = s.
Proof.
  induction 1 as [|c s Hc _ IH]; [done| ]. cbn [squeeze]. by rewrite Hc, IH.
Qed.

Lemma a_z0_9_classes c :
  is_a_z0_9 c = true ->
  is_space c = false /\ is_char hyphen c = false /\ is_char underscore c = false /\
  is_slug_char c = true.
Proof.
  destruct c as [[] [] [] [] [] [] [] []]; vm_compute; intros; try done; congruence.
Qed.

Lemma token_char_classes c :
  is_token_char c = true ->
  is_char underscore c = false /\
  (fun c => is_char hyphen c || is_char underscore c) c = is_char hyphen c.
Proof.
  destruct c as [[] [] [] [] [] [] [] []]; vm_compute; intros; try done; congruence.
Qed.

Section TokenEdges.
Local Abbreviation hy := (is_char hyphen).
Local Abbreviation hu := (fun c => is_char hyphen c || is_char underscore c).
Local Abbreviation token := (fun c => is_token_char c = true).

Lemma hu_token c : is_token_char c = true -> hu c = hy c.
Proof. intros H. by apply token_char_classes. Qed.

Lemma drop_leading_token w :
  Forall token w -> no_double hy w = true -> drop_leading hu w = drop_first_if hy w.
Proof.
  intros Hw Hn. destruct w as [|c w]; [done| ].
  inversion Hw as [|? ? Hc Hw']; subst.
  apply no_double_cons in Hn as [Hh _].
  cbn [drop_leading drop_first_if]. cbv beta.
  rewrite (hu_token c Hc).
  destruct (hy c) eqn:E; [ |done].
  specialize (Hh eq_refl). destruct w as [|c' w]; [done| ].
  inversion Hw' as [|? ? Hc' _]; subst. cbn [drop_leading]. cbv beta.
  rewrite (hu_token c' Hc'). simpl in Hh. by rewrite Hh.
Qed.

Lemma drop_trailing_token w :
  Forall token w -> no_double hy w = true -> drop_trailing hu w = drop_last_if hy w.
Proof.
  induction 1 as [|c w Hc Hw IH]; [done| ].
  intros Hn. apply no_double_cons in Hn as [Hh Hn].
  cbn [drop_trailing drop_last_if]. rewrite (IH Hn). cbv beta.
  rewrite (hu_token c Hc).
  destruct w as [|c' w]; [done| ].
  cbn [drop_last_if]. destruct w as [|c'' w]; [ |done].
  destruct (hy c') eqn:E'; [ |done].
  destruct (hy c) eqn:E; [ |done].
  specialize (Hh eq_refl). simpl in Hh. congruence.
Qed.

End TokenEdges.

Lemma generateToken_chars_spec s :
  generateToken_chars s = slugify_spec_chars (separators_to_spaces s).
Proof.
  unfold generateToken_chars, slugify_spec_chars, separators_to_spaces, toLowerCase_chars.
  rewrite replace_each_single, !map_map, replace_runs_squeeze.
  set (u := map _ s). set (v := map _ s).
  assert (Hu : Forall (fun c => is_slug_char c = true) v).
  { subst v. apply Forall_forall. intros c Hc. apply list_elem_of_In, in_map_iff in Hc as (x & <- & _).
    destruct (is_a_z0_9 (lower_char x)) eqn:E; [by apply a_z0_9_classes|done]. }
  assert (filter (fun c => is_slug_char c = true) v = v) as ->.
  { clear -Hu. induction Hu as [|c v Hc _ IH]; [done| ].
    by rewrite filter_cons, decide_True, IH. }
  assert (squeeze is_space hyphen v = squeeze (is_char hyphen) hyphen u) as ->.
  { subst u v. apply squeeze_map; intros x; destruct (is_a_z0_9 (lower_char x)) eqn:E; cbn [negb].
    - destruct (a_z0_9_classes _ E) as (-> & -> & _). done.
    - done.
    - done.
    - done. }
  set (w := squeeze (is_char hyphen) hyphen u).
  assert (Hw : is_token (generateToken_chars s)) by apply generateToken_chars_is_token.
  assert (Htok : Forall (fun c => is_token_char c = true) w /\
                 no_double (is_char hyphen) w = true).
  { subst w. rewrite <- replace_runs_squeeze. split.
    - apply replace_runs_from_Forall; [by repeat constructor| |constructor].
      subst u. apply Forall_forall. intros c Hc.
      apply list_elem_of_In, in_map_iff in Hc as (x & <- & _).
      unfold is_token_char. by destruct (is_a_z0_9 (lower_char x)) eqn:E; cbn [negb]; [rewrite E| ].
    - by apply replace_runs_no_double. }
  destruct Htok as [Htok Hn].
  rewrite (squeeze_outside (is_char underscore)).
  2:{ eapply Forall_impl; [exact Htok| ]. intros c Hc. by apply token_char_classes. }
  rewrite <- (replace_runs_squeeze (is_char hyphen) hyphen w).
  rewrite (replace_runs_fixed _ hyphen (is_char_refl _) (fun c => is_char_eq hyphen c)) by done.
  unfold trim_class, strip_one_each_end. rewrite <- drop_trailing_rev.
  rewrite drop_leading_token by done.
  rewrite drop_trailing_token; [done| | ].
  - by apply drop_first_if_Forall.
  - by apply drop_first_if_shape.
Qed.

(** Counterexample to C6 as stated: on a name with an underscore and a
    full stop, [generateToken] gives hyphens where the described slug keeps
    the underscore and removes the full stop. *)
Lemma generateToken_differs_from_the_slug :
  generateToken "snake_case.v2" = "snake-case-v2" /\
  slugify_spec "snake_case.v2" = "snake_casev2".
Proof. split; reflexivity. Qed.

(** C6, amended. [styleNameToToken] computes the slug as the specification
    words it.  [generateToken] computes that slug of the name in which every
    character outside [[a-z0-9]] (after lower-casing) is first read as a
    space: it turns underscores and the other characters outside the set
    into hyphens. *)
Theorem token_generators_and_the_slug :
  (forall name, styleNameToToken name = slugify_spec name) /\
  (forall name, generateToken name = slugify_spec (on_chars separators_to_spaces name)).
Proof.
  split; intros name.
  - unfold styleNameToToken, slugify_spec, on_chars.
    by rewrite styleNameToToken_chars_spec.
  - unfold generateToken, slugify_spec, on_chars.
    by rewrite list_ascii_of_string_of_list_ascii, generateToken_chars_spec.
Qed.

(** ** Color normalizer and paint styles *)

Lemma pad_hex_two_chars z : (0 <= z <= 255)%Z -> two_chars (pad_hex z) = true.
Proof.
  intros Hz.
  assert (Hall : forallb (fun n => two_chars (pad_hex (Z.of_nat n))) (seq 0 256) = true)
    by (vm_compute; reflexivity).
  rewrite forallb_forall in Hall.
  rewrite <- (Z2Nat.id z) by lia. apply Hall, in_seq. lia.
Qed.

Lemma Num_lt_num a b : Num_lt (num a) (num b) = (a <? b)%Z.
Proof.
  unfold Num_lt, num, Qle_bool, inject_Z. cbn [Qnum Qden].
  rewrite !Z.mul_1_r. destruct (Z.leb_spec b a), (Z.ltb_spec a b); try done; lia.
Qed.

Lemma Math_round_cases x :
  (exists z, Math_round x = num z) \/ Math_round x = NaN \/
  Math_round x = PInf \/ Math_round x = NInf.
Proof. destruct x; cbn; eauto. Qed.

Lemma toHex_two_chars c : two_chars (toHex c) = true.
Proof.
  unfold toHex.
  destruct (Math_round_cases
              (Num_mul (Math_max (num 0) (Math_min (num 1) (or_zero c))) (num 255)))
    as [[z ->] | [-> | [-> | ->]]]; try done.
  cbn [isNaN orb]. rewrite !Num_lt_num.
  destruct (Z.ltb_spec z 0); [done| ].
  destruct (Z.ltb_spec 255 z); [done| ].
  replace (Num_toString16 (num z)) with (Z_toString16 z).
  - apply (pad_hex_two_chars z). lia.
  - unfold Num_toString16, num. by rewrite Qfloor_Z.
Qed.

Lemma two_chars_inv s : two_chars s = true -> exists a b, s = String a (String b EmptyString).
Proof. destruct s as [|a [|b [|]]]; try done. eauto. Qed.

(** [rgbToHex] never gives ["#000000"] for a color that lacks a channel. *)
Lemma rgbToHex_black c :
  rgbToHex (Some c) = Some "#000000" ->
  is_Some (chan_r c) /\ is_Some (chan_g c) /\ is_Some (chan_b c).
Proof.
  unfold rgbToHex.
  destruct (two_chars_inv _ (toHex_two_chars (chan_r c))) as (r1 & r2 & ->).
  destruct (two_chars_inv _ (toHex_two_chars (chan_g c))) as (g1 & g2 & ->).
  destruct (two_chars_inv _ (toHex_two_chars (chan_b c))) as (b1 & b2 & ->).
  destruct (_ && _) eqn:E; [done| ].
  intros [= -> -> -> -> -> ->]. cbn in E.
  destruct (chan_r c), (chan_g c), (chan_b c); try done; eauto.
Qed.

Lemma rgbToHex_all_zero c :
  chan_r c = None \/ chan_g c = None \/ chan_b c = None ->
  toHex (chan_r c) = "00" -> toHex (chan_g c) = "00" -> toHex (chan_b c) = "00" ->
  rgbToHex (Some c) = None.
Proof.
  intros Hc Hr Hg Hb. unfold rgbToHex. rewrite Hr, Hg, Hb. cbn.
  destruct Hc as [-> | [-> | ->]]; cbn; rewrite ?orb_true_r; done.
Qed.

(** C3, amended. For a paint style whose first paint is SOLID and whose color is
    absent or lacks one of [r], [g], [b]: under a rounded opacity below 1 the
    style is exported with an rgba string in which a missing channel counts
    as 0; otherwise the style is dropped when every channel renders as 00,
    and whenever it is exported its value is not ["#000000"]. *)
Theorem solid_color_lacking_channel {engine : JsEngine}
    (style : PaintStyle.t) (paint : Paint.t) (rest : list Paint.t) :
  PaintStyle.paints style = Some (paint :: rest) ->
  Paint.type paint = "SOLID" ->
  lacks_channel (Paint.color paint) ->
  if Num_lt (solid_opacity paint) (num 1) then
    exists result,
      processColorStyle style = Fulfilled (Some result) /\
      ColorData.value result =
        let rgba := figmaRgbaToStandardRgba (Paint.color paint) in
        rgba_string (std_r rgba) (std_g rgba) (std_b rgba) (solid_opacity paint)
  else
    (channels_render_zero (Paint.color paint) -> processColorStyle style = Fulfilled None) /\
    (forall result, processColorStyle style = Fulfilled (Some result) ->
       ColorData.value result <> "#000000").
Proof.
  intros Hpaints Htype Hlacks. unfold processColorStyle, solid_opacity.
  rewrite Hpaints, Htype. cbn [String.eqb Ascii.eqb Bool.eqb].
  destruct (Num_lt _ (num 1)).
  - eexists. split; reflexivity.
  - split.
    + intros Hzero. destruct (Paint.color paint) as [c| ]; [ |done].
      destruct Hzero as (Hr & Hg & Hb). cbn in Hlacks.
      by rewrite rgbToHex_all_zero.
    + intros result. destruct (Paint.color paint) as [c| ]; [ |done].
      destruct (rgbToHex (Some c)) as [hex| ] eqn:Ehex; [ |done].
      intros [= <-]. cbn. intros ->.
      apply rgbToHex_black in Ehex as ([] & [] & []).
      cbn in Hlacks. destruct Hlacks as [? | [? | ?]]; congruence.
Qed.

(** Counterexample to C3 as stated: a SOLID paint at opacity 0.5 whose color
    has no [r] is not dropped; it is exported as black with that alpha. *)
Lemma solid_missing_channel_emitted_as_black_rgba :
  chan_r Examples.no_red = None /\
  collect (processColorStyle (engine := ExampleEngine.engine))
          [Examples.translucent_style] =
    [ {| ColorData.name := "Overlay / Scrim"; ColorData.token := "overlay-scrim";
         ColorData.type := "solid"; ColorData.description := None;
         ColorData.value := "rgba(0, 0, 0, 0.5)";
         ColorData.stops := None; ColorData.scaleMode := None |} ].
Proof. split; reflexivity. Qed.

(** A channel that is [NaN] is read as 0 as well: the color comes out as
    black although its [r] is not a number. *)
Example nan_channel_renders_black :
  rgbToHex (Some {| chan_r := Some NaN; chan_g := Some (num 0); chan_b := Some (num 0);
                    chan_a := None |}) = Some "#000000".
Proof. reflexivity. Qed.

(** The theorem at the style of the counterexample. *)
Lemma solid_color_lacking_channel_rgba :
  exists result,
    processColorStyle (engine := ExampleEngine.engine) Examples.translucent_style =
      Fulfilled (Some result) /\
    ColorData.value result = "rgba(0, 0, 0, 0.5)".
Proof.
  exact (solid_color_lacking_channel (engine := ExampleEngine.engine)
           Examples.translucent_style Examples.translucent_paint []
           eq_refl eq_refl (or_introl eq_refl)).
Defined.

(** ** Text styles *)

(** C9. [processTextStyle] returns a record for every text style, with its
    name, its token and the type "text"; when every typographic property is
    absent the record has no typographic field.  The paint, effect and grid
    extractors do return [null] on some styles. *)
Theorem processTextStyle_always_returns {engine : JsEngine} (style : TextStyle.t) :
  (exists result,
     processTextStyle style = Fulfilled (Some result) /\
     TextData.name result = TextStyle.name style /\
     TextData.token result = generateToken (TextStyle.name style) /\
     TextData.type result = "text" /\
     (TextStyle.fontName style = None -> TextStyle.fontSize style = None ->
      TextStyle.lineHeight style = None -> TextStyle.letterSpacing style = None ->
      TextStyle.textCase style = None -> TextStyle.textDecoration style = None ->
      TextData.fontFamily result = None /\ TextData.fontWeight result = None /\
      TextData.fontStyle result = None /\ TextData.fontSize result = None /\
      TextData.lineHeight result = None /\ TextData.letterSpacing result = None /\
      TextData.textTransform result = None /\ TextData.textDecoration result = None)) /\
  processColorStyle Examples.no_paints = Fulfilled None /\
  processEffectStyle Examples.no_effects = Fulfilled None /\
  processGridStyle Examples.no_grids = Fulfilled None.
Proof.
  split; [ |done].
  eexists. split; [reflexivity| ]. cbn.
  repeat split; try done.
  all: destruct style; cbn in *; subst; done.
Qed.

(** ** Effect styles *)

(** Counterexample to C5 as stated: a style whose only effect is a layer
    blur is skipped, although its effect list is not empty. *)
Lemma blur_only_style_is_skipped :
  EffectStyle.effects Examples.blur_only = Some [Examples.layer_blur] /\
  is_shadow Examples.layer_blur = false /\
  processEffectStyle (engine := ExampleEngine.engine) Examples.blur_only = Fulfilled None.
Proof. repeat split. Qed.

Lemma drop_trailing_head p c s : p c = false -> drop_trailing p (c :: s) <> [].
Proof. intros Hc. cbn [drop_trailing]. destruct (drop_trailing p s); by rewrite ?Hc. Qed.

Lemma string_of_list_ascii_nil l : string_of_list_ascii l = "" -> l = [].
Proof. by destruct l. Qed.

Lemma trim_box_shadow rest : trim ("box-shadow: " ++ rest)%string <> "".
Proof.
  unfold trim, on_chars. intros E. apply string_of_list_ascii_nil in E.
  revert E. cbn -[drop_trailing]. by apply drop_trailing_head.
Qed.

Section EffectProofs.
Context {engine : JsEngine}.

Lemma shadow_css_shadows (effects : list Effect.t) :
  omap shadow_css effects = omap shadow_css (filter (fun e => is_shadow e = true) effects).
Proof.
  induction effects as [|e effects IH]; [done| ].
  rewrite filter_cons. cbn [omap list_omap]. destruct (is_shadow e) eqn:E.
  - rewrite decide_True by done. cbn [omap list_omap]. by rewrite IH.
  - rewrite decide_False by congruence. unfold shadow_css at 1. by rewrite E.
Qed.

Lemma shadow_css_Some effect :
  is_Some (shadow_css effect) <->
  is_shadow effect = true /\
  exists c, Effect.color effect = Some c /\ is_Some (color_value c).
Proof.
  unfold shadow_css. destruct (is_shadow effect).
  - destruct (Effect.color effect) as [c| ].
    + destruct (color_value c) eqn:E.
      * split; [ |by eauto]. intros _. split; [done| ]. exists c. by rewrite E.
      * split; [by intros []| ]. intros (_ & c' & [= <-] & Hc). by rewrite E in Hc.
    + split; [by intros []| ]. by intros (_ & c & ? & _).
  - split; [by intros []| ]. by intros [? _].
Qed.

Lemma generateEffectCSS_shadows (effects : list Effect.t) :
  generateEffectCSS (Some effects) =
  generateEffectCSS (Some (filter (fun e => is_shadow e = true) effects)).
Proof.
  unfold generateEffectCSS. rewrite (shadow_css_shadows effects).
  destruct effects as [|e effects]; [done| ].
  destruct (filter _ (e :: effects)) eqn:E; [ |done].
  done.
Qed.

Lemma generateEffectCSS_empty (effects : list Effect.t) :
  generateEffectCSS (Some effects) = "" <-> omap shadow_css effects = [].
Proof.
  unfold generateEffectCSS. destruct effects as [|e effects]; [done| ].
  destruct (omap shadow_css (e :: effects)); [done| ].
  split; discriminate.
Qed.

(** C5, amended. [processEffectStyle] skips exactly the styles none of whose
    effects is a drop or inner shadow with a color that yields a value (an
    empty effect list among them).  A style it exports lists every effect of
    the style in [effects], and its CSS value is the one generated from the
    drop and inner shadows alone. *)
Theorem processEffectStyle_skips_without_shadow (style : EffectStyle.t) :
  let effects := default [] (EffectStyle.effects style) in
  (processEffectStyle style = Fulfilled None <->
   forall effect, effect ∈ effects ->
     ~ (is_shadow effect = true /\
        exists c, Effect.color effect = Some c /\ is_Some (color_value c))) /\
  (forall result, processEffectStyle style = Fulfilled (Some result) ->
     EffectData.effects result = Some (map cleanEffect effects) /\
     EffectData.value result =
       generateEffectCSS (Some (filter (fun e => is_shadow e = true) effects))).
Proof.
  intros effects.
  assert (Hnone : omap shadow_css effects = [] <->
                  forall effect, effect ∈ effects ->
                    ~ (is_shadow effect = true /\
                       exists c, Effect.color effect = Some c /\ is_Some (color_value c))).
  { split.
    - intros E e He Hs. apply shadow_css_Some in Hs as [css Hcss].
      assert (css ∈ omap shadow_css effects) by (apply list_elem_of_omap; eauto).
      rewrite E in *. by eapply not_elem_of_nil.
    - intros Hall. destruct (omap shadow_css effects) as [|css l] eqn:E; [done| ].
      assert (css ∈ omap shadow_css effects) as Hin by (rewrite E; left).
      apply list_elem_of_omap in Hin as (e & He & Hcss).
      destruct (Hall e He). apply shadow_css_Some. by rewrite Hcss. }
  unfold processEffectStyle. subst effects.
  destruct (EffectStyle.effects style) as [[|e effects]| ] eqn:Heff;
    cbn [default from_option id] in *.
  - split; [ |done]. split; [ |done]. intros _ e He. by apply not_elem_of_nil in He.
  - rewrite <- Hnone, <- generateEffectCSS_empty.
    destruct (generateEffectCSS (Some (e :: effects))) as [|a css] eqn:Ecss;
      cbn [String.eqb orb].
    + split; [done| ]. done.
    + assert (Hcss : exists rest, String a css = ("box-shadow: " ++ rest)%string).
      { unfold generateEffectCSS in Ecss.
        destruct (omap shadow_css (e :: effects)); [done| ]. eauto. }
      destruct Hcss as [rest Hcss].
      destruct (String.eqb (trim _) "") eqn:Et.
      { apply String.eqb_eq in Et. rewrite Hcss in Et. by apply trim_box_shadow in Et. }
      split; [split; discriminate| ].
      intros result [= <-]. cbn. split; [done| ].
      by rewrite <- Ecss, generateEffectCSS_shadows.
  - split; [ |done]. split; [ |done]. intros _ e He. by apply not_elem_of_nil in He.
Qed.

End EffectProofs.
(** ** Variables *)

Section ObjectLemmas.
Context {V : Type}.


End ObjectLemmas.

Section VariableProofs.
Context {engine : JsEngine} (figma : Figma.t).

(** The switch sets [hasValidValue] exactly when it leaves a [cleanValue]
    other than [null]. *)
Lemma clean_value_valid resolvedType actualValue :
  (clean_value resolvedType actualValue).2 =
  negb (is_null_value (clean_value resolvedType actualValue).1).
Proof.
  unfold clean_value.
  destruct (String.eqb resolvedType "COLOR").
  { destruct (as_color_object actualValue); [ |done].
    destruct (Num_lt _ _); [done| ]. by destruct (rgbToHex _). }
  destruct (String.eqb resolvedType "FLOAT").
  { destruct actualValue; try done. by destruct (isNaN _). }
  destruct (String.eqb resolvedType "STRING").
  { destruct actualValue as [| | | |[|]| |]; done. }
  destruct actualValue; done.
Qed.




End VariableProofs.
(** ** The export orchestrator *)

Lemma collect_length {A B} (process : A -> Promise (option B)) (items : list A) :
  length (collect process items) <= length items.
Proof.
  unfold collect. induction items as [|item items IH]; cbn [omap list_omap length]; [done| ].
  destruct (process item) as [[data| ]| ]; cbn [length]; lia.
Qed.

(** *** Counting the exported variables *)

Lemma exported_variables_insert (m : gmap string CollectionData.t) name c :
  m !! name = None ->
  exported_variables (<[name := c]> m) = totalVariables c + exported_variables m.
Proof.
  intros Hnone. unfold exported_variables.
  rewrite map_fold_insert_L; [done| |done]. intros. lia.
Qed.

Lemma exported_variables_delete (m : gmap string CollectionData.t) name c :
  m !! name = Some c ->
  exported_variables m = totalVariables c + exported_variables (delete name m).
Proof.
  intros Hc. rewrite <- (insert_delete_id m name c) at 1 by done.
  apply exported_variables_insert, lookup_delete_eq.
Qed.

Lemma exported_variables_delete_le (m : gmap string CollectionData.t) name :
  exported_variables (delete name m) <= exported_variables m.
Proof.
  destruct (m !! name) as [c| ] eqn:Hc.
  - rewrite (exported_variables_delete m name c Hc). lia.
  - by rewrite delete_id.
Qed.

Lemma push_variable_total varData c :
  totalVariables (push_variable varData c) <= S (totalVariables c).
Proof.
  unfold push_variable, totalVariables.
  repeat destruct (String.eqb _ _); cbn; rewrite ?length_app; cbn; lia.
Qed.

Lemma exported_variables_push (m : gmap string CollectionData.t) name varData :
  exported_variables (alter (push_variable varData) name m) <= S (exported_variables m).
Proof.
  destruct (m !! name) as [c| ] eqn:Hc.
  - rewrite (exported_variables_delete m name c Hc).
    rewrite (exported_variables_delete (alter (push_variable varData) name m) name
               (push_variable varData c)).
    + rewrite delete_alter_eq. pose proof (push_variable_total varData c). lia.
    + by rewrite lookup_alter_eq, Hc.
  - rewrite alter_id'; [lia| ]. by rewrite Hc.
Qed.

Lemma remove_empty_collections_le (m : gmap string CollectionData.t) :
  exported_variables (remove_empty_collections m) <= exported_variables m.
Proof.
  unfold remove_empty_collections. generalize (collectionsToRemove m). intros names.
  revert m. induction names as [|name names IH]; intros m; cbn [foldl]; [done| ].
  etrans; [apply IH|apply exported_variables_delete_le].
Qed.

Section Counting.
Context {engine : JsEngine} (figma : Figma.t) (collectionMap : CollectionMap).

Lemma step_count st variable :
  exported_variables
    (ExportState.collections (variable_step figma collectionMap st variable)) <=
  S (exported_variables (ExportState.collections st)).
Proof.
  unfold variable_step.
  destruct (bool_decide _); [cbn; lia| ].
  destruct (processVariable _ _ _) as [[varData| ]| ]; [ |cbn; lia..].
  cbn [ExportState.collections ExportState.processedCount].
  set (name := collectionName_of _).
  assert (exported_variables
            (alter (push_variable varData) name
               match ExportState.collections st !! name with
               | Some _ => ExportState.collections st
               | None => <[name := new_collection variable
                   (collectionMap !! FigmaVariable.variableCollectionId variable)]>
                   (ExportState.collections st)
               end) <= S (exported_variables (ExportState.collections st))) as Hle.
  { etrans; [apply exported_variables_push| ].
    destruct (ExportState.collections st !! name) eqn:Hc; [done| ].
    rewrite exported_variables_insert by done. cbn. lia. }
  exact Hle.
Qed.

Lemma loop_count variables : forall st,
  exported_variables
    (ExportState.collections (foldl (variable_step figma collectionMap) st variables)) <=
  exported_variables (ExportState.collections st) + length variables.
Proof.
  induction variables as [|v variables IH]; intros st; cbn [foldl length]; [lia| ].
  etrans; [apply IH| ].
  pose proof (step_count st v). lia.
Qed.

End Counting.

Lemma initial_collections_count collections :
  exported_variables (initial_collections collections) = 0.
Proof.
  unfold initial_collections.
  assert (Hgen : forall (l : list VariableCollection.t) (m : gmap string CollectionData.t),
            exported_variables m = 0 ->
            exported_variables
              (foldl (fun m c =>
                 if String.eqb (VariableCollection.name c) "" then m
                 else <[VariableCollection.name c :=
                          {| CollectionData.id := VariableCollection.id c;
                             CollectionData.modes := map mode_data (VariableCollection.modes c);
                             CollectionData.variables := empty_buckets |}]> m) m l) = 0).
  { induction l as [|c l IH]; intros m Hm; cbn [foldl]; [done| ].
    apply IH. destruct (String.eqb _ ""); [done| ].
    rewrite <- insert_delete_eq, exported_variables_insert by apply lookup_delete_eq.
    pose proof (exported_variables_delete_le m (VariableCollection.name c)). cbn. lia. }
  by apply Hgen.
Qed.

Section ExportProofs.
Context {engine : JsEngine}.

Lemma fetch_all_rejects figma :
  fetch_rejects figma -> exists e, fetch_all figma = Rejected e.
Proof.
  unfold fetch_rejects, fetch_all.
  destruct (Figma.getLocalPaintStylesAsync figma); [ |by eauto].
  destruct (Figma.getLocalTextStylesAsync figma); [ |by eauto].
  destruct (Figma.getLocalEffectStylesAsync figma); [ |by eauto].
  destruct (Figma.getLocalGridStylesAsync figma); [ |by eauto].
  destruct (Figma.getLocalVariablesAsync figma); [ |by eauto].
  destruct (Figma.getLocalVariableCollectionsAsync figma); [ |by eauto].
  intros [[? ?]|[[? ?]|[[? ?]|[[? ?]|[[? ?]|[? ?]]]]]]; done.
Qed.

(** C1. When one of the six queries of the fetch stage rejects, the export
    rejects with the one fatal message, and the handler posts the start
    message and exactly one error message, no document.  When all six are
    fulfilled the export yields a document, which the handler posts; each
    style list of the document is no longer than the list it was read from,
    and the document has no more variable records than there are
    variables. *)
Theorem export_fails_once_or_yields_document (figma : Figma.t) :
  (fetch_rejects figma ->
   exportStylesAndVariables figma = Rejected fatal_message /\
   onmessage figma "export-data" = [ExportStart; ExportError fatal_message]) /\
  (forall paintStyles textStyles effectStyles gridStyles variables collections,
     Figma.getLocalPaintStylesAsync figma = Fulfilled paintStyles ->
     Figma.getLocalTextStylesAsync figma = Fulfilled textStyles ->
     Figma.getLocalEffectStylesAsync figma = Fulfilled effectStyles ->
     Figma.getLocalGridStylesAsync figma = Fulfilled gridStyles ->
     Figma.getLocalVariablesAsync figma = Fulfilled variables ->
     Figma.getLocalVariableCollectionsAsync figma = Fulfilled collections ->
     exists data,
       exportStylesAndVariables figma = Fulfilled data /\
       onmessage figma "export-data" = [ExportStart; ExportComplete data] /\
       length (Styles.colors (ExportDocument.styles data)) <= length paintStyles /\
       length (Styles.textStyles (ExportDocument.styles data)) <= length textStyles /\
       length (Styles.effectStyles (ExportDocument.styles data)) <= length effectStyles /\
       length (Styles.gridStyles (ExportDocument.styles data)) <= length gridStyles /\
       exported_variables (ExportDocument.collections data) <= length variables).
Proof.
  split.
  - intros Hrej. apply fetch_all_rejects in Hrej as [e He].
    assert (Hexp : exportStylesAndVariables figma = Rejected fatal_message).
    { unfold exportStylesAndVariables. by rewrite He. }
    split; [done| ]. unfold onmessage. by rewrite Hexp.
  - intros paintStyles textStyles effectStyles gridStyles variables collections
      Hp Ht He Hg Hv Hc.
    assert (Hfetch : fetch_all figma =
      Fulfilled (paintStyles, textStyles, effectStyles, gridStyles, variables, collections)).
    { unfold fetch_all. by rewrite Hp, Ht, He, Hg, Hv, Hc. }
    eexists. split.
    { unfold exportStylesAndVariables. rewrite Hfetch. reflexivity. }
    split.
    { unfold onmessage, exportStylesAndVariables. rewrite Hfetch. reflexivity. }
    cbn [ExportDocument.styles ExportDocument.collections Styles.colors Styles.textStyles
         Styles.effectStyles Styles.gridStyles].
    repeat split; try apply collect_length.
    etrans; [apply remove_empty_collections_le| ].
    etrans; [apply loop_count| ].
    cbn [ExportState.collections]. by rewrite initial_collections_count.
Qed.

(** *** Pruning *)

Lemma delete_all_lookup {V} (names : list string) : forall (m : gmap string V) (k : string),
  foldl (fun m name => delete name m) m names !! k =
  if decide (k ∈ names) then None else m !! k.
Proof.
  induction names as [|name names IH]; intros m k; cbn [foldl].
  - rewrite decide_False; [done|apply not_elem_of_nil].
  - rewrite IH. destruct (decide (k ∈ names)) as [Hin|Hnin].
    + rewrite decide_True; [done|by right].
    + destruct (decide (k = name)) as [->|Hne].
      * rewrite decide_True by left. apply lookup_delete_eq.
      * rewrite decide_False by (intros [?|?]%elem_of_cons; done).
        by apply lookup_delete_ne.
Qed.

Lemma elem_of_collectionsToRemove (m : gmap string CollectionData.t) name :
  name ∈ collectionsToRemove m <->
  exists c, m !! name = Some c /\ totalVariables c = 0.
Proof.
  unfold collectionsToRemove. rewrite list_elem_of_omap. split.
  - intros ([k c] & Hin & Hsome). apply elem_of_map_to_list in Hin.
    cbn [fst snd] in Hsome. destruct (Nat.eqb_spec (totalVariables c) 0); [ |done].
    injection Hsome as <-. eauto.
  - intros (c & Hc & Hz). exists (name, c). split; [by apply elem_of_map_to_list| ].
    cbn [fst snd]. by rewrite Hz.
Qed.

Lemma remove_empty_collections_lookup (m : gmap string CollectionData.t) name c :
  remove_empty_collections m !! name = Some c <->
  m !! name = Some c /\ 0 < totalVariables c.
Proof.
  unfold remove_empty_collections. rewrite delete_all_lookup.
  destruct (decide (name ∈ collectionsToRemove m)) as [Hin|Hnin].
  - apply elem_of_collectionsToRemove in Hin as (c' & Hc' & Hz).
    split; [done| ]. intros [Hc Hpos]. rewrite Hc in Hc'. injection Hc' as <-. lia.
  - split; [ |by intros []]. intros Hc. split; [done| ].
    destruct (totalVariables c) eqn:Hz; [ |lia].
    destruct Hnin. apply elem_of_collectionsToRemove. eauto.
Qed.

(** C8. Every collection of an exported document has at least one variable
    over its four buckets: the collections of the document are those of the
    state after the loop over the variables that are not empty. *)
Theorem exported_collections_are_not_empty (figma : Figma.t) (data : ExportDocument.t) :
  exportStylesAndVariables figma = Fulfilled data ->
  (forall name c, ExportDocument.collections data !! name = Some c -> 0 < totalVariables c) /\
  exists variables collections,
    Figma.getLocalVariablesAsync figma = Fulfilled variables /\
    Figma.getLocalVariableCollectionsAsync figma = Fulfilled collections /\
    forall name c,
      ExportDocument.collections data !! name = Some c <->
      ExportState.collections
        (process_variables figma (build_collectionMap collections) collections variables)
        !! name = Some c /\ 0 < totalVariables c.
Proof.
  unfold exportStylesAndVariables, fetch_all.
  destruct (Figma.getLocalPaintStylesAsync figma); [ |done].
  destruct (Figma.getLocalTextStylesAsync figma); [ |done].
  destruct (Figma.getLocalEffectStylesAsync figma); [ |done].
  destruct (Figma.getLocalGridStylesAsync figma); [ |done].
  destruct (Figma.getLocalVariablesAsync figma) as [variables| ]; [ |done].
  destruct (Figma.getLocalVariableCollectionsAsync figma) as [collections| ]; [ |done].
  cbn. intros [= <-]. cbn [ExportDocument.collections]. split.
  - intros name c Hc. by apply remove_empty_collections_lookup in Hc as [_ ?].
  - exists variables, collections. split; [done| ]. split; [done| ].
    intros name c. apply remove_empty_collections_lookup.
Qed.

End ExportProofs.

(** The theorem at a document with one collection and one variable in it. *)
Lemma exported_collections_of_example :
  exists data,
    exportStylesAndVariables (engine := ExampleEngine.engine)
      (Examples.document [Examples.brand] [Examples.primary_red]) = Fulfilled data /\
    ExportDocument.collections data !! "Brand" =
      Some {| CollectionData.id := "c1";
              CollectionData.modes := [ {| ModeData.id := Some "m1"; ModeData.name := "Light" |} ];
              CollectionData.variables :=
                {| Buckets.colors :=
                     [ {| VarData.name := "primary"; VarData.token := "primary";
                          VarData.type := "color"; VarData.value := VString "#ff0000";
                          VarData.values := Some [("Light", VString "#ff0000")];
                          VarData.description := None |} ];
                   Buckets.numbers := []; Buckets.strings := [];
                   Buckets.booleans := [] |} |} /\
    forall name c, ExportDocument.collections data !! name = Some c -> 0 < totalVariables c.
Proof.
  eexists. split; [reflexivity| ]. split; [reflexivity| ].
  exact (proj1 (exported_collections_are_not_empty (engine := ExampleEngine.engine)
                  (Examples.document [Examples.brand] [Examples.primary_red]) _ eq_refl)).
Defined.

(** *** Duplicate suppression *)

Section DuplicateProofs.
Context {engine : JsEngine} (figma : Figma.t) (collectionMap : CollectionMap).

Local Abbreviation step := (variable_step figma collectionMap).
Local Abbreviation key := (variableKey_of collectionMap).
Local Abbreviation processed := (ExportState.processedVariableNames).

Lemma step_duplicate st variable :
  key variable ∈ processed st -> step st variable = skip_variable st.
Proof. intros Hin. unfold variable_step. by rewrite bool_decide_eq_true_2. Qed.

Lemma step_processed st variable k :
  k ∈ processed (step st variable) <->
  k ∈ processed st \/
  (k = key variable /\ (key variable ∉ processed st) /\
   exists result, processVariable figma variable collectionMap = Fulfilled (Some result)).
Proof.
  unfold variable_step. destruct (bool_decide_reflect (key variable ∈ processed st)) as [Hin|Hnin].
  - cbn. split; [by left| ]. by intros [?|(_ & ? & _)].
  - destruct (processVariable figma variable collectionMap) as [[result| ]| ] eqn:E; cbn.
    + rewrite elem_of_union, elem_of_singleton. split.
      * intros [->|?]; [right|by left]. eauto.
      * intros [?|(-> & _)]; [by right|by left].
    + split; [by left| ]. by intros [?|(_ & _ & ? & ?)].
    + split; [by left| ]. by intros [?|(_ & _ & ? & ?)].
Qed.

Lemma loop_processed_mono variables : forall st k,
  k ∈ processed st -> k ∈ processed (foldl step st variables).
Proof.
  induction variables as [|v variables IH]; intros st k Hk; cbn [foldl]; [done| ].
  apply IH, step_processed. by left.
Qed.

Lemma loop_processed_origin variables : forall st k,
  k ∈ processed (foldl step st variables) ->
  k ∈ processed st \/
  exists v result, v ∈ variables /\ key v = k /\
    processVariable figma v collectionMap = Fulfilled (Some result).
Proof.
  induction variables as [|v variables IH]; intros st k Hk; cbn [foldl] in Hk; [by left| ].
  apply IH in Hk as [Hk|(v' & r & Hv' & ? & ?)].
  - apply step_processed in Hk as [?|(-> & _ & r & Hr)]; [by left| ].
    right. exists v, r. split; [left|done].
  - right. exists v', r. split; [by right|done].
Qed.

(** C2, amended. Once a variable has produced a record, every later variable
    with the same [collectionName:name] key is dropped: its iteration only
    counts it as skipped and leaves the collections as they are. *)
Theorem later_duplicate_is_dropped
    (st0 : ExportState.t) (before between : list FigmaVariable.t)
    (first later : FigmaVariable.t) (result : VarData.t) :
  variableKey_of collectionMap first = variableKey_of collectionMap later ->
  processVariable figma first collectionMap = Fulfilled (Some result) ->
  let st := foldl (variable_step figma collectionMap) st0 (before ++ first :: between) in
  variable_step figma collectionMap st later = skip_variable st /\
  ExportState.collections (variable_step figma collectionMap st later) =
    ExportState.collections st.
Proof.
  intros Hkey Hresult st.
  assert (Hin : key later ∈ processed st).
  { subst st. rewrite foldl_app. cbn [foldl]. apply loop_processed_mono.
    rewrite <- Hkey.
    destruct (decide (key first ∈ processed (foldl step st0 before))) as [Hin|Hnin].
    - apply step_processed. by left.
    - apply step_processed. right. eauto. }
  rewrite (step_duplicate _ _ Hin). done.
Qed.

End DuplicateProofs.

(** Counterexample to C2 as stated: two variables named "primary" in the
    collection "Brand"; the first yields no record (its alias does not
    resolve), and the second one is exported. *)
Lemma second_occurrence_exported_after_failed_first :
  variableKey_of (build_collectionMap [Examples.brand]) Examples.primary_unresolved =
    variableKey_of (build_collectionMap [Examples.brand]) Examples.primary_red /\
  processVariable (engine := ExampleEngine.engine) Examples.colliding_document
    Examples.primary_unresolved (build_collectionMap [Examples.brand]) = Fulfilled None /\
  exists data,
    exportStylesAndVariables (engine := ExampleEngine.engine) Examples.colliding_document =
      Fulfilled data /\
    (CollectionData.variables <$> ExportDocument.collections data !! "Brand") =
      Some {| Buckets.colors :=
                [ {| VarData.name := "primary"; VarData.token := "primary";
                     VarData.type := "color"; VarData.value := VString "#ff0000";
                     VarData.values := Some [("Light", VString "#ff0000")];
                     VarData.description := None |} ];
              Buckets.numbers := []; Buckets.strings := []; Buckets.booleans := [] |}.
Proof.
  split; [reflexivity| ]. split; [reflexivity| ].
  eexists. split; reflexivity.
Qed.

(** The theorem at two variables named "primary" of "Brand", a red one
    followed by a blue one. *)
Lemma later_duplicate_is_dropped_example :
  let figma := Examples.document [Examples.brand] [Examples.primary_red; Examples.primary_blue] in
  let collectionMap := build_collectionMap [Examples.brand] in
  let st :=
    foldl (variable_step (engine := ExampleEngine.engine) figma collectionMap)
          {| ExportState.collections := initial_collections [Examples.brand];
             ExportState.processedVariableNames := ∅;
             ExportState.processedCount := 0; ExportState.skippedCount := 0 |}
          ([] ++ Examples.primary_red :: []) in
  variable_step (engine := ExampleEngine.engine) figma collectionMap st Examples.primary_blue =
    skip_variable st /\
  ExportState.collections
    (variable_step (engine := ExampleEngine.engine) figma collectionMap st Examples.primary_blue) =
    ExportState.collections st.
Proof.
  exact (later_duplicate_is_dropped (engine := ExampleEngine.engine)
           (Examples.document [Examples.brand] [Examples.primary_red; Examples.primary_blue])
           (build_collectionMap [Examples.brand])
           {| ExportState.collections := initial_collections [Examples.brand];
              ExportState.processedVariableNames := ∅;
              ExportState.processedCount := 0; ExportState.skippedCount := 0 |}
           [] [] Examples.primary_red Examples.primary_blue _ eq_refl eq_refl).
Defined.

(** *** Variables of no fetched collection *)

Lemma all_variables_total c x : x ∈ all_variables c -> 0 < totalVariables c.
Proof.
  unfold all_variables, totalVariables. intros Hx.
  apply list_elem_of_In, in_split in Hx as (l1 & l2 & Hx).
  apply (f_equal (@length _)) in Hx. rewrite !length_app in Hx. cbn in Hx. lia.
Qed.

Lemma push_variable_modes varData c :
  CollectionData.modes (push_variable varData c) = CollectionData.modes c.
Proof. unfold push_variable. by repeat destruct (String.eqb _ _). Qed.

Lemma push_variable_keeps varData c x :
  x ∈ all_variables c -> x ∈ all_variables (push_variable varData c).
Proof.
  unfold push_variable, all_variables.
  repeat destruct (String.eqb _ _); cbn; rewrite ?elem_of_app; tauto.
Qed.

Lemma push_variable_adds varData c :
  VarData.type varData ∈ bucket_types -> varData ∈ all_variables (push_variable varData c).
Proof.
  unfold push_variable, all_variables, bucket_types. intros Htype.
  repeat (apply elem_of_cons in Htype as [->|Htype]);
    [ | | | | by apply not_elem_of_nil in Htype ];
    cbn; rewrite ?elem_of_app, ?list_elem_of_singleton; tauto.
Qed.

Section ObjectKeys.
Context {V : Type}.

Lemma obj_set_elem k (v : V) o kv : kv ∈ obj_set k v o -> kv.1 = k \/ kv ∈ o.
Proof.
  unfold obj_set. destruct (has_key k o).
  - induction o as [|kv' o IH]; cbn [obj_update]; [by right| ].
    destruct (String.eqb k kv'.1).
    + intros [->|?]%elem_of_cons; [by left|right; by right].
    + intros [->|?]%elem_of_cons; [right; by left| ].
      destruct IH as [?|?]; [done|by left|right; by right].
  - induction o as [|kv' o IH]; cbn [obj_insert].
    + intros ->%list_elem_of_singleton. by left.
    + destruct (key_before k kv'.1).
      * intros [->|?]%elem_of_cons; [by left|by right].
      * intros [->|?]%elem_of_cons; [right; by left| ].
        destruct IH as [?|?]; [done|by left|right; by right].
Qed.

End ObjectKeys.

Section OrphanProofs.
Context {engine : JsEngine} (figma : Figma.t).

(** Without a collection every mode name is synthesized. *)
Lemma orphan_mode_names variable (named : string -> Prop) entries : forall acc,
  (forall entry, entry ∈ entries -> named ("Mode " +:+ entry.1)) ->
  (forall kv, kv ∈ acc.1 -> named kv.1) ->
  forall kv, kv ∈ (foldl (mode_step figma variable None) acc entries).1 -> named kv.1.
Proof.
  induction entries as [|entry entries IH]; intros acc Hentries Hacc; cbn [foldl]; [done| ].
  apply IH; [intros e He; apply Hentries; by right| ].
  intros kv. destruct acc as [convertedValues hasValidValue], entry as [modeId rawValue].
  unfold mode_step. destruct (resolve_alias figma modeId rawValue); [ |by apply Hacc].
  destruct (clean_value _ _) as [cleanValue valid].
  destruct (is_null_value cleanValue); cbn [fst]; [by apply Hacc| ].
  intros [->|?]%obj_set_elem; [ |by apply Hacc].
  apply (Hentries (modeId, rawValue)). left.
Qed.

Lemma orphan_record_mode_names variable collectionMap result values :
  collectionMap !! FigmaVariable.variableCollectionId variable = None ->
  processVariable figma variable collectionMap = Fulfilled (Some result) ->
  VarData.values result = Some values ->
  forall kv, kv ∈ values ->
    exists entry, entry ∈ FigmaVariable.valuesByMode variable /\ kv.1 = "Mode " +:+ entry.1.
Proof.
  intros Hnone. unfold processVariable. rewrite Hnone.
  pose proof (orphan_mode_names variable
    (fun name => exists entry, entry ∈ FigmaVariable.valuesByMode variable /\
                   name = "Mode " +:+ entry.1)
    (FigmaVariable.valuesByMode variable) ([], false)) as Hnames.
  destruct (foldl _ _ _) as [convertedValues hasValidValue]. cbn [fst] in Hnames.
  destruct (negb hasValidValue || _); [done| ].
  intros [= <-]. cbn [VarData.values].
  destruct (_ || _); [ |done]. intros [= <-] kv Hkv.
  apply Hnames; [by eauto| |done].
  intros ? []%elem_of_nil.
Qed.

(** A record filed in a collection stays there through the later
    iterations. *)
Lemma step_keeps_record collectionMap st variable name x :
  (exists c, ExportState.collections st !! name = Some c /\ x ∈ all_variables c) ->
  exists c, ExportState.collections (variable_step figma collectionMap st variable) !! name
              = Some c /\ x ∈ all_variables c.
Proof.
  intros (c & Hc & Hx). unfold variable_step.
  destruct (bool_decide _); [by eauto| ].
  destruct (processVariable figma variable collectionMap) as [[varData| ]| ]; [ |by eauto..].
  cbn [ExportState.collections].
  set (target := collectionName_of _).
  destruct (decide (target = name)) as [->|Hne].
  - rewrite Hc, lookup_alter_eq, Hc. cbn. eauto using push_variable_keeps.
  - rewrite lookup_alter_ne by done.
    destruct (ExportState.collections st !! target); [by eauto| ].
    rewrite lookup_insert_ne by done. eauto.
Qed.

Lemma loop_keeps_record collectionMap variables name x : forall st,
  (exists c, ExportState.collections st !! name = Some c /\ x ∈ all_variables c) ->
  exists c, ExportState.collections (foldl (variable_step figma collectionMap) st variables)
              !! name = Some c /\ x ∈ all_variables c.
Proof.
  induction variables as [|v variables IH]; intros st Hst; cbn [foldl]; [done| ].
  by apply IH, step_keeps_record.
Qed.

(** The iteration that files a record. *)
Lemma step_files_record collectionMap st variable result :
  variableKey_of collectionMap variable ∉ ExportState.processedVariableNames st ->
  processVariable figma variable collectionMap = Fulfilled (Some result) ->
  VarData.type result ∈ bucket_types ->
  exists c,
    ExportState.collections (variable_step figma collectionMap st variable)
      !! collectionName_of (collectionMap !! FigmaVariable.variableCollectionId variable)
      = Some c /\
    result ∈ all_variables c.
Proof.
  intros Hnew Hresult Htype. unfold variable_step.
  rewrite bool_decide_eq_false_2 by done. rewrite Hresult.
  cbn [ExportState.collections]. rewrite lookup_alter_eq.
  destruct (ExportState.collections st !! _) as [c| ] eqn:Hc.
  - rewrite Hc. cbn. eauto using push_variable_adds.
  - rewrite lookup_insert_eq. cbn. eauto using push_variable_adds.
Qed.

(** *** The mode list of ["Other"] *)

Section Named.
Variable collections : list VariableCollection.t.
Hypothesis named : forall col, col ∈ collections ->
  VariableCollection.name col <> "Other" /\ VariableCollection.name col <> "".

Lemma build_collectionMap_elem id col :
  build_collectionMap collections !! id = Some col -> col ∈ collections.
Proof.
  unfold build_collectionMap.
  assert (Hgen : forall (l : list VariableCollection.t) (m : CollectionMap),
            foldl (fun m c => <[VariableCollection.id c := c]> m) m l !! id = Some col ->
            m !! id = Some col \/ col ∈ l).
  { induction l as [|c l IH]; intros m; cbn [foldl]; [by left| ].
    intros [Hm|?]%IH; [ |right; by right].
    destruct (decide (VariableCollection.id c = id)) as [<-|Hne].
    - rewrite lookup_insert_eq in Hm. injection Hm as ->. right. left.
    - rewrite lookup_insert_ne in Hm by done. by left. }
  intros [Hm|?]%Hgen; [ |done]. by rewrite lookup_empty in Hm.
Qed.

Lemma initial_collections_Other : initial_collections collections !! "Other" = None.
Proof.
  unfold initial_collections.
  assert (Hgen : forall (l : list VariableCollection.t) (m : gmap string CollectionData.t),
            (forall col, col ∈ l -> VariableCollection.name col <> "Other") ->
            m !! "Other" = None ->
            foldl (fun m c =>
                     if String.eqb (VariableCollection.name c) "" then m
                     else <[VariableCollection.name c :=
                              {| CollectionData.id := VariableCollection.id c;
                                 CollectionData.modes :=
                                   map mode_data (VariableCollection.modes c);
                                 CollectionData.variables := empty_buckets |}]> m)
                  m l !! "Other" = None).
  { induction l as [|c l IH]; intros m Hl Hm; cbn [foldl]; [done| ].
    apply IH; [intros col ?; apply Hl; by right| ].
    destruct (String.eqb _ ""); [done| ].
    rewrite lookup_insert_ne; [done| ]. apply Hl. left. }
  apply Hgen; [ |apply lookup_empty]. intros col Hcol. by apply named.
Qed.

Lemma collectionName_of_Other id :
  collectionName_of (build_collectionMap collections !! id) = "Other" ->
  build_collectionMap collections !! id = None.
Proof.
  destruct (build_collectionMap collections !! id) as [col| ] eqn:Hcol; [ |done].
  apply build_collectionMap_elem, named in Hcol as [Hother Hempty].
  cbn. destruct (String.eqb_spec (VariableCollection.name col) ""); done.
Qed.

Lemma step_Other_modes st variable :
  (forall c, ExportState.collections st !! "Other" = Some c -> CollectionData.modes c = []) ->
  forall c,
    ExportState.collections
      (variable_step figma (build_collectionMap collections) st variable) !! "Other" = Some c ->
    CollectionData.modes c = [].
Proof.
  intros Hst c. unfold variable_step.
  destruct (bool_decide _); [by apply Hst| ].
  destruct (processVariable _ _ _) as [[varData| ]| ]; [ |by apply Hst..].
  cbn [ExportState.collections].
  destruct (decide (collectionName_of
    (build_collectionMap collections !! FigmaVariable.variableCollectionId variable) = "Other"))
    as [Hother|Hne].
  - rewrite Hother, lookup_alter_eq.
    rewrite (collectionName_of_Other _ Hother).
    destruct (ExportState.collections st !! "Other") as [c0| ] eqn:Hc0.
    + rewrite Hc0. cbn. intros [= <-]. rewrite push_variable_modes. by apply Hst.
    + rewrite lookup_insert_eq. cbn. intros [= <-]. by rewrite push_variable_modes.
  - rewrite lookup_alter_ne by done.
    destruct (ExportState.collections st !! collectionName_of _); [by apply Hst| ].
    rewrite lookup_insert_ne by done. by apply Hst.
Qed.

Lemma loop_Other_modes variables : forall st,
  (forall c, ExportState.collections st !! "Other" = Some c -> CollectionData.modes c = []) ->
  forall c,
    ExportState.collections
      (foldl (variable_step figma (build_collectionMap collections)) st variables)
      !! "Other" = Some c ->
    CollectionData.modes c = [].
Proof.
  induction variables as [|v variables IH]; intros st Hst; cbn [foldl]; [done| ].
  by apply IH, step_Other_modes.
Qed.

End Named.

Lemma export_collections (data : ExportDocument.t) variables collections :
  exportStylesAndVariables figma = Fulfilled data ->
  Figma.getLocalVariablesAsync figma = Fulfilled variables ->
  Figma.getLocalVariableCollectionsAsync figma = Fulfilled collections ->
  ExportDocument.collections data =
  remove_empty_collections
    (ExportState.collections
       (process_variables figma (build_collectionMap collections) collections variables)).
Proof.
  unfold exportStylesAndVariables, fetch_all. intros Hdata Hv Hc. rewrite Hv, Hc in Hdata.
  destruct (Figma.getLocalPaintStylesAsync figma); [ |done].
  destruct (Figma.getLocalTextStylesAsync figma); [ |done].
  destruct (Figma.getLocalEffectStylesAsync figma); [ |done].
  destruct (Figma.getLocalGridStylesAsync figma); [ |done].
  cbn in Hdata. by injection Hdata as <-.
Qed.

(** C10, amended. A variable whose collection id matches no fetched
    collection, whose processing yields a record of one of the four types,
    and before which no variable with the same key has produced a record, is
    exported under the collection named "Other"; its mode names are all of
    the form "Mode {modeId}"; and the mode list of "Other" is empty when no
    fetched collection is named "Other" or has an empty name. *)
Theorem orphan_variable_is_grouped_under_Other
    (data : ExportDocument.t) (collections : list VariableCollection.t)
    (before after : list FigmaVariable.t) (variable : FigmaVariable.t) (result : VarData.t) :
  let collectionMap := build_collectionMap collections in
  exportStylesAndVariables figma = Fulfilled data ->
  Figma.getLocalVariablesAsync figma = Fulfilled (before ++ variable :: after) ->
  Figma.getLocalVariableCollectionsAsync figma = Fulfilled collections ->
  collectionMap !! FigmaVariable.variableCollectionId variable = None ->
  processVariable figma variable collectionMap = Fulfilled (Some result) ->
  VarData.type result ∈ bucket_types ->
  (forall earlier, earlier ∈ before ->
     variableKey_of collectionMap earlier = variableKey_of collectionMap variable ->
     processVariable figma earlier collectionMap = Fulfilled None) ->
  (exists c,
     ExportDocument.collections data !! "Other" = Some c /\
     result ∈ all_variables c /\
     ((forall col, col ∈ collections ->
         VariableCollection.name col <> "Other" /\ VariableCollection.name col <> "") ->
      CollectionData.modes c = [])) /\
  (forall values, VarData.values result = Some values ->
     forall kv, kv ∈ values ->
       exists entry, entry ∈ FigmaVariable.valuesByMode variable /\
                     kv.1 = "Mode " +:+ entry.1).
Proof.
  intros collectionMap Hdata Hvars Hcolls Horphan Hresult Htype Hearlier.
  subst collectionMap. set (collectionMap := build_collectionMap collections) in *.
  split; [ |intros values Hvalues; by eapply orphan_record_mode_names].
  rewrite (export_collections data _ _ Hdata Hvars Hcolls).
  unfold process_variables. rewrite foldl_app. cbn [foldl].
  set (st0 := {| ExportState.collections := initial_collections collections;
                 ExportState.processedVariableNames := ∅;
                 ExportState.processedCount := 0; ExportState.skippedCount := 0 |}).
  set (st := foldl (variable_step figma collectionMap) st0 before).
  assert (Hnew : variableKey_of collectionMap variable ∉ ExportState.processedVariableNames st).
  { intros Hin. apply loop_processed_origin in Hin as [Hin|(v & r & Hv & Hkey & Hr)].
    - by apply not_elem_of_empty in Hin.
    - rewrite (Hearlier v Hv Hkey) in Hr. done. }
  destruct (step_files_record collectionMap st variable result Hnew Hresult Htype)
    as (c1 & Hc1 & Hin1).
  rewrite Horphan in Hc1. cbn [collectionName_of] in Hc1.
  destruct (loop_keeps_record collectionMap after "Other" result
              (variable_step figma collectionMap st variable)) as (c & Hc & Hin); [by eauto| ].
  exists c. split; [ |split; [done| ] ].
  - apply remove_empty_collections_lookup. split; [done| ]. by eapply all_variables_total.
  - intros Hnamed.
    eapply (loop_Other_modes collections Hnamed after); [ |exact Hc].
    apply step_Other_modes; [done| ].
    apply loop_Other_modes; [done| ].
    intros c0. cbn [st0 ExportState.collections].
    by rewrite (initial_collections_Other collections Hnamed).
Qed.

End OrphanProofs.

(** Counterexample to C10 as stated: a fetched collection is itself named
    "Other", and two variables named "gap" have collection ids that match no
    fetched collection.  Both yield a record, the second is not exported,
    and the mode list of "Other" is not empty. *)
Lemma second_orphan_dropped_and_Other_has_modes :
  build_collectionMap [Examples.misc] !! "gone-2" = None /\
  processVariable (engine := ExampleEngine.engine) Examples.orphans_document
    (Examples.gap "gone-2" 8) (build_collectionMap [Examples.misc]) =
    Fulfilled (Some (Examples.gap_record 8)) /\
  exists data,
    exportStylesAndVariables (engine := ExampleEngine.engine) Examples.orphans_document =
      Fulfilled data /\
    ExportDocument.collections data !! "Other" =
      Some {| CollectionData.id := "c2";
              CollectionData.modes := [ {| ModeData.id := Some "m1"; ModeData.name := "Light" |} ];
              CollectionData.variables :=
                {| Buckets.colors := []; Buckets.numbers := [Examples.gap_record 4];
                   Buckets.strings := []; Buckets.booleans := [] |} |}.
Proof.
  split; [reflexivity| ]. split; [reflexivity| ].
  eexists. split; reflexivity.
Qed.

(** The theorem at a document with the collection "Brand" and one variable
    of a collection that is not fetched. *)
Lemma orphan_variable_example :
  exists data c,
    exportStylesAndVariables (engine := ExampleEngine.engine) Examples.lone_orphan_document =
      Fulfilled data /\
    ExportDocument.collections data !! "Other" = Some c /\
    Examples.gap_record 4 ∈ all_variables c /\
    CollectionData.modes c = [].
Proof.
  destruct (orphan_variable_is_grouped_under_Other (engine := ExampleEngine.engine)
              Examples.lone_orphan_document
              (match exportStylesAndVariables (engine := ExampleEngine.engine)
                       Examples.lone_orphan_document with
               | Fulfilled data => data
               | Rejected _ =>
                   {| ExportDocument.styles :=
                        {| Styles.colors := []; Styles.textStyles := [];
                           Styles.effectStyles := []; Styles.gridStyles := [] |};
                      ExportDocument.collections := ∅;
                      ExportDocument.metadata :=
                        {| Metadata.exportDate := ""; Metadata.figmaFileKey := "";
                           Metadata.fileName := ""; Metadata.pluginVersion := "";
                           Metadata.collectionsFound := 0;
                           Metadata.collectionsExported := 0 |} |}
               end)
              [Examples.brand] [] [] (Examples.gap "gone-1" 4) (Examples.gap_record 4)
              eq_refl eq_refl eq_refl eq_refl eq_refl
              (list_elem_of_further _ _ _ (list_elem_of_here _ _))
              (fun earlier Hin _ => match not_elem_of_nil earlier Hin with end))
    as [(c & Hc & Hin & Hmodes) _].
  eexists _, c. split; [reflexivity| ]. split; [exact Hc| ]. split; [exact Hin| ].
  apply Hmodes. intros col Hcol. apply list_elem_of_singleton in Hcol as ->. by split.
Defined.

(** * Further properties

    Beyond the statements of the specification: what the code shows of the
    functions around them. *)

(** ** Color normalizer *)

Lemma or_zero_not_NaN c : or_zero c <> NaN.
Proof. destruct c as [[| | |q]| ]; cbn; try done. by destruct (negb _). Qed.

Lemma Num_lt_Fin p q : Num_lt (Fin p) (Fin q) = true <-> (p < q)%Q.
Proof.
  cbn. rewrite negb_true_iff. split.
  - intros H. apply Qnot_le_lt. intros Hle. apply Qle_bool_iff in Hle. congruence.
  - intros H. destruct (Qle_bool q p) eqn:E; [ |done].
    apply Qle_bool_iff in E. by apply Qlt_not_le in H.
Qed.

Lemma Num_lt_Fin_false p q : Num_lt (Fin p) (Fin q) = false <-> (q <= p)%Q.
Proof.
  cbn. rewrite negb_false_iff. apply Qle_bool_iff.
Qed.

Lemma clamp01_range x :
  x <> NaN -> exists q, clamp01 x = Fin q /\ (0 <= q)%Q /\ (q <= 1)%Q.
Proof.
  intros Hx. unfold clamp01. destruct x as [| | |q]; [done| | | ].
  - exists 1%Q. cbn. repeat split; done.
  - exists 0%Q. cbn. repeat split; done.
  - unfold Math_min, num. destruct (Num_lt (Fin q) (Fin (inject_Z 1))) eqn:E1.
    + apply Num_lt_Fin in E1. unfold Math_max.
      destruct (Num_lt (Fin (inject_Z 0)) (Fin q)) eqn:E0.
      * apply Num_lt_Fin in E0. exists q. split; [done| ]. split.
        -- by apply Qlt_le_weak.
        -- by apply Qlt_le_weak.
      * exists (inject_Z 0). repeat split; done.
    + exists (inject_Z 1). cbn. repeat split; done.
Qed.

Lemma round_scaled_range q (n : Z) :
  (0 <= n)%Z -> (0 <= q)%Q -> (q <= 1)%Q ->
  exists z, (0 <= z <= n)%Z /\
    Math_round (Num_mul (Fin q) (num n)) = num z.
Proof.
  intros Hn H0 H1. cbn [Num_mul num Math_round].
  exists (Qfloor (Qred (q * inject_Z n) + Qmake 1 2)). split; [ |done].
  assert (Hlo : (0 <= Qred (q * inject_Z n))%Q).
  { rewrite Qred_correct. apply Qmult_le_0_compat; [done| ].
    change 0%Q with (inject_Z 0). by rewrite <- Zle_Qle. }
  assert (Hhi : (Qred (q * inject_Z n) <= inject_Z n)%Q).
  { rewrite Qred_correct. apply Qle_trans with (1 * inject_Z n)%Q.
    - apply Qmult_le_compat_r; [done| ].
      change 0%Q with (inject_Z 0). by rewrite <- Zle_Qle.
    - rewrite Qmult_1_l. apply Qle_refl. }
  split.
  - change 0%Z with (Qfloor (inject_Z 0)). apply Qfloor_resp_le.
    apply Qle_trans with (Qred (q * inject_Z n)); [done| ].
    rewrite <- (Qplus_0_r (Qred (q * inject_Z n))) at 1.
    apply Qplus_le_r. done.
  - assert (Hlt : (Qred (q * inject_Z n) + Qmake 1 2 < inject_Z (n + 1))%Q).
    { rewrite inject_Z_plus. apply Qle_lt_trans with (inject_Z n + Qmake 1 2)%Q.
      - by apply Qplus_le_l.
      - apply Qplus_lt_r. done. }
    pose proof (Qfloor_le (Qred (q * inject_Z n) + Qmake 1 2)) as Hfl.
    assert (inject_Z (Qfloor (Qred (q * inject_Z n) + Qmake 1 2)) < inject_Z (n + 1))%Q
      by (eapply Qle_lt_trans; eauto).
    rewrite <- Zlt_Qlt in H. lia.
Qed.

Lemma channel_byte_range c :
  exists z, (0 <= z <= 255)%Z /\ channel_byte c = num z.
Proof.
  unfold channel_byte.
  destruct (clamp01_range (or_zero c) (or_zero_not_NaN c)) as (q & -> & H0 & H1).
  by apply round_scaled_range.
Qed.

Lemma toHex_byte c z : channel_byte c = num z -> (0 <= z <= 255)%Z -> toHex c = pad_hex z.
Proof.
  intros Hz Hrange. unfold toHex. change (Math_round _) with (channel_byte c).
  rewrite Hz. cbn [isNaN orb]. rewrite !Num_lt_num.
  destruct (Z.ltb_spec z 0); [lia| ]. destruct (Z.ltb_spec 255 z); [lia| ].
  cbn [orb]. unfold pad_hex, Num_toString16, num. by rewrite Qfloor_Z.
Qed.


Lemma pad_hex_hex_pair z : (0 <= z <= 255)%Z -> hex_pair (pad_hex z) = true.
Proof.
  intros Hz.
  assert (Hall : forallb (fun n => hex_pair (pad_hex (Z.of_nat n))) (seq 0 256) = true)
    by (vm_compute; reflexivity).
  rewrite forallb_forall in Hall.
  rewrite <- (Z2Nat.id z) by lia. apply Hall, in_seq. lia.
Qed.

Lemma hex_pair_inv s :
  hex_pair s = true ->
  exists a b, s = String a (String b EmptyString) /\
              is_hex_digit a = true /\ is_hex_digit b = true.
Proof.
  destruct s as [|a [|b [|]]]; try done. cbn. intros [? ?]%andb_true_iff. eauto.
Qed.

Lemma rgbToHex_shape c hex :
  rgbToHex (Some c) = Some hex ->
  exists r g b,
    (0 <= r <= 255)%Z /\ (0 <= g <= 255)%Z /\ (0 <= b <= 255)%Z /\
    channel_byte (chan_r c) = num r /\ channel_byte (chan_g c) = num g /\
    channel_byte (chan_b c) = num b /\
    hex = ("#" ++ pad_hex r ++ pad_hex g ++ pad_hex b)%string.
Proof.
  destruct (channel_byte_range (chan_r c)) as (r & Hr & Er).
  destruct (channel_byte_range (chan_g c)) as (g & Hg & Eg).
  destruct (channel_byte_range (chan_b c)) as (b & Hb & Eb).
  unfold rgbToHex.
  rewrite (toHex_byte _ r Er Hr), (toHex_byte _ g Eg Hg), (toHex_byte _ b Eb Hb).
  destruct (_ && _); [done| ]. intros [= <-].
  exists r, g, b. repeat (split; [done| ]). done.
Qed.

Lemma is_hex_color_pad_hex r g b :
  (0 <= r <= 255)%Z -> (0 <= g <= 255)%Z -> (0 <= b <= 255)%Z ->
  is_hex_color ("#" ++ pad_hex r ++ pad_hex g ++ pad_hex b)%string = true.
Proof.
  intros Hr Hg Hb.
  destruct (hex_pair_inv _ (pad_hex_hex_pair r Hr)) as (r1 & r2 & -> & Hr1 & Hr2).
  destruct (hex_pair_inv _ (pad_hex_hex_pair g Hg)) as (g1 & g2 & -> & Hg1 & Hg2).
  destruct (hex_pair_inv _ (pad_hex_hex_pair b Hb)) as (b1 & b2 & -> & Hb1 & Hb2).
  cbv -[is_hex_digit]. by rewrite Hr1, Hr2, Hg1, Hg2, Hb1, Hb2.
Qed.

(** X1. Whenever [rgbToHex] returns a string, it is a [#] followed by exactly
    six lower-case hexadecimal digits, whatever the channels of the color
    are (missing, [NaN], infinite or out of range). *)
Theorem rgbToHex_is_hex_color (rgb : option RGBA) (hex : string) :
  rgbToHex rgb = Some hex -> is_hex_color hex = true.
Proof.
  destruct rgb as [c| ]; [ |done]. intros Hhex.
  apply rgbToHex_shape in Hhex as (r & g & b & Hr & Hg & Hb & _ & _ & _ & ->).
  by apply is_hex_color_pad_hex.
Qed.

(** The theorem at a color with an infinite red channel. *)
Lemma rgbToHex_is_hex_color_example :
  is_hex_color "#ff8003" = true.
Proof.
  exact (rgbToHex_is_hex_color
           (Some {| chan_r := Some PInf; chan_g := Some (Fin (Qmake 1 2));
                    chan_b := Some (Fin (Qmake 1 100)); chan_a := None |})
           "#ff8003" eq_refl).
Defined.

(** X2. [figmaRgbaToStandardRgba] returns integers between 0 and 255 for [r],
    [g] and [b] on every input.  Its alpha is [NaN] only when the alpha of
    the color is [NaN]; otherwise it is a whole number of hundredths between
    0 and 1. *)
Theorem figmaRgbaToStandardRgba_range (figmaColor : option RGBA) :
  let rgba := figmaRgbaToStandardRgba figmaColor in
  (exists r g b,
     (0 <= r <= 255)%Z /\ (0 <= g <= 255)%Z /\ (0 <= b <= 255)%Z /\
     std_r rgba = num r /\ std_g rgba = num g /\ std_b rgba = num b) /\
  ((std_a rgba = NaN /\ exists c, figmaColor = Some c /\ chan_a c = Some NaN) \/
   exists z, (0 <= z <= 100)%Z /\ std_a rgba = Num_div (num z) (num 100)).
Proof.
  destruct figmaColor as [c| ]; cbn zeta.
  - split.
    + destruct (channel_byte_range (chan_r c)) as (r & Hr & Er).
      destruct (channel_byte_range (chan_g c)) as (g & Hg & Eg).
      destruct (channel_byte_range (chan_b c)) as (b & Hb & Eb).
      exists r, g, b. split; [done| ]. split; [done| ]. split; [done| ].
      split; [exact Er| ]. split; [exact Eg|exact Eb].
    + cbn [figmaRgbaToStandardRgba std_a].
      destruct (chan_a c) as [a| ] eqn:Ea.
      * destruct (isNaN a) eqn:Ha.
        -- destruct a; try done. left. split; [done| ]. by exists c.
        -- assert (a <> NaN) as Ha' by (by intros ->). right. destruct (clamp01_range a Ha') as (q & -> & H0 & H1).
           destruct (round_scaled_range q 100) as (z & Hz & ->); try done.
           by exists z.
      * right. exists 100%Z. split; [lia|done].
  - split.
    + exists 0%Z, 0%Z, 0%Z. repeat split; done.
    + right. exists 100%Z. split; [lia|done].
Qed.

(** X3. The inner [toHex] of [rgbToHex] clamps: a missing channel and every
    channel that is not above 0 ([NaN] and [-Infinity] included) give "00",
    and every channel that is a number not below 1 ([Infinity] included)
    gives "ff". *)
Theorem toHex_clamps (x : Num) :
  toHex None = "00" /\
  (Num_lt (num 0) x = false -> toHex (Some x) = "00") /\
  (x <> NaN -> Num_lt x (num 1) = false -> toHex (Some x) = "ff").
Proof.
  split; [done| ]. split.
  - intros Hx. destruct x as [| | |q]; try done.
    apply Num_lt_Fin_false in Hx.
    assert (Hc : clamp01 (or_zero (Some (Fin q))) = num 0).
    { unfold clamp01, or_zero. destruct (Num_truthy (Fin q)); [ |done].
      unfold Math_min, num.
      destruct (Num_lt (Fin q) (Fin (inject_Z 1))) eqn:E1.
      - unfold Math_max. destruct (Num_lt (Fin (inject_Z 0)) (Fin q)) eqn:E0; [ |done].
        apply Num_lt_Fin in E0. by apply Qlt_not_le in E0.
      - apply Num_lt_Fin_false in E1.
        assert (inject_Z 1 <= inject_Z 0)%Q by (eapply Qle_trans; eauto). done. }
    unfold toHex. change (Math_max _ _) with (clamp01 (or_zero (Some (Fin q)))).
    by rewrite Hc.
  - intros Hn Hx.
    assert (Hc : clamp01 (or_zero (Some x)) = num 1).
    { destruct x as [| | |q]; try done.
      apply Num_lt_Fin_false in Hx.
      unfold clamp01, or_zero.
      assert (Num_truthy (Fin q) = true) as ->.
      { cbn. apply negb_true_iff. destruct (Qeq_bool q 0) eqn:E; [ |done].
        apply Qeq_bool_iff in E. rewrite E in Hx. done. }
      unfold Math_min, num.
      assert (Num_lt (Fin q) (Fin (inject_Z 1)) = false) as -> by by apply Num_lt_Fin_false.
      done. }
    unfold toHex. change (Math_max _ _) with (clamp01 (or_zero (Some x))).
    by rewrite Hc.
Qed.

(** X4. The two normalizers agree on the channels: when [rgbToHex] returns a
    string for a color, its three pairs of digits are the hexadecimal forms
    of the [r], [g] and [b] that [figmaRgbaToStandardRgba] returns for that
    color. *)
Theorem rgbToHex_agrees_with_rgba (c : RGBA) :
  exists r g b,
    std_r (figmaRgbaToStandardRgba (Some c)) = num r /\
    std_g (figmaRgbaToStandardRgba (Some c)) = num g /\
    std_b (figmaRgbaToStandardRgba (Some c)) = num b /\
    (rgbToHex (Some c) = None \/
     rgbToHex (Some c) = Some ("#" ++ pad_hex r ++ pad_hex g ++ pad_hex b)%string).
Proof.
  destruct (channel_byte_range (chan_r c)) as (r & Hr & Er).
  destruct (channel_byte_range (chan_g c)) as (g & Hg & Eg).
  destruct (channel_byte_range (chan_b c)) as (b & Hb & Eb).
  exists r, g, b. split; [exact Er| ]. split; [exact Eg| ]. split; [exact Eb| ].
  unfold rgbToHex.
  rewrite (toHex_byte _ r Er Hr), (toHex_byte _ g Eg Hg), (toHex_byte _ b Eb Hb).
  destruct (_ && _); [by left|by right].
Qed.

Lemma clamp01_in_unit q :
  in_unit q -> exists q', clamp01 (or_zero (Some (Fin q))) = Fin q' /\ (q' == q)%Q.
Proof.
  intros [H0 H1]. unfold or_zero, Num_truthy.
  destruct (Qeq_bool q 0) eqn:Ez; cbn [negb].
  - apply Qeq_bool_iff in Ez. exists (inject_Z 0). split; [done| ]. by rewrite Ez.
  - assert (Hpos : (0 < q)%Q).
    { apply Qle_lteq in H0 as [?|Heq]; [done| ].
      symmetry in Heq. apply Qeq_bool_iff in Heq. congruence. }
    unfold clamp01, Math_min, num.
    destruct (Num_lt (Fin q) (Fin (inject_Z 1))) eqn:E1.
    + unfold Math_max.
      assert (Num_lt (Fin (inject_Z 0)) (Fin q) = true) as -> by by apply Num_lt_Fin.
      by exists q.
    + apply Num_lt_Fin_false in E1. exists (inject_Z 1). split; [done| ].
      by apply Qle_antisym.
Qed.

Lemma channel_byte_in_unit q :
  in_unit q -> channel_byte (Some (Fin q)) = Math_round (Num_mul (Fin q) (num 255)).
Proof.
  intros Hq. unfold channel_byte.
  destruct (clamp01_in_unit q Hq) as (q' & -> & Heq).
  cbn [Num_mul num]. do 2 f_equal. apply Qred_complete. by rewrite Heq.
Qed.

(** X5. On a color whose three channels are numbers between 0 and 1,
    [figmaRgbToStandardRgb] (which does not clamp) returns the [r], [g] and
    [b] of [figmaRgbaToStandardRgba]. *)
Theorem figmaRgbToStandardRgb_agrees (r g b : Q) (a : option Num) :
  in_unit r -> in_unit g -> in_unit b ->
  let color := {| chan_r := Some (Fin r); chan_g := Some (Fin g);
                  chan_b := Some (Fin b); chan_a := a |} in
  rgb_r (figmaRgbToStandardRgb color) = std_r (figmaRgbaToStandardRgba (Some color)) /\
  rgb_g (figmaRgbToStandardRgb color) = std_g (figmaRgbaToStandardRgba (Some color)) /\
  rgb_b (figmaRgbToStandardRgb color) = std_b (figmaRgbaToStandardRgba (Some color)).
Proof.
  intros Hr Hg Hb color.
  pose proof (channel_byte_in_unit r Hr) as Er.
  pose proof (channel_byte_in_unit g Hg) as Eg.
  pose proof (channel_byte_in_unit b Hb) as Eb.
  split; [symmetry; exact Er| ]. split; symmetry; [exact Eg|exact Eb].
Qed.

(** The theorem at red. *)
Lemma figmaRgbToStandardRgb_agrees_example :
  rgb_r (figmaRgbToStandardRgb Examples.red) = num 255 /\
  std_r (figmaRgbaToStandardRgba (Some Examples.red)) = num 255.
Proof.
  assert (H : in_unit (inject_Z 1) /\ in_unit (inject_Z 0)) by (repeat split; done).
  destruct H as [H1 H0].
  pose proof (proj1 (figmaRgbToStandardRgb_agrees _ _ _ (Some (num 1)) H1 H0 H0)) as E.
  split; [reflexivity| ]. etrans; [symmetry; exact E|reflexivity].
Defined.

Lemma Legacy_toHex_byte n z :
  Math_round (Num_mul n (num 255)) = num z -> Legacy.toHex n = pad_hex z.
Proof.
  intros Hz. unfold Legacy.toHex. rewrite Hz.
  unfold pad_hex, Num_toString16, num. by rewrite Qfloor_Z.
Qed.

Section PaintProofs.
Context {engine : JsEngine}.

(** X6. On channels between 0 and 1 the color helpers of the synchronous
    extractor agree with those of the exporter: its [rgbToHex(r, g, b)] is
    the string [rgbToHex] returns for the color, and its [rgbaToCSS] prints
    the channels [figmaRgbaToStandardRgba] computes, with the alpha as it was
    given. *)
Theorem legacy_color_helpers_agree (r g b : Q) (a : option Num) (alpha : Num) :
  in_unit r -> in_unit g -> in_unit b ->
  let color := {| chan_r := Some (Fin r); chan_g := Some (Fin g);
                  chan_b := Some (Fin b); chan_a := a |} in
  let rgba := figmaRgbaToStandardRgba (Some color) in
  rgbToHex (Some color) = Some (Legacy.rgbToHex (Fin r) (Fin g) (Fin b)) /\
  Legacy.rgbaToCSS (Fin r) (Fin g) (Fin b) alpha =
    rgba_string (std_r rgba) (std_g rgba) (std_b rgba) alpha.
Proof.
  intros Hr Hg Hb color rgba. split.
  - destruct (channel_byte_range (Some (Fin r))) as (zr & Hzr & Er).
    destruct (channel_byte_range (Some (Fin g))) as (zg & Hzg & Eg).
    destruct (channel_byte_range (Some (Fin b))) as (zb & Hzb & Eb).
    unfold rgbToHex, Legacy.rgbToHex, color. cbn [chan_r chan_g chan_b is_undefined orb].
    rewrite andb_false_r.
    rewrite (toHex_byte _ zr Er Hzr), (toHex_byte _ zg Eg Hzg), (toHex_byte _ zb Eb Hzb).
    rewrite (channel_byte_in_unit r Hr) in Er.
    rewrite (channel_byte_in_unit g Hg) in Eg.
    rewrite (channel_byte_in_unit b Hb) in Eb.
    by rewrite (Legacy_toHex_byte _ zr Er), (Legacy_toHex_byte _ zg Eg),
               (Legacy_toHex_byte _ zb Eb).
  - unfold Legacy.rgbaToCSS.
    rewrite <- (channel_byte_in_unit r Hr), <- (channel_byte_in_unit g Hg),
            <- (channel_byte_in_unit b Hb).
    reflexivity.
Qed.


(** X7. For a style whose first paint is SOLID and has a color,
    [generateSolidColorCSS] returns the value [processColorStyle] exports;
    where [processColorStyle] skips the style it returns "transparent"; it
    never throws on such a paint, and throws on a paint without a color. *)
Theorem generateSolidColorCSS_agrees
    (style : PaintStyle.t) (paint : Paint.t) (rest : list Paint.t) (c : RGBA) :
  PaintStyle.paints style = Some (paint :: rest) ->
  Paint.type paint = "SOLID" ->
  Paint.color paint = Some c ->
  (forall result, processColorStyle style = Fulfilled (Some result) ->
     generateSolidColorCSS paint = Fulfilled (ColorData.value result)) /\
  (processColorStyle style = Fulfilled None ->
     generateSolidColorCSS paint = Fulfilled "transparent") /\
  (exists css, generateSolidColorCSS paint = Fulfilled css) /\
  generateSolidColorCSS
    {| Paint.type := "SOLID"; Paint.opacity := Paint.opacity paint; Paint.color := None;
       Paint.gradientStops := None; Paint.gradientTransform := None;
       Paint.scaleMode := None |} = Rejected TypeError.
Proof.
  intros Hpaints Htype Hcolor.
  unfold processColorStyle, generateSolidColorCSS. rewrite Hpaints, Htype, Hcolor.
  cbn [String.eqb Ascii.eqb Bool.eqb andb Paint.color].
  destruct (Num_lt (solid_opacity paint) (num 1)).
  - split; [by intros result [= <-]| ]. split; [done| ]. split; [by eauto|done].
  - destruct (rgbToHex (Some c)) as [hex| ]; cbn [default from_option id].
    + split; [by intros result [= <-]| ]. split; [done| ]. split; [by eauto|done].
    + split; [done| ]. split; [done| ]. split; [by eauto|done].
Qed.

Lemma map_throwing_Fulfilled {A B} (f : A -> Promise B) (l : list A) ys :
  map_throwing f l = Fulfilled ys -> Forall (fun x => exists y, f x = Fulfilled y) l.
Proof.
  revert ys. induction l as [|x l IH]; intros ys; [constructor| ].
  cbn [map_throwing]. destruct (f x) as [y| ] eqn:Ex; [ |done]. cbn [await].
  destruct (map_throwing f l) as [ys'| ]; [ |done].
  intros _. constructor; eauto.
Qed.

Lemma is_gradient_not_SOLID type :
  is_gradient type = true -> String.eqb type "SOLID" = false.
Proof.
  unfold is_gradient. rewrite !orb_true_iff, !String.eqb_eq.
  intros [[[->| ->]| ->]| ->]; reflexivity.
Qed.

Lemma generateGradientCSS_Fulfilled paint gradientStops css :
  Paint.gradientStops paint = Some gradientStops ->
  generateGradientCSS paint = Fulfilled css ->
  Forall (fun stop => is_Some (ColorStop.color stop)) gradientStops.
Proof.
  intros Hstops. unfold generateGradientCSS. rewrite Hstops.
  destruct (map_throwing gradient_stop_css gradientStops) as [parts| ] eqn:E; [ |done].
  intros _. apply map_throwing_Fulfilled in E.
  eapply Forall_impl; [exact E| ]. intros stop [y Hy]. unfold gradient_stop_css in Hy.
  by destruct (ColorStop.color stop).
Qed.

Lemma stops_length_le {A B} (f : A -> B) (l : list A) n :
  length l <= n -> length (map f l) <= n.
Proof. by rewrite List.length_map. Qed.

Lemma valid_stops_hex (stops : list ColorStop.t) :
  Forall (fun stop => rgbToHex (ColorStop.color stop) <> None) stops ->
  Forall (fun stop => exists hex, StopData.color stop = Some hex /\ is_hex_color hex = true)
    (map (fun stop => {| StopData.color := rgbToHex (ColorStop.color stop);
                         StopData.position := percent (ColorStop.position stop) |})
         stops).
Proof.
  induction 1 as [|stop stops Hstop _ IH]; constructor; [ |exact IH].
  cbn [StopData.color].
  destruct (rgbToHex (ColorStop.color stop)) as [hex| ] eqn:Ehex; [ |done].
  exists hex. split; [done| ].
  destruct (ColorStop.color stop) as [c| ]; [ |done].
  apply rgbToHex_shape in Ehex as (r & g & b & Hr & Hg & Hb & _ & _ & _ & ->).
  by apply is_hex_color_pad_hex.
Qed.

(** X8. A record that [processColorStyle] returns for a gradient has the CSS
    of [generateGradientCSS] as its value; every stop of the paint has a
    color object (a stop without one makes the extractor throw); the
    exported stops are not empty, no more than the stops of the paint, and
    each carries a [#rrggbb] color. *)
Theorem gradient_record_stops
    (style : PaintStyle.t) (paint : Paint.t) (rest : list Paint.t) (result : ColorData.t) :
  PaintStyle.paints style = Some (paint :: rest) ->
  is_gradient (Paint.type paint) = true ->
  processColorStyle style = Fulfilled (Some result) ->
  exists gradientStops stops,
    Paint.gradientStops paint = Some gradientStops /\
    ColorData.stops result = Some stops /\
    generateGradientCSS paint = Fulfilled (ColorData.value result) /\
    Forall (fun stop => is_Some (ColorStop.color stop)) gradientStops /\
    stops <> [] /\
    length stops <= length gradientStops /\
    Forall (fun stop => exists hex, StopData.color stop = Some hex /\ is_hex_color hex = true)
           stops.
Proof.
  intros Hpaints Hgradient. unfold processColorStyle. rewrite Hpaints.
  rewrite (is_gradient_not_SOLID _ Hgradient), Hgradient.
  destruct (Paint.gradientStops paint) as [[|stop0 gradientStops]| ] eqn:Hstops; [done| |done].
  set (all := stop0 :: gradientStops).
  destruct (filter _ all) as [|valid validStops] eqn:Hvalid; [done| ].
  destruct (generateGradientCSS paint) as [css| ] eqn:Hcss; [ |done].
  cbn [await]. intros [= <-]. cbn [ColorData.stops ColorData.value].
  exists all. eexists. split; [done| ]. split; [reflexivity| ]. split; [done| ].
  split; [by eapply generateGradientCSS_Fulfilled| ].
  split; [done| ].
  split.
  - apply (stops_length_le _ (valid :: validStops)). rewrite <- Hvalid. apply length_filter.
  - apply (valid_stops_hex (valid :: validStops)). rewrite <- Hvalid.
    apply Forall_forall. intros x Hx. by apply list_elem_of_filter in Hx as [? _].
Qed.

End PaintProofs.

(** The theorem at red, with a half alpha. *)
Lemma legacy_color_helpers_agree_example :
  rgbToHex (Some Examples.red) = Some "#ff0000" /\
  Legacy.rgbToHex (num 1) (num 0) (num 0) = "#ff0000" /\
  Legacy.rgbaToCSS (engine := ExampleEngine.engine) (num 1) (num 0) (num 0) (Fin (Qmake 1 2)) =
    "rgba(255, 0, 0, 0.5)".
Proof.
  assert (H : in_unit (inject_Z 1) /\ in_unit (inject_Z 0)) by (repeat split; done).
  destruct H as [H1 H0].
  split; [ |split; reflexivity].
  exact (proj1 (legacy_color_helpers_agree (engine := ExampleEngine.engine)
                  _ _ _ (Some (num 1)) (num 0) H1 H0 H0)).
Defined.

(** The theorem at an opaque black paint. *)
Lemma generateSolidColorCSS_agrees_example :
  generateSolidColorCSS (engine := ExampleEngine.engine)
    (Examples.solid (Some (num 1)) (Some Examples.black)) = Fulfilled "#000000".
Proof.
  pose proof (proj1 (generateSolidColorCSS_agrees (engine := ExampleEngine.engine)
                       Examples.brand_primary _ _ _ eq_refl eq_refl eq_refl)) as H.
  exact (H _ eq_refl).
Defined.

(** The theorem at a linear gradient of two stops. *)
Lemma gradient_record_stops_example :
  exists result stops,
    processColorStyle (engine := ExampleEngine.engine) Examples.sunset =
      Fulfilled (Some result) /\
    ColorData.stops result = Some stops /\
    length stops <= 2.
Proof.
  destruct (gradient_record_stops (engine := ExampleEngine.engine)
              Examples.sunset _ _ _ eq_refl eq_refl eq_refl)
    as (gradientStops & stops & Hgs & Hstops & _ & _ & _ & Hlen & _).
  injection Hgs as <-.
  eexists _, stops. split; [reflexivity| ]. split; [exact Hstops|exact Hlen].
Defined.

(** ** Token name generators, continued *)

(** X9. Every result of [generateToken] consists of characters of [[a-z0-9-]]
    only, has no two hyphens in a row and no hyphen at either end. *)
Theorem generateToken_is_token (name : string) :
  is_token (list_ascii_of_string (generateToken name)).
Proof.
  unfold generateToken, on_chars. rewrite list_ascii_of_string_of_list_ascii.
  apply generateToken_chars_is_token.
Qed.

Lemma lower_char_idem c : lower_char (lower_char c) = lower_char c.
Proof. destruct c as [[] [] [] [] [] [] [] []]; vm_compute; reflexivity. Qed.

Lemma toLowerCase_chars_idem s : toLowerCase_chars (toLowerCase_chars s) = toLowerCase_chars s.
Proof.
  unfold toLowerCase_chars. rewrite map_map. apply map_ext. intros c. apply lower_char_idem.
Qed.

(** X10. Both token generators ignore case: a name and its lower-case form
    get the same token. *)
Theorem tokens_ignore_case (name : string) :
  generateToken (toLowerCase name) = generateToken name /\
  styleNameToToken (toLowerCase name) = styleNameToToken name.
Proof.
  unfold generateToken, styleNameToToken, toLowerCase, on_chars.
  rewrite !list_ascii_of_string_of_list_ascii.
  unfold generateToken_chars, styleNameToToken_chars.
  by rewrite toLowerCase_chars_idem.
Qed.





Section SqueezeShape.
Variables (p : ascii -> bool) (r : ascii).

Lemma squeeze_Forall (Q : ascii -> Prop) s :
  Q r -> Forall (fun c => p c = false -> Q c) s -> Forall Q (squeeze p r s).
Proof.
  intros Hr. induction 1 as [|c s Hc Hs IH]; [constructor| ].
  cbn [squeeze]. destruct (p c) eqn:E.
  - destruct s as [|c' s]; [by repeat constructor| ].
    destruct (p c'); [done|by constructor].
  - constructor; auto.
Qed.

Lemma squeeze_in c c' s :
  p c = true ->
  squeeze p r (c :: c' :: s) =
  if p c' then squeeze p r (c' :: s) else r :: squeeze p r (c' :: s).
Proof. intros Hc. cbn [squeeze]. by rewrite Hc. Qed.

Lemma squeeze_out c s : p c = false -> squeeze p r (c :: s) = c :: squeeze p r s.
Proof. intros Hc. cbn [squeeze]. by rewrite Hc. Qed.

Lemma squeeze_head c s :
  p c = true -> exists out, squeeze p r (c :: s) = r :: out.
Proof.
  revert c. induction s as [|c' s IH]; intros c Hc.
  - cbn [squeeze]. rewrite Hc. eauto.
  - destruct (p c') eqn:E.
    + destruct (IH c' E) as (out & Hout). exists out. rewrite <- Hout.
      cbn [squeeze]. by rewrite Hc, E.
    + cbn [squeeze]. rewrite Hc, E. eauto.
Qed.

Lemma squeeze_head_outside (q : ascii -> bool) s :
  q r = false -> head_outside q s -> head_outside q (squeeze p r s).
Proof.
  intros Hr. destruct s as [|c s]; [done| ]. intros Hc.
  destruct (p c) eqn:E.
  - destruct (squeeze_head c s E) as (out & ->). exact Hr.
  - cbn [squeeze]. rewrite E. exact Hc.
Qed.

(** Collapsing the runs of one class leaves a string without doubled
    characters of a disjoint class without them. *)
Lemma squeeze_no_double_other (q : ascii -> bool) s :
  q r = false -> (forall c, p c = true -> q c = false) ->
  no_double q s = true -> no_double q (squeeze p r s) = true.
Proof.
  intros Hr Hpq. induction s as [|c s IH]; [done| ].
  intros Hn. apply no_double_cons in Hn as [Hh Hn]. specialize (IH Hn).
  cbn [squeeze]. destruct (p c) eqn:E.
  - destruct s as [|c' s]; [done| ].
    destruct (p c') eqn:E'; [done| ].
    apply no_double_cons. split; [ |done]. intros Hq. congruence.
  - apply no_double_cons. split; [ |done].
    intros Hq. apply squeeze_head_outside; auto.
Qed.

End SqueezeShape.

Lemma squeeze_no_double x s : no_double (is_char x) (squeeze (is_char x) x s) = true.
Proof.
  rewrite <- replace_runs_squeeze. apply replace_runs_no_double.
Qed.

Lemma squeeze_fixed x s :
  no_double (is_char x) s = true -> squeeze (is_char x) x s = s.
Proof.
  intros Hn. rewrite <- replace_runs_squeeze.
  by apply (replace_runs_fixed _ x (is_char_refl _) (fun c => is_char_eq x c)).
Qed.

Section TrimShape.
Variable p : ascii -> bool.

Lemma drop_leading_Forall (P : ascii -> Prop) s :
  Forall P s -> Forall P (drop_leading p s).
Proof.
  induction 1 as [|c s Hc Hs IH]; [done| ]. cbn [drop_leading].
  destruct (p c); [done|by constructor].
Qed.

Lemma drop_leading_no_double q s :
  no_double q s = true -> no_double q (drop_leading p s) = true.
Proof.
  induction s as [|c s IH]; [done| ]. intros Hn. cbn [drop_leading].
  destruct (p c); [ |done]. apply no_double_cons in Hn as [_ Hn]. auto.
Qed.

Lemma drop_leading_head s : head_outside p (drop_leading p s).
Proof.
  induction s as [|c s IH]; [done| ]. cbn [drop_leading].
  destruct (p c) eqn:E; [done|exact E].
Qed.

Lemma drop_leading_fixed s : head_outside p s -> drop_leading p s = s.
Proof. destruct s as [|c s]; [done| ]. simpl. by intros ->. Qed.

Lemma drop_trailing_cons_inv s a t :
  drop_trailing p s = a :: t -> exists s', s = a :: s'.
Proof.
  destruct s as [|c s]; [done| ]. cbn [drop_trailing].
  destruct (drop_trailing p s); [destruct (p c)| ]; intros [= <- <-]; eauto.
Qed.

Lemma drop_trailing_Forall (P : ascii -> Prop) s :
  Forall P s -> Forall P (drop_trailing p s).
Proof.
  induction 1 as [|c s Hc Hs IH]; [done| ]. cbn [drop_trailing].
  destruct (drop_trailing p s); [destruct (p c); by repeat constructor| ].
  by constructor.
Qed.

Lemma drop_trailing_keeps_head q s :
  head_outside q s -> head_outside q (drop_trailing p s).
Proof.
  destruct (drop_trailing p s) as [|a t] eqn:E; [done| ].
  apply drop_trailing_cons_inv in E as (s' & ->). done.
Qed.

Lemma drop_trailing_no_double q s :
  no_double q s = true -> no_double q (drop_trailing p s) = true.
Proof.
  induction s as [|c s IH]; [done| ]. intros Hn.
  apply no_double_cons in Hn as [Hh Hn]. specialize (IH Hn).
  cbn [drop_trailing].
  destruct (drop_trailing p s) as [|a t] eqn:E; [by destruct (p c)| ].
  apply no_double_cons. split; [ |done]. intros Hq.
  apply drop_trailing_cons_inv in E as (s' & ->). by apply Hh.
Qed.

Lemma drop_trailing_last s : last_outside p (drop_trailing p s).
Proof.
  unfold last_outside. induction s as [|c s IH]; [done| ].
  cbn [drop_trailing].
  destruct (drop_trailing p s) as [|a t] eqn:E.
  - destruct (p c) eqn:Hc; [done|exact Hc].
  - exact IH.
Qed.

Lemma drop_trailing_fixed s : last_outside p s -> drop_trailing p s = s.
Proof.
  unfold last_outside. induction s as [|c s IH]; [done| ].
  cbn [drop_trailing]. destruct s as [|c' s].
  - simpl. by intros ->.
  - intros H. rewrite IH by exact H. done.
Qed.

End TrimShape.

Lemma slug_out_char_classes c :
  is_slug_out_char c = true ->
  lower_char c = c /\ is_slug_char c = true /\ is_space c = false.
Proof.
  destruct c as [[] [] [] [] [] [] [] []]; vm_compute; intros; try done; congruence.
Qed.

Lemma slug_char_classes c :
  is_slug_char c = true -> is_space c = false -> is_slug_out_char c = true.
Proof.
  destruct c as [[] [] [] [] [] [] [] []]; vm_compute; intros; try done; congruence.
Qed.

Section SlugProofs.
Local Abbreviation hu := (fun c => is_char hyphen c || is_char underscore c).

Lemma slugify_spec_chars_is_slug s : is_slug (slugify_spec_chars s).
Proof.
  unfold slugify_spec_chars, trim_class. rewrite <- drop_trailing_rev.
  set (w0 := filter _ _).
  assert (H0 : Forall (fun c => is_slug_char c = true) w0).
  { apply Forall_forall. intros c Hc. by apply list_elem_of_filter in Hc as [Hc _]. }
  set (w1 := squeeze is_space hyphen w0).
  assert (H1 : Forall (fun c => is_slug_out_char c = true) w1).
  { apply squeeze_Forall; [done| ].
    eapply Forall_impl; [exact H0| ]. intros c Hc. by apply slug_char_classes. }
  set (w2 := squeeze (is_char underscore) underscore w1).
  assert (H2 : Forall (fun c => is_slug_out_char c = true) w2).
  { apply squeeze_Forall; [done| ]. eapply Forall_impl; [exact H1|auto]. }
  set (w3 := squeeze (is_char hyphen) hyphen w2).
  assert (H3 : Forall (fun c => is_slug_out_char c = true) w3).
  { apply squeeze_Forall; [done| ]. eapply Forall_impl; [exact H2|auto]. }
  assert (Hhy : no_double (is_char hyphen) w3 = true) by apply squeeze_no_double.
  assert (Hus : no_double (is_char underscore) w3 = true).
  { apply squeeze_no_double_other; [done| |apply squeeze_no_double].
    intros c Hc. apply is_char_eq in Hc. by subst. }
  split; [by apply drop_trailing_Forall, drop_leading_Forall| ].
  split; [by apply drop_trailing_no_double, drop_leading_no_double| ].
  split; [by apply drop_trailing_no_double, drop_leading_no_double| ].
  split; [apply drop_trailing_keeps_head, drop_leading_head|apply drop_trailing_last].
Qed.

Lemma slugify_spec_chars_fixed t : is_slug t -> slugify_spec_chars t = t.
Proof.
  intros (Ht & Hhy & Hus & Hh & Hl).
  unfold slugify_spec_chars, trim_class. rewrite <- drop_trailing_rev.
  assert (map lower_char t = t) as ->.
  { clear -Ht. induction Ht as [|c t Hc _ IH]; [done| ].
    simpl. rewrite IH. f_equal. by apply slug_out_char_classes. }
  assert (filter (fun c => is_slug_char c = true) t = t) as ->.
  { clear -Ht. induction Ht as [|c t Hc _ IH]; [done| ].
    rewrite filter_cons, decide_True, IH; [done| ]. by apply slug_out_char_classes. }
  rewrite (squeeze_outside is_space).
  2:{ eapply Forall_impl; [exact Ht| ]. intros c Hc. by apply slug_out_char_classes. }
  rewrite (squeeze_fixed underscore) by done. rewrite (squeeze_fixed hyphen) by done.
  rewrite drop_leading_fixed by done.
  by apply drop_trailing_fixed.
Qed.

(** X12. Every result of [styleNameToToken] consists of characters of
    [[a-z0-9_-]] only, has no two hyphens and no two underscores in a row,
    and neither a hyphen nor an underscore at either end. *)
Theorem styleNameToToken_is_slug (name : string) :
  is_slug (list_ascii_of_string (styleNameToToken name)).
Proof.
  unfold styleNameToToken, on_chars. rewrite list_ascii_of_string_of_list_ascii.
  rewrite styleNameToToken_chars_spec. apply slugify_spec_chars_is_slug.
Qed.

(** X13. [styleNameToToken] is idempotent. *)
Theorem styleNameToToken_idempotent (name : string) :
  styleNameToToken (styleNameToToken name) = styleNameToToken name.
Proof.
  unfold styleNameToToken, on_chars. rewrite list_ascii_of_string_of_list_ascii.
  f_equal. rewrite !styleNameToToken_chars_spec.
  apply slugify_spec_chars_fixed, slugify_spec_chars_is_slug.
Qed.

End SlugProofs.

(** *** The two generators on plain names *)
Section SqueezeTwice.
Variables (p q : ascii -> bool) (r : ascii).
Hypothesis p_r : p r = false.
Hypothesis q_r : q r = true.

Lemma squeeze_squeeze s :
  squeeze q r (squeeze p r s) = squeeze (fun c => p c || q c) r s.
Proof.
  set (pq := fun c => p c || q c).
  induction s as [|c s IH]; [done| ].
  destruct (p c) eqn:Hp.
  - assert (Hpq : pq c = true) by (unfold pq; by rewrite Hp).
    destruct s as [|c' s]; [cbn [squeeze]; rewrite Hp, Hpq; cbn [squeeze]; by rewrite q_r| ].
    rewrite (squeeze_in p r c c' s Hp), (squeeze_in pq r c c' s Hpq).
    destruct (p c') eqn:Hp'.
    + assert (pq c' = true) as -> by (unfold pq; by rewrite Hp'). exact IH.
    + assert (pq c' = q c') as -> by (unfold pq; by rewrite Hp').
      rewrite (squeeze_out p r c' s Hp') in IH |- *.
      rewrite (squeeze_in q r r c' _ q_r). by rewrite IH.
  - rewrite (squeeze_out p r c s Hp).
    destruct (q c) eqn:Hq.
    + assert (Hpq : pq c = true) by (unfold pq; by rewrite Hp, Hq).
      destruct s as [|c' s]; [cbn [squeeze]; by rewrite Hq, Hpq| ].
      rewrite (squeeze_in pq r c c' s Hpq).
      destruct (p c') eqn:Hp'.
      * assert (pq c' = true) as -> by (unfold pq; by rewrite Hp').
        destruct (squeeze_head p r c' s Hp') as (out & Hout).
        rewrite Hout in IH |- *.
        rewrite (squeeze_in q r c r out Hq). by rewrite q_r.
      * assert (pq c' = q c') as -> by (unfold pq; by rewrite Hp').
        rewrite (squeeze_out p r c' s Hp') in IH |- *.
        rewrite (squeeze_in q r c c' _ Hq). by rewrite IH.
    + assert (Hpq : pq c = false) by (unfold pq; by rewrite Hp, Hq).
      rewrite (squeeze_out q r c _ Hq), (squeeze_out pq r c s Hpq). by rewrite IH.
Qed.

End SqueezeTwice.

Lemma squeeze_map_Forall {A} (p1 p2 : ascii -> bool) r (f g : A -> ascii) (s : list A) :
  Forall (fun x => p1 (f x) = p2 (g x) /\ (p1 (f x) = false -> f x = g x)) s ->
  squeeze p1 r (map f s) = squeeze p2 r (map g s).
Proof.
  induction 1 as [|x s [Hp Hfg] Hs IH]; [done| ].
  cbn [map squeeze]. rewrite <- Hp. destruct (p1 (f x)) eqn:Hx.
  - destruct s as [|y s]; [done| ]. cbn [map] in *.
    inversion Hs as [|? ? [Hpy _] _]; subst. rewrite <- Hpy.
    destruct (p1 (f y)); by rewrite IH.
  - by rewrite IH, Hfg.
Qed.

Lemma plain_name_char_classes c :
  is_plain_name_char c = true ->
  is_slug_char (lower_char c) = true /\
  is_char underscore (lower_char c) = false /\
  (is_a_z0_9 (lower_char c) = false ->
     (is_space (lower_char c) || is_char hyphen (lower_char c)) = true).
Proof.
  destruct c as [[] [] [] [] [] [] [] []]; vm_compute; intros; repeat split; try done; congruence.
Qed.

Lemma slugify_plain_name s :
  Forall (fun c => is_plain_name_char c = true) s ->
  slugify_spec_chars (separators_to_spaces s) = slugify_spec_chars s.
Proof.
  intros Hs. unfold slugify_spec_chars, separators_to_spaces. f_equal.
  rewrite map_map.
  set (f := fun c => lower_char (if is_a_z0_9 (lower_char c) then c else " "%char)).
  assert (Hf : Forall (fun c => is_slug_char c = true /\ is_char underscore c = false) (map f s)).
  { apply Forall_forall. intros c Hc. apply list_elem_of_fmap in Hc as (x & -> & _).
    subst f. cbv beta. destruct (is_a_z0_9 (lower_char x)) eqn:E; [ |done].
    by destruct (a_z0_9_classes _ E) as (_ & _ & -> & ->). }
  assert (Hl : Forall (fun c => is_slug_char c = true /\ is_char underscore c = false) (map lower_char s)).
  { apply Forall_forall. intros c Hc. apply list_elem_of_fmap in Hc as (x & -> & Hx).
    rewrite Forall_forall in Hs. by destruct (plain_name_char_classes x (Hs x Hx)) as (-> & -> & _). }
  assert (Hfilter : forall w,
     Forall (fun c => is_slug_char c = true /\ is_char underscore c = false) w ->
     filter (fun c => is_slug_char c = true) w = w).
  { induction 1 as [|c w [Hc _] _ IH]; [done| ]. by rewrite filter_cons, decide_True, IH. }
  assert (Hus : forall w,
     Forall (fun c => is_slug_char c = true /\ is_char underscore c = false) w ->
     squeeze (is_char underscore) underscore (squeeze is_space hyphen w) = squeeze is_space hyphen w).
  { intros w Hw. apply squeeze_outside. apply squeeze_Forall; [done| ].
    eapply Forall_impl; [exact Hw| ]. by intros c [_ ->]. }
  rewrite !Hfilter, !Hus by done.
  rewrite !squeeze_squeeze by done.
  apply squeeze_map_Forall.
  eapply Forall_impl; [exact Hs| ]. intros c Hc. subst f. cbv beta.
  destruct (plain_name_char_classes c Hc) as (_ & _ & Hsep).
  destruct (is_a_z0_9 (lower_char c)) eqn:E; [done| ].
  rewrite (Hsep eq_refl). split; [reflexivity| ]. intros H. vm_compute in H. discriminate H.
Qed.

(** X14. On a name made of ASCII letters, digits, white space and hyphens
    only, [generateToken] of the exporter and [styleNameToToken] of the
    synchronous extractor return the same token. *)
Theorem generators_agree_on_plain_names (name : string) :
  forallb is_plain_name_char (list_ascii_of_string name) = true ->
  generateToken name = styleNameToToken name.
Proof.
  intros Hname. rewrite List.forallb_forall in Hname.
  unfold generateToken, styleNameToToken, on_chars. f_equal.
  rewrite generateToken_chars_spec, styleNameToToken_chars_spec.
  apply slugify_plain_name, Forall_forall. intros c Hc. by apply Hname, list_elem_of_In.
Qed.

(** The theorem at a name with spaces and a hyphen. *)
Lemma generators_agree_on_plain_names_example :
  generateToken "Heading 1 - Bold" = "heading-1-bold" /\
  styleNameToToken "Heading 1 - Bold" = "heading-1-bold".
Proof.
  rewrite <- (generators_agree_on_plain_names "Heading 1 - Bold") by reflexivity.
  split; reflexivity.
Defined.

(** ** Text and grid styles, continued *)

Lemma match_three_digits_Some s digits :
  match_three_digits s = Some digits -> three_digits digits = true.
Proof.
  induction s as [|c1 s IH]; [done| ].
  cbn [match_three_digits]. destruct s as [|c2 [|c3 s]]; [done..| ].
  destruct (is_digit c1 && is_digit c2 && is_digit c3) eqn:E; [ |exact IH].
  intros [= <-]. exact E.
Qed.

Lemma weightMap_values kv : In kv weightMap -> three_digits (snd kv) = true.
Proof.
  assert (H : forallb (fun kv => three_digits (snd kv)) weightMap = true) by reflexivity.
  rewrite List.forallb_forall in H. apply H.
Qed.

Lemma parseFontWeight_digits fontStyle : three_digits (parseFontWeight fontStyle) = true.
Proof.
  unfold parseFontWeight.
  destruct (List.find _ weightMap) as [kv| ] eqn:E.
  - apply List.find_some in E as [Hin _]. by apply weightMap_values.
  - destruct (match_three_digits _) as [digits| ] eqn:Em; [ |reflexivity].
    by apply match_three_digits_Some in Em.
Qed.

Lemma three_digits_nonempty s : three_digits s = true -> String.eqb s "" = false.
Proof. by destruct s. Qed.

(** X15. [parseFontWeight] always returns three decimal digits, so the test
    [if (weight)] of [processTextStyle] never fails: the record has a
    [fontWeight] exactly when the style has a non-empty [fontName.style],
    and it is then the three digits [parseFontWeight] returns. *)
Theorem text_record_font_weight {engine : JsEngine} (style : TextStyle.t) (result : TextData.t) :
  processTextStyle style = Fulfilled (Some result) ->
  let fontStyle := TextStyle.fontName style ≫= FontName.style in
  TextData.fontWeight result =
    (if truthy_string fontStyle then Some (parseFontWeight (default "" fontStyle)) else None) /\
  (forall weight, TextData.fontWeight result = Some weight -> three_digits weight = true).
Proof.
  intros [= <-]. cbn [TextData.fontWeight]. cbv zeta.
  destruct (truthy_string _); [ |done].
  rewrite (three_digits_nonempty _ (parseFontWeight_digits _)).
  split; [done| ]. intros weight [= <-]. apply parseFontWeight_digits.
Qed.

(** The theorem at a style whose font style names no weight. *)
Lemma text_record_font_weight_example :
  exists result,
    processTextStyle (engine := ExampleEngine.engine)
      {| TextStyle.name := "Body"; TextStyle.description := None;
         TextStyle.fontName := Some {| FontName.family := Some "Inter";
                                       FontName.style := Some "Condensed Oblique" |};
         TextStyle.fontSize := None; TextStyle.lineHeight := None;
         TextStyle.letterSpacing := None; TextStyle.textCase := None;
         TextStyle.textDecoration := None |} = Fulfilled (Some result) /\
    TextData.fontWeight result = Some "400".
Proof.
  eexists. split; [reflexivity| ].
  exact (proj1 (text_record_font_weight (engine := ExampleEngine.engine) _ _ eq_refl)).
Defined.

Lemma starts_with_includes pre sub : forall s,
  starts_with (pre ++ sub) s = true -> includes_chars s sub = true.
Proof.
  induction pre as [|a pre IH]; intros s H.
  - cbn [app] in H. destruct s; cbn [includes_chars]; by rewrite H.
  - destruct s as [|c s]; [done| ]. cbn [app starts_with] in H.
    apply andb_true_iff in H as [_ H]. cbn [includes_chars].
    rewrite (IH s H). apply orb_true_r.
Qed.

Lemma includes_chars_suffix pre sub : forall s,
  includes_chars s (pre ++ sub) = true -> includes_chars s sub = true.
Proof.
  induction s as [|c s IH]; cbn [includes_chars].
  - rewrite orb_false_r. apply starts_with_includes.
  - intros [H|H]%orb_true_iff.
    + apply (starts_with_includes pre sub (c :: s) H).
    + rewrite (IH H). apply orb_true_r.
Qed.

(** X16. The entry "extrabold" of [weightMap] is never reached: a font style
    that contains "extrabold" contains "bold", which is listed before it, so
    [parseFontWeight] does not return "800" for it. *)
Theorem parseFontWeight_extrabold_is_shadowed (fontStyle : string) :
  includes (toLowerCase fontStyle) "extrabold" = true ->
  String.eqb (parseFontWeight fontStyle) "800" = false.
Proof.
  intros Hextra.
  assert (Hbold : includes (toLowerCase fontStyle) "bold" = true).
  { unfold includes in *.
    apply (includes_chars_suffix (list_ascii_of_string "extra") (list_ascii_of_string "bold")).
    exact Hextra. }
  unfold parseFontWeight, weightMap. cbn [List.find fst snd].
  repeat match goal with
         | |- context [if includes ?s ?k then _ else _] =>
             destruct (includes s k) eqn:?; [reflexivity| ]
         end.
  congruence.
Qed.

(** The theorem at the font style ExtraBold. *)
Lemma parseFontWeight_extrabold_is_shadowed_example :
  parseFontWeight "ExtraBold" = "700" /\
  String.eqb (parseFontWeight "ExtraBold") "800" = false.
Proof.
  split; [reflexivity| ].
  apply (parseFontWeight_extrabold_is_shadowed "ExtraBold"). reflexivity.
Defined.

(** *** Grid styles *)
Lemma Num_or_truthy x d : Num_truthy d = true -> Num_truthy (Num_or x d) = true.
Proof.
  intros Hd. unfold Num_or. destruct x as [n| ]; [ |done].
  by destruct (Num_truthy n) eqn:E.
Qed.

Lemma Num_or_not_NaN x d : isNaN d = false -> isNaN (Num_or x d) = false.
Proof.
  intros Hd. unfold Num_or. destruct x as [n| ]; [ |done].
  destruct (Num_truthy n) eqn:E; [ |done]. by destruct n.
Qed.

Lemma grid_entries_ok (layoutGrids : list LayoutGrid.t) :
  Forall (fun grid =>
            Num_truthy (GridEntry.count grid) = true /\
            Num_truthy (GridEntry.gutter grid) = true /\
            isNaN (GridEntry.margin grid) = false)
    (map (fun grid =>
            {| GridEntry.pattern := toLowerCase (LayoutGrid.pattern grid);
               GridEntry.count := Num_or (LayoutGrid.count grid) (num 12);
               GridEntry.gutter := Num_or (LayoutGrid.gutterSize grid) (num 20);
               GridEntry.margin := Num_or (LayoutGrid.offset grid) (num 0) |})
         layoutGrids).
Proof.
  induction layoutGrids as [|grid layoutGrids IH]; constructor; [ |exact IH].
  cbn. repeat split; first [by apply Num_or_truthy|by apply Num_or_not_NaN].
Qed.

(** X17. [processGridStyle] returns [null] exactly when the style has no
    layout grid.  Otherwise the record lists one entry per layout grid, and
    no entry has a [count] or a [gutter] that is 0 or [NaN], nor a [margin]
    that is [NaN]: the defaults 12, 20 and 0 take their place. *)
Theorem processGridStyle_grids (style : GridStyle.t) :
  let layoutGrids := default [] (GridStyle.layoutGrids style) in
  (processGridStyle style = Fulfilled None <-> layoutGrids = []) /\
  (forall result, processGridStyle style = Fulfilled (Some result) ->
     exists grids,
       GridData.grids result = Some grids /\
       length grids = length layoutGrids /\
       Forall (fun grid =>
                 Num_truthy (GridEntry.count grid) = true /\
                 Num_truthy (GridEntry.gutter grid) = true /\
                 isNaN (GridEntry.margin grid) = false) grids).
Proof.
  unfold processGridStyle.
  destruct (GridStyle.layoutGrids style) as [[|grid layoutGrids]| ];
    cbn [default from_option id]; [done| |done].
  split; [done| ].
  intros result [= <-]. eexists. split; [reflexivity| ].
  split; [apply (List.length_map _ (grid :: layoutGrids))| ].
  apply (grid_entries_ok (grid :: layoutGrids)).
Qed.

(** ** Variables, continued *)

Section ObjectShape.
Context {V : Type}.

Lemma obj_set_elem_value k (v : V) o kv : kv ∈ obj_set k v o -> kv = (k, v) \/ kv ∈ o.
Proof.
  unfold obj_set. destruct (has_key k o).
  - induction o as [|kv' o IH]; cbn [obj_update]; [by right| ].
    destruct (String.eqb k kv'.1).
    + intros [->|?]%elem_of_cons; [by left|right; by right].
    + intros [->|?]%elem_of_cons; [right; by left| ].
      destruct IH as [?|?]; [done|by left|right; by right].
  - induction o as [|kv' o IH]; cbn [obj_insert].
    + intros ->%list_elem_of_singleton. by left.
    + destruct (key_before k kv'.1).
      * intros [->|?]%elem_of_cons; [by left|by right].
      * intros [->|?]%elem_of_cons; [right; by left| ].
        destruct IH as [?|?]; [done|by left|right; by right].
Qed.

Lemma has_key_elem k (o : list (string * V)) : has_key k o = true <-> k ∈ map fst o.
Proof.
  unfold has_key. induction o as [|kv o IH]; cbn [existsb map].
  - split; [done| ]. by intros ?%not_elem_of_nil.
  - rewrite orb_true_iff, IH, elem_of_cons, String.eqb_eq. tauto.
Qed.

Lemma obj_update_keys k (v : V) o : map fst (obj_update k v o) = map fst o.
Proof.
  induction o as [|kv o IH]; [done| ]. cbn [obj_update].
  destruct (String.eqb_spec k kv.1) as [->|Hne]; [done| ].
  cbn [map]. by rewrite IH.
Qed.

Lemma obj_insert_keys k (v : V) o : map fst (obj_insert k v o) ≡ₚ k :: map fst o.
Proof.
  induction o as [|kv o IH]; [done| ]. cbn [obj_insert].
  destruct (key_before k kv.1); [done| ].
  cbn [map]. rewrite IH. apply perm_swap.
Qed.

Lemma obj_set_NoDup k (v : V) o : NoDup (map fst o) -> NoDup (map fst (obj_set k v o)).
Proof.
  intros Ho. unfold obj_set. destruct (has_key k o) eqn:Hk.
  - by rewrite obj_update_keys.
  - rewrite obj_insert_keys. constructor; [ |done].
    intros Hin. apply has_key_elem in Hin. congruence.
Qed.

Lemma obj_set_length k (v : V) o : length (obj_set k v o) <= S (length o).
Proof.
  unfold obj_set. destruct (has_key k o).
  - rewrite <- (List.length_map fst (obj_update k v o)), obj_update_keys, List.length_map. lia.
  - rewrite <- (List.length_map fst (obj_insert k v o)), obj_insert_keys. cbn.
    rewrite List.length_map. lia.
Qed.

End ObjectShape.

Section ValueProofs.
Context {engine : JsEngine} (figma : Figma.t).

Lemma clean_value_fits resolvedType actualValue cleanValue :
  clean_value resolvedType actualValue = (cleanValue, true) ->
  value_fits resolvedType cleanValue.
Proof.
  unfold clean_value, value_fits.
  destruct (String.eqb_spec resolvedType "COLOR") as [->|HnC].
  { destruct (as_color_object actualValue) as [c| ]; [ |done].
    destruct (Num_lt _ (num 1)) eqn:Ea.
    - intros [= <-]. split; [done| ]. split; [ |split; done].
      intros _. eexists. split; [reflexivity| ]. right.
      destruct (channel_byte_range (chan_r c)) as (r & Hr & Er).
      destruct (channel_byte_range (chan_g c)) as (g & Hg & Eg).
      destruct (channel_byte_range (chan_b c)) as (b & Hb & Eb).
      exists r, g, b, (std_a (figmaRgbaToStandardRgba (Some c))).
      repeat (split; [done| ]).
      cbn [figmaRgbaToStandardRgba std_r std_g std_b].
      change (Math_round (Num_mul (clamp01 (or_zero (chan_r c))) (num 255)))
        with (channel_byte (chan_r c)).
      change (Math_round (Num_mul (clamp01 (or_zero (chan_g c))) (num 255)))
        with (channel_byte (chan_g c)).
      change (Math_round (Num_mul (clamp01 (or_zero (chan_b c))) (num 255)))
        with (channel_byte (chan_b c)).
      by rewrite Er, Eg, Eb.
    - destruct (rgbToHex _) as [hex| ] eqn:Ehex; [ |done].
      intros [= <-]. split; [done| ]. split; [ |split; done].
      intros _. exists hex. split; [done| ]. left.
      apply rgbToHex_shape in Ehex as (r & g & b & Hr & Hg & Hb & _ & _ & _ & ->).
      by apply is_hex_color_pad_hex. }
  destruct (String.eqb_spec resolvedType "FLOAT") as [->|HnF].
  { destruct actualValue; try done.
    - intros [= <-]. split; [done| ]. split; [done| ]. split; [by eauto|done].
    - destruct (isNaN _); [done| ]. intros [= <-].
      split; [done| ]. split; [done| ]. split; [by eauto|done]. }
  destruct (String.eqb_spec resolvedType "STRING") as [->|HnS].
  { destruct actualValue as [| |b|n|[|a s]|c|id]; try done;
      intros [= <-]; split; [done| |done| |done| |done| |done| ];
      (split; [done| ]; split; done). }
  destruct (is_present actualValue) eqn:Hp; [ |done].
  intros [= <-]. split; [done| ]. split; [done| ]. split; done.
Qed.

Lemma mode_step_fits variable collection acc entry :
  Forall (fun kv => value_fits (FigmaVariable.resolvedType variable) kv.2) acc.1 ->
  NoDup (map fst acc.1) ->
  let acc' := mode_step figma variable collection acc entry in
  Forall (fun kv => value_fits (FigmaVariable.resolvedType variable) kv.2) acc'.1 /\
  NoDup (map fst acc'.1) /\
  length acc'.1 <= S (length acc.1).
Proof.
  destruct acc as [convertedValues hasValidValue], entry as [modeId rawValue].
  cbn [fst snd]. intros Hfits Hkeys. unfold mode_step.
  destruct (resolve_alias figma modeId rawValue) as [actualValue| ];
    [ |cbn [fst]; split; [done| ]; split; [done|lia] ].
  pose proof (clean_value_valid (FigmaVariable.resolvedType variable) actualValue) as Hv.
  pose proof (clean_value_fits (FigmaVariable.resolvedType variable) actualValue) as Hf.
  destruct (clean_value _ actualValue) as [cleanValue valid]. cbn [fst snd] in *.
  destruct (is_null_value cleanValue) eqn:Hnull; cbn [fst];
    [split; [done| ]; split; [done|lia]| ].
  cbn [negb] in Hv. subst valid.
  split; [ |split; [by apply obj_set_NoDup|apply obj_set_length] ].
  apply Forall_forall. intros kv [->|Hin]%obj_set_elem_value.
  - by apply Hf.
  - rewrite Forall_forall in Hfits. by apply Hfits.
Qed.

Lemma mode_loop_fits variable collection entries : forall acc,
  Forall (fun kv => value_fits (FigmaVariable.resolvedType variable) kv.2) acc.1 ->
  NoDup (map fst acc.1) ->
  let acc' := foldl (mode_step figma variable collection) acc entries in
  Forall (fun kv => value_fits (FigmaVariable.resolvedType variable) kv.2) acc'.1 /\
  NoDup (map fst acc'.1) /\
  length acc'.1 <= length acc.1 + length entries.
Proof.
  induction entries as [|entry entries IH]; intros acc Hfits Hkeys; cbn [foldl length].
  - cbn zeta. split; [done| ]. split; [done|lia].
  - destruct (mode_step_fits variable collection acc entry Hfits Hkeys) as (Hf & Hk & Hl).
    destruct (IH _ Hf Hk) as (Hf' & Hk' & Hl'). cbn zeta in *.
    split; [done| ]. split; [done|lia].
Qed.

(** X18. In a record that [processVariable] returns, the default value and
    every value per mode is neither [undefined] nor [null]; for a COLOR
    variable it is a string, either [#rrggbb] or [rgba(r, g, b, a)] with
    8-bit channels and an alpha below 1; for a FLOAT variable it is a number;
    for a STRING variable it is not the empty string.  The default value is
    the first entry of [values]. *)
Theorem processVariable_values_fit
    (variable : FigmaVariable.t) (collectionMap : CollectionMap) (result : VarData.t) :
  processVariable figma variable collectionMap = Fulfilled (Some result) ->
  value_fits (FigmaVariable.resolvedType variable) (VarData.value result) /\
  (forall values, VarData.values result = Some values ->
     Forall (fun kv => value_fits (FigmaVariable.resolvedType variable) kv.2) values /\
     exists modeName rest, values = (modeName, VarData.value result) :: rest).
Proof.
  unfold processVariable.
  pose proof (mode_loop_fits variable
                (collectionMap !! FigmaVariable.variableCollectionId variable)
                (FigmaVariable.valuesByMode variable) ([], false)) as Hloop.
  destruct (foldl _ _ _) as [convertedValues hasValidValue]. cbn [fst snd] in Hloop.
  destruct Hloop as (Hfits & _ & _); [constructor|constructor| ].
  destruct (negb hasValidValue || _) eqn:Hskip; [done| ].
  destruct convertedValues as [|[modeName v] rest];
    [by rewrite orb_true_r in Hskip| ].
  intros [= <-]. cbn [VarData.value VarData.values].
  inversion Hfits as [|? ? Hv Hrest]; subst. split; [exact Hv| ].
  intros values Hvalues. destruct (_ || _) in Hvalues; [ |done].
  injection Hvalues as <-. split; [done| ]. by eauto.
Qed.

(** X19. The [values] of a record have pairwise different mode names (a
    later mode with the name of an earlier one overwrites it) and are at
    least one and at most as many as the modes of the variable. *)
Theorem processVariable_mode_names_distinct
    (variable : FigmaVariable.t) (collectionMap : CollectionMap) (result : VarData.t)
    (values : list (string * VariableValue)) :
  processVariable figma variable collectionMap = Fulfilled (Some result) ->
  VarData.values result = Some values ->
  NoDup (map fst values) /\
  0 < length values <= length (FigmaVariable.valuesByMode variable).
Proof.
  unfold processVariable.
  pose proof (mode_loop_fits variable
                (collectionMap !! FigmaVariable.variableCollectionId variable)
                (FigmaVariable.valuesByMode variable) ([], false)) as Hloop.
  destruct (foldl _ _ _) as [convertedValues hasValidValue]. cbn [fst snd] in Hloop.
  destruct Hloop as (_ & Hkeys & Hlen); [constructor|constructor| ].
  destruct (negb hasValidValue || _) eqn:Hskip; [done| ].
  intros [= <-]. cbn [VarData.values].
  destruct ((1 <? _)%nat || _); [ |done]. intros [= <-].
  split; [done| ]. cbn [length] in Hlen. split; [ |lia].
  destruct convertedValues; [by rewrite orb_true_r in Hskip|cbn; lia].
Qed.


End ValueProofs.

(** The theorem at a red COLOR variable of the collection Brand. *)
Lemma processVariable_values_fit_example :
  exists result,
    processVariable (engine := ExampleEngine.engine) (Examples.document [Examples.brand] [])
      Examples.primary_red (build_collectionMap [Examples.brand]) = Fulfilled (Some result) /\
    VarData.value result = VString "#ff0000" /\
    value_fits (engine := ExampleEngine.engine) "COLOR" (VarData.value result).
Proof.
  eexists. split; [reflexivity| ]. split; [reflexivity| ].
  exact (proj1 (processVariable_values_fit (engine := ExampleEngine.engine)
                  (Examples.document [Examples.brand] []) Examples.primary_red
                  (build_collectionMap [Examples.brand]) _ eq_refl)).
Defined.

(** The theorem at a red COLOR variable of the collection Brand. *)
Lemma processVariable_mode_names_distinct_example :
  exists result values,
    processVariable (engine := ExampleEngine.engine) (Examples.document [Examples.brand] [])
      Examples.primary_red (build_collectionMap [Examples.brand]) = Fulfilled (Some result) /\
    VarData.values result = Some values /\
    NoDup (map fst values) /\ 0 < length values <= 1.
Proof.
  eexists _, _. split; [reflexivity| ]. split; [reflexivity| ].
  exact (processVariable_mode_names_distinct (engine := ExampleEngine.engine)
           (Examples.document [Examples.brand] []) Examples.primary_red
           (build_collectionMap [Examples.brand]) _ _ eq_refl eq_refl).
Defined.


(** ** The export orchestrator, continued *)

Lemma push_variable_inv varData c x :
  x ∈ all_variables (push_variable varData c) -> x = varData \/ x ∈ all_variables c.
Proof.
  unfold push_variable, all_variables.
  repeat destruct (String.eqb _ _); cbn;
    rewrite ?elem_of_app, ?list_elem_of_singleton; tauto.
Qed.

Lemma push_variable_well_filed varData c :
  well_filed c -> well_filed (push_variable varData c).
Proof.
  unfold well_filed, push_variable. intros (Hc & Hn & Hs & Hb).
  destruct (String.eqb_spec (VarData.type varData) "color");
    [cbn; rewrite Forall_app, Forall_singleton; tauto| ].
  destruct (String.eqb_spec (VarData.type varData) "float");
    [cbn; rewrite Forall_app, Forall_singleton; tauto| ].
  destruct (String.eqb_spec (VarData.type varData) "string");
    [cbn; rewrite Forall_app, Forall_singleton; tauto| ].
  destruct (String.eqb_spec (VarData.type varData) "boolean");
    [cbn; rewrite Forall_app, Forall_singleton; tauto| ].
  tauto.
Qed.

Lemma push_variable_names varData c :
  VarData.name varData ∉ map VarData.name (all_variables c) ->
  NoDup (map VarData.name (all_variables c)) ->
  NoDup (map VarData.name (all_variables (push_variable varData c))).
Proof.
  intros Hnew Hnodup.
  assert (Hmid : forall l1 l2 l : list VarData.t,
            l = l1 ++ varData :: l2 -> l1 ++ l2 = all_variables c ->
            NoDup (map VarData.name l)).
  { intros l1 l2 l -> Hl. rewrite <- Permutation_middle. cbn [map].
    rewrite Hl. by constructor. }
  set (v := CollectionData.variables c).
  unfold push_variable. fold v.
  destruct (String.eqb _ "color").
  { apply (Hmid (Buckets.colors v) (Buckets.numbers v ++ Buckets.strings v ++ Buckets.booleans v));
      [ |done]. unfold all_variables. cbn. by rewrite <- app_assoc. }
  destruct (String.eqb _ "float").
  { apply (Hmid (Buckets.colors v ++ Buckets.numbers v) (Buckets.strings v ++ Buckets.booleans v));
      unfold all_variables; [cbn|fold v]; by rewrite <- !app_assoc. }
  destruct (String.eqb _ "string").
  { apply (Hmid (Buckets.colors v ++ Buckets.numbers v ++ Buckets.strings v) (Buckets.booleans v));
      unfold all_variables; [cbn|fold v]; by rewrite <- !app_assoc. }
  destruct (String.eqb _ "boolean"); [ |done].
  apply (Hmid (Buckets.colors v ++ Buckets.numbers v ++ Buckets.strings v ++ Buckets.booleans v) []);
    unfold all_variables; [cbn|fold v]; by rewrite ?app_nil_r, <- ?app_assoc.
Qed.

Lemma initial_collections_lookup collections name c :
  initial_collections collections !! name = Some c ->
  CollectionData.variables c = empty_buckets /\
  exists col, col ∈ collections /\ VariableCollection.name col = name.
Proof.
  unfold initial_collections.
  assert (Hgen : forall (l : list VariableCollection.t) (m : gmap string CollectionData.t),
            foldl (fun m c =>
                     if String.eqb (VariableCollection.name c) "" then m
                     else <[VariableCollection.name c :=
                              {| CollectionData.id := VariableCollection.id c;
                                 CollectionData.modes :=
                                   map mode_data (VariableCollection.modes c);
                                 CollectionData.variables := empty_buckets |}]> m)
                  m l !! name = Some c ->
            m !! name = Some c \/
            (CollectionData.variables c = empty_buckets /\
             exists col, col ∈ l /\ VariableCollection.name col = name)).
  { induction l as [|col l IH]; intros m; cbn [foldl]; [by left| ].
    intros [Hm|(Hv & col' & Hin & Hname)]%IH.
    - destruct (String.eqb _ ""); [by left| ].
      destruct (decide (VariableCollection.name col = name)) as [Heq|Hne].
      + rewrite Heq, lookup_insert_eq in Hm. injection Hm as <-.
        right. split; [done| ]. exists col. split; [left|done].
      + rewrite lookup_insert_ne in Hm by done. by left.
    - right. split; [done| ]. exists col'. split; [by right|done]. }
  intros [Hm|?]%Hgen; [by rewrite lookup_empty in Hm|done].
Qed.

Lemma size_list_to_set_le (l : list string) : size (list_to_set (C := gset string) l) <= length l.
Proof.
  induction l as [|x l IH]; [by rewrite list_to_set_nil, size_empty| ].
  rewrite list_to_set_cons, size_union_alt, size_singleton. cbn [length].
  assert (size (list_to_set (C := gset string) l ∖ {[x]}) <= size (list_to_set (C := gset string) l)).
  { apply subseteq_size. intros y Hy. by apply elem_of_difference in Hy as [? _]. }
  lia.
Qed.

Section LoopInvariants.
Context {engine : JsEngine} (figma : Figma.t) (collectionMap : CollectionMap).

Local Abbreviation step := (variable_step figma collectionMap).
Local Abbreviation key := (variableKey_of collectionMap).
Local Abbreviation processed := (ExportState.processedVariableNames).
Local Abbreviation home variable :=
  (collectionName_of (collectionMap !! FigmaVariable.variableCollectionId variable)).
Local Abbreviation entry_for st variable :=
  (default (new_collection variable
              (collectionMap !! FigmaVariable.variableCollectionId variable))
           (ExportState.collections st !! home variable)).

Lemma processVariable_name variable result :
  processVariable figma variable collectionMap = Fulfilled (Some result) ->
  VarData.name result = FigmaVariable.name variable /\
  VarData.token result = generateToken (FigmaVariable.name variable) /\
  VarData.type result = toLowerCase (FigmaVariable.resolvedType variable).
Proof.
  unfold processVariable. destruct (foldl _ _ _) as [convertedValues hasValidValue].
  destruct (_ || _); [done| ]. by intros [= <-].
Qed.

(** An iteration either only counts the variable as skipped, or files its
    record in the collection of its name. *)
Lemma step_cases st variable :
  step st variable = skip_variable st \/
  exists varData,
    (key variable ∉ processed st) /\
    processVariable figma variable collectionMap = Fulfilled (Some varData) /\
    processed (step st variable) = {[key variable]} ∪ processed st /\
    ExportState.processedCount (step st variable) = S (ExportState.processedCount st) /\
    ExportState.skippedCount (step st variable) = ExportState.skippedCount st /\
    forall name,
      ExportState.collections (step st variable) !! name =
      if decide (name = home variable)
      then Some (push_variable varData (entry_for st variable))
      else ExportState.collections st !! name.
Proof.
  unfold variable_step.
  destruct (bool_decide_reflect (key variable ∈ processed st)) as [Hin|Hnin]; [by left| ].
  destruct (processVariable figma variable collectionMap) as [[varData| ]| ] eqn:E;
    [ |by left..].
  right. exists varData. split; [done| ]. split; [done| ].
  cbn [ExportState.processedVariableNames ExportState.processedCount
       ExportState.skippedCount ExportState.collections].
  split; [done| ]. split; [done| ]. split; [done| ].
  intros name. destruct (decide (name = home variable)) as [->|Hne].
  - rewrite lookup_alter_eq.
    destruct (ExportState.collections st !! home variable) as [c| ] eqn:Hc.
    + by rewrite Hc.
    + by rewrite lookup_insert_eq.
  - rewrite lookup_alter_ne by done.
    destruct (ExportState.collections st !! home variable); [done| ].
    by rewrite lookup_insert_ne.
Qed.

(** *** The counters *)

Lemma step_counters st variable :
  ExportState.processedCount (step st variable) + ExportState.skippedCount (step st variable) =
    S (ExportState.processedCount st + ExportState.skippedCount st) /\
  (ExportState.processedCount st = size (processed st) ->
   ExportState.processedCount (step st variable) = size (processed (step st variable))) /\
  exported_variables (ExportState.collections (step st variable)) +
    ExportState.processedCount st <=
  exported_variables (ExportState.collections st) +
    ExportState.processedCount (step st variable).
Proof.
  pose proof (step_count figma collectionMap st variable) as Hexp.
  destruct (step_cases st variable) as [Hskip|(varData & Hnew & _ & Hp & Hc & Hs & _)].
  - rewrite Hskip in *. cbn. split; [lia| ]. split; [done|lia].
  - rewrite Hp, Hc, Hs. split; [lia| ]. split; [ |lia].
    intros ->. rewrite size_union by (by apply disjoint_singleton_l). by rewrite size_singleton.
Qed.

Lemma loop_counters variables : forall st,
  let st' := foldl step st variables in
  ExportState.processedCount st' + ExportState.skippedCount st' =
    ExportState.processedCount st + ExportState.skippedCount st + length variables /\
  (ExportState.processedCount st = size (processed st) ->
   ExportState.processedCount st' = size (processed st')) /\
  exported_variables (ExportState.collections st') + ExportState.processedCount st <=
  exported_variables (ExportState.collections st) + ExportState.processedCount st'.
Proof.
  induction variables as [|v variables IH]; intros st; cbn [foldl length].
  - cbn zeta. split; [lia| ]. split; [done|lia].
  - destruct (step_counters st v) as (S1 & S2 & S3).
    destruct (IH (step st v)) as (I1 & I2 & I3). cbn zeta in *.
    split; [lia| ]. split; [auto|lia].
Qed.

(** *** Where the records come from *)

Lemma step_records (seen : list FigmaVariable.t) st variable :
  (forall name c, ExportState.collections st !! name = Some c ->
     well_filed c /\
     forall x, x ∈ all_variables c ->
       exists v, v ∈ seen /\ home v = name /\
                 processVariable figma v collectionMap = Fulfilled (Some x)) ->
  forall name c, ExportState.collections (step st variable) !! name = Some c ->
    well_filed c /\
    forall x, x ∈ all_variables c ->
      exists v, v ∈ seen ++ [variable] /\ home v = name /\
                processVariable figma v collectionMap = Fulfilled (Some x).
Proof.
  intros Hst name c Hc.
  assert (Hold : forall c', ExportState.collections st !! name = Some c' ->
            well_filed c' /\
            forall x, x ∈ all_variables c' ->
              exists v, v ∈ seen ++ [variable] /\ home v = name /\
                        processVariable figma v collectionMap = Fulfilled (Some x)).
  { intros c' Hc'. destruct (Hst name c' Hc') as [Hw Hx]. split; [done| ].
    intros x Hin. destruct (Hx x Hin) as (v & Hv & Hhome & Hr).
    exists v. split; [ |done]. apply elem_of_app. by left. }
  destruct (step_cases st variable) as [Hskip|(varData & _ & Hr & _ & _ & _ & Hlookup)].
  - rewrite Hskip in Hc. by apply Hold.
  - rewrite Hlookup in Hc. destruct (decide (name = home variable)) as [->|Hne]; [ |by apply Hold].
    injection Hc as <-.
    assert (Hentry : well_filed (entry_for st variable) /\
              forall x, x ∈ all_variables (entry_for st variable) ->
                exists v, v ∈ seen ++ [variable] /\ home v = home variable /\
                          processVariable figma v collectionMap = Fulfilled (Some x)).
    { destruct (ExportState.collections st !! home variable) as [c0| ] eqn:Hc0;
        cbn [default from_option id].
      - by apply Hold.
      - split; [by repeat split| ]. by intros x ?%not_elem_of_nil. }
    destruct Hentry as [Hw Hx]. split; [by apply push_variable_well_filed| ].
    intros x [->|Hin]%push_variable_inv; [ |by apply Hx].
    exists variable. split; [ |done]. apply elem_of_app. right. left.
Qed.

Lemma loop_records variables : forall (seen : list FigmaVariable.t) st,
  (forall name c, ExportState.collections st !! name = Some c ->
     well_filed c /\
     forall x, x ∈ all_variables c ->
       exists v, v ∈ seen /\ home v = name /\
                 processVariable figma v collectionMap = Fulfilled (Some x)) ->
  forall name c, ExportState.collections (foldl step st variables) !! name = Some c ->
    well_filed c /\
    forall x, x ∈ all_variables c ->
      exists v, v ∈ seen ++ variables /\ home v = name /\
                processVariable figma v collectionMap = Fulfilled (Some x).
Proof.
  induction variables as [|v variables IH]; intros seen st Hst; cbn [foldl].
  - by rewrite app_nil_r.
  - intros name c Hc.
    destruct (IH (seen ++ [v]) (step st v) (step_records seen st v Hst) name c Hc) as [Hw Hx].
    split; [done| ]. intros x Hin. rewrite <- app_assoc in Hx. by apply Hx.
Qed.

(** *** The names of the collections *)

Lemma step_collection_names (allowed : string -> Prop) st variable :
  allowed (home variable) ->
  (forall name, is_Some (ExportState.collections st !! name) -> allowed name) ->
  forall name, is_Some (ExportState.collections (step st variable) !! name) -> allowed name.
Proof.
  intros Hhome Hst name Hname.
  destruct (step_cases st variable) as [Hskip|(varData & _ & _ & _ & _ & _ & Hlookup)].
  - rewrite Hskip in Hname. by apply Hst.
  - rewrite Hlookup in Hname. destruct (decide (name = home variable)) as [->|Hne]; auto.
Qed.

Lemma loop_collection_names (allowed : string -> Prop) variables : forall st,
  (forall variable, allowed (home variable)) ->
  (forall name, is_Some (ExportState.collections st !! name) -> allowed name) ->
  forall name, is_Some (ExportState.collections (foldl step st variables) !! name) ->
    allowed name.
Proof.
  induction variables as [|v variables IH]; intros st Hhome Hst; cbn [foldl]; [done| ].
  apply IH; [done| ]. by apply step_collection_names.
Qed.

(** *** One record per name in a collection *)

Lemma step_unique_names st variable :
  (forall name c, ExportState.collections st !! name = Some c ->
     NoDup (map VarData.name (all_variables c)) /\
     forall x, x ∈ all_variables c -> (name ++ ":" ++ VarData.name x)%string ∈ processed st) ->
  forall name c, ExportState.collections (step st variable) !! name = Some c ->
    NoDup (map VarData.name (all_variables c)) /\
    forall x, x ∈ all_variables c ->
      (name ++ ":" ++ VarData.name x)%string ∈ processed (step st variable).
Proof.
  intros Hst name c Hc.
  destruct (step_cases st variable) as [Hskip|(varData & Hnew & Hr & Hp & _ & _ & Hlookup)].
  - rewrite Hskip in Hc |- *. by apply Hst.
  - rewrite Hp. rewrite Hlookup in Hc.
    assert (Hold : forall c', ExportState.collections st !! name = Some c' ->
              NoDup (map VarData.name (all_variables c')) /\
              forall x, x ∈ all_variables c' ->
                (name ++ ":" ++ VarData.name x)%string ∈ {[key variable]} ∪ processed st).
    { intros c' Hc'. destruct (Hst name c' Hc') as [Hn Hx]. split; [done| ].
      intros x Hin. apply elem_of_union. right. by apply Hx. }
    destruct (decide (name = home variable)) as [->|Hne]; [ |by apply Hold].
    injection Hc as <-.
    apply processVariable_name in Hr as (Hname & _ & _).
    assert (Hentry : NoDup (map VarData.name (all_variables (entry_for st variable))) /\
              forall x, x ∈ all_variables (entry_for st variable) ->
                (home variable ++ ":" ++ VarData.name x)%string ∈ processed st).
    { destruct (ExportState.collections st !! home variable) as [c0| ] eqn:Hc0;
        cbn [default from_option id].
      - by apply Hst.
      - split; [constructor| ]. by intros x ?%not_elem_of_nil. }
    destruct Hentry as [Hn Hx]. split.
    + apply push_variable_names; [ |done].
      intros Hin. apply list_elem_of_fmap in Hin as (x & Hxname & Hin).
      apply Hnew. unfold variableKey_of. rewrite <- Hname, Hxname. by apply Hx.
    + intros x [->|Hin]%push_variable_inv; apply elem_of_union.
      * left. apply elem_of_singleton. unfold variableKey_of. by rewrite Hname.
      * right. by apply Hx.
Qed.

Lemma loop_unique_names variables : forall st,
  (forall name c, ExportState.collections st !! name = Some c ->
     NoDup (map VarData.name (all_variables c)) /\
     forall x, x ∈ all_variables c -> (name ++ ":" ++ VarData.name x)%string ∈ processed st) ->
  forall name c, ExportState.collections (foldl step st variables) !! name = Some c ->
    NoDup (map VarData.name (all_variables c)) /\
    forall x, x ∈ all_variables c ->
      (name ++ ":" ++ VarData.name x)%string ∈ processed (foldl step st variables).
Proof.
  induction variables as [|v variables IH]; intros st Hst; cbn [foldl]; [done| ].
  apply IH. by apply step_unique_names.
Qed.

End LoopInvariants.

(** *** Pruning keeps every record *)

Lemma delete_empty_count (names : list string) : forall m : gmap string CollectionData.t,
  (forall name c, name ∈ names -> m !! name = Some c -> totalVariables c = 0) ->
  exported_variables (foldl (fun m name => delete name m) m names) = exported_variables m.
Proof.
  induction names as [|name names IH]; intros m Hempty; cbn [foldl]; [done| ].
  rewrite IH.
  - destruct (m !! name) as [c| ] eqn:Hc.
    + rewrite (exported_variables_delete m name c Hc).
      rewrite (Hempty name c); [done|left|done].
    + by rewrite delete_id.
  - intros name' c Hin Hc.
    destruct (decide (name' = name)) as [->|Hne]; [by rewrite lookup_delete_eq in Hc| ].
    rewrite lookup_delete_ne in Hc by done. apply (Hempty name' c); [by right|done].
Qed.

Lemma remove_empty_collections_count (m : gmap string CollectionData.t) :
  exported_variables (remove_empty_collections m) = exported_variables m.
Proof.
  unfold remove_empty_collections. apply delete_empty_count.
  intros name c Hin Hc. apply elem_of_collectionsToRemove in Hin as (c' & Hc' & Hz).
  congruence.
Qed.

(** X21. After the loop over the variables, [processedCount] and
    [skippedCount] add up to the number of variables, [processedCount] is the
    number of keys in [processedVariableNames], the collections hold at most
    [processedCount] records, and removing the empty collections removes no
    record. *)
Theorem process_variables_counters {engine : JsEngine} (figma : Figma.t)
    (collectionMap : CollectionMap) (collections : list VariableCollection.t)
    (variables : list FigmaVariable.t) :
  let st := process_variables figma collectionMap collections variables in
  ExportState.processedCount st + ExportState.skippedCount st = length variables /\
  ExportState.processedCount st = size (ExportState.processedVariableNames st) /\
  exported_variables (ExportState.collections st) <= ExportState.processedCount st /\
  exported_variables (remove_empty_collections (ExportState.collections st)) =
    exported_variables (ExportState.collections st).
Proof.
  cbn zeta. unfold process_variables.
  set (st0 := {| ExportState.collections := initial_collections collections;
                 ExportState.processedVariableNames := ∅;
                 ExportState.processedCount := 0; ExportState.skippedCount := 0 |}).
  destruct (loop_counters figma collectionMap variables st0) as (H1 & H2 & H3).
  cbn zeta in *. cbn [st0 ExportState.processedCount ExportState.skippedCount
                      ExportState.collections ExportState.processedVariableNames] in *.
  rewrite initial_collections_count in H3.
  split; [lia| ]. split; [by apply H2| ]. split; [lia| ].
  apply remove_empty_collections_count.
Qed.

Section DocumentProofs.
Context {engine : JsEngine} (figma : Figma.t).

Local Abbreviation state0 collections :=
  {| ExportState.collections := initial_collections collections;
     ExportState.processedVariableNames := ∅;
     ExportState.processedCount := 0; ExportState.skippedCount := 0 |}.

Lemma initial_collections_no_record collections name c :
  ExportState.collections (state0 collections) !! name = Some c ->
  well_filed c /\ all_variables c = [].
Proof.
  cbn [ExportState.collections]. intros [Hempty _]%initial_collections_lookup.
  unfold well_filed, all_variables. rewrite Hempty. by repeat split.
Qed.

Lemma export_document_shape (data : ExportDocument.t) :
  exportStylesAndVariables figma = Fulfilled data ->
  exists paintStyles textStyles effectStyles gridStyles variables collections,
    Figma.getLocalPaintStylesAsync figma = Fulfilled paintStyles /\
    Figma.getLocalTextStylesAsync figma = Fulfilled textStyles /\
    Figma.getLocalEffectStylesAsync figma = Fulfilled effectStyles /\
    Figma.getLocalGridStylesAsync figma = Fulfilled gridStyles /\
    Figma.getLocalVariablesAsync figma = Fulfilled variables /\
    Figma.getLocalVariableCollectionsAsync figma = Fulfilled collections /\
    ExportDocument.collections data =
      remove_empty_collections
        (ExportState.collections
           (process_variables figma (build_collectionMap collections) collections variables)) /\
    ExportDocument.styles data =
      {| Styles.colors := collect processColorStyle paintStyles;
         Styles.textStyles := collect processTextStyle textStyles;
         Styles.effectStyles := collect processEffectStyle effectStyles;
         Styles.gridStyles := collect processGridStyle gridStyles |} /\
    Metadata.collectionsFound (ExportDocument.metadata data) = length collections /\
    Metadata.collectionsExported (ExportDocument.metadata data) =
      size (ExportDocument.collections data).
Proof.
  unfold exportStylesAndVariables, fetch_all.
  destruct (Figma.getLocalPaintStylesAsync figma) as [paintStyles| ]; [ |done].
  destruct (Figma.getLocalTextStylesAsync figma) as [textStyles| ]; [ |done].
  destruct (Figma.getLocalEffectStylesAsync figma) as [effectStyles| ]; [ |done].
  destruct (Figma.getLocalGridStylesAsync figma) as [gridStyles| ]; [ |done].
  destruct (Figma.getLocalVariablesAsync figma) as [variables| ]; [ |done].
  destruct (Figma.getLocalVariableCollectionsAsync figma) as [collections| ]; [ |done].
  cbn. intros [= <-].
  exists paintStyles, textStyles, effectStyles, gridStyles, variables, collections.
  repeat (split; [reflexivity| ]). reflexivity.
Qed.

Lemma collectionName_of_fetched collections id :
  let name := collectionName_of (build_collectionMap collections !! id) in
  name = "Other" \/ exists col, col ∈ collections /\ VariableCollection.name col = name.
Proof.
  cbn zeta. destruct (build_collectionMap collections !! id) as [col| ] eqn:Hcol; [ |by left].
  apply build_collectionMap_elem in Hcol. cbn.
  destruct (String.eqb _ ""); [by left| ]. right. eauto.
Qed.

(** X22. Every collection of an exported document is named after a fetched
    collection or is "Other"; hence [collectionsExported] is at most
    [collectionsFound] plus one. *)
Theorem exported_collection_names (data : ExportDocument.t) :
  exportStylesAndVariables figma = Fulfilled data ->
  exists collections,
    Figma.getLocalVariableCollectionsAsync figma = Fulfilled collections /\
    (forall name, is_Some (ExportDocument.collections data !! name) ->
       name = "Other" \/
       exists col, col ∈ collections /\ VariableCollection.name col = name) /\
    Metadata.collectionsFound (ExportDocument.metadata data) = length collections /\
    Metadata.collectionsExported (ExportDocument.metadata data) =
      size (ExportDocument.collections data) /\
    Metadata.collectionsExported (ExportDocument.metadata data) <=
      S (Metadata.collectionsFound (ExportDocument.metadata data)).
Proof.
  intros Hdata.
  destruct (export_document_shape data Hdata)
    as (ps & ts & es & gs & variables & collections & _ & _ & _ & _ & _ & Hc & Hcoll & _ & Hf & He).
  exists collections. split; [done| ].
  assert (Hnames : forall name, is_Some (ExportDocument.collections data !! name) ->
            name = "Other" \/
            exists col, col ∈ collections /\ VariableCollection.name col = name).
  { intros name [c Hname]. rewrite Hcoll in Hname.
    apply remove_empty_collections_lookup in Hname as [Hname _].
    unfold process_variables in Hname.
    eapply (loop_collection_names figma (build_collectionMap collections)
              (fun name => name = "Other" \/
                 exists col, col ∈ collections /\ VariableCollection.name col = name));
      [ | |by eexists].
    - intros variable. apply collectionName_of_fetched.
    - intros name' [c' Hc']. cbn [ExportState.collections] in Hc'.
      apply initial_collections_lookup in Hc' as [_ ?]. by right. }
  split; [exact Hnames| ]. split; [done| ]. split; [done| ].
  rewrite He, Hf. rewrite <- size_dom.
  pose proof (size_list_to_set_le ("Other" :: map VariableCollection.name collections)) as Hle.
  cbn [length] in Hle. rewrite List.length_map in Hle.
  etrans; [ |exact Hle]. apply subseteq_size.
  intros name Hname. apply elem_of_dom in Hname.
  apply elem_of_list_to_set.
  destruct (Hnames name Hname) as [->|(col & Hcol & <-)]; [left|right].
  apply list_elem_of_fmap. eauto.
Qed.

(** X23. Every variable record of an exported document is the record
    [processVariable] returns for one of the fetched variables, filed under
    the collection name of that variable; it has the name of the variable,
    and its token is [generateToken] of that name. *)
Theorem exported_records_provenance (data : ExportDocument.t) :
  exportStylesAndVariables figma = Fulfilled data ->
  exists variables collections,
    Figma.getLocalVariablesAsync figma = Fulfilled variables /\
    Figma.getLocalVariableCollectionsAsync figma = Fulfilled collections /\
    forall name c x,
      ExportDocument.collections data !! name = Some c -> x ∈ all_variables c ->
      exists variable,
        variable ∈ variables /\
        collectionName_of
          (build_collectionMap collections !! FigmaVariable.variableCollectionId variable) =
          name /\
        processVariable figma variable (build_collectionMap collections) =
          Fulfilled (Some x) /\
        VarData.name x = FigmaVariable.name variable /\
        VarData.token x = generateToken (VarData.name x).
Proof.
  intros Hdata.
  destruct (export_document_shape data Hdata)
    as (ps & ts & es & gs & variables & collections & _ & _ & _ & _ & Hv & Hc & Hcoll & _).
  exists variables, collections. split; [done| ]. split; [done| ].
  intros name c x Hname Hx. rewrite Hcoll in Hname.
  apply remove_empty_collections_lookup in Hname as [Hname _].
  unfold process_variables in Hname.
  destruct (loop_records figma (build_collectionMap collections) variables []
              (state0 collections)) with (name := name) (c := c) as [_ Hrec];
    [ |exact Hname| ].
  - intros name' c' [Hw Hnil]%initial_collections_no_record. split; [done| ].
    rewrite Hnil. by intros x' ?%not_elem_of_nil.
  - destruct (Hrec x Hx) as (variable & Hin & Hhome & Hr).
    exists variable. split; [done| ]. split; [done| ]. split; [done| ].
    apply processVariable_name in Hr as (Hn & Ht & _). split; [done| ]. by rewrite Hn.
Qed.

(** X24. In every collection of an exported document each record is in the
    bucket of its type: [colors] holds records of type "color", [numbers] of
    type "float", [strings] of type "string" and [booleans] of type
    "boolean". *)
Theorem exported_records_well_filed (data : ExportDocument.t) :
  exportStylesAndVariables figma = Fulfilled data ->
  forall name c, ExportDocument.collections data !! name = Some c -> well_filed c.
Proof.
  intros Hdata name c Hname.
  destruct (export_document_shape data Hdata)
    as (ps & ts & es & gs & variables & collections & _ & _ & _ & _ & Hv & Hc & Hcoll & _).
  rewrite Hcoll in Hname.
  apply remove_empty_collections_lookup in Hname as [Hname _].
  unfold process_variables in Hname.
  destruct (loop_records figma (build_collectionMap collections) variables []
              (state0 collections)) with (name := name) (c := c) as [Hw _];
    [ |exact Hname|exact Hw].
  intros name' c' [Hw Hnil]%initial_collections_no_record. split; [done| ].
  rewrite Hnil. by intros x' ?%not_elem_of_nil.
Qed.

(** X25. Within a collection of an exported document no two variable
    records, over the four buckets, have the same name. *)
Theorem exported_names_are_unique (data : ExportDocument.t) :
  exportStylesAndVariables figma = Fulfilled data ->
  forall name c, ExportDocument.collections data !! name = Some c ->
    NoDup (map VarData.name (all_variables c)).
Proof.
  intros Hdata name c Hname.
  destruct (export_document_shape data Hdata)
    as (ps & ts & es & gs & variables & collections & _ & _ & _ & _ & Hv & Hc & Hcoll & _).
  rewrite Hcoll in Hname.
  apply remove_empty_collections_lookup in Hname as [Hname _].
  unfold process_variables in Hname.
  destruct (loop_unique_names figma (build_collectionMap collections) variables
              (state0 collections)) with (name := name) (c := c) as [Hn _];
    [ |exact Hname|exact Hn].
  intros name' c' [_ Hnil]%initial_collections_no_record.
  rewrite Hnil. split; [constructor| ]. by intros x ?%not_elem_of_nil.
Qed.

End DocumentProofs.

(** The theorem at a document with one collection and an orphan variable. *)
Lemma exported_collection_names_example :
  exists data collections,
    exportStylesAndVariables (engine := ExampleEngine.engine) Showcase.styled_document =
      Fulfilled data /\
    Figma.getLocalVariableCollectionsAsync Showcase.styled_document = Fulfilled collections /\
    Metadata.collectionsExported (ExportDocument.metadata data) <=
      S (Metadata.collectionsFound (ExportDocument.metadata data)).
Proof.
  destruct (exported_collection_names (engine := ExampleEngine.engine)
              Showcase.styled_document _ eq_refl)
    as (collections & Hc & _ & _ & _ & Hle).
  eexists _, collections. split; [reflexivity| ]. split; [exact Hc|exact Hle].
Defined.

(** The theorem at a document with three variables, two of one name. *)
Lemma exported_records_provenance_example :
  exists data variables collections,
    exportStylesAndVariables (engine := ExampleEngine.engine) Showcase.styled_document =
      Fulfilled data /\
    Figma.getLocalVariablesAsync Showcase.styled_document = Fulfilled variables /\
    Figma.getLocalVariableCollectionsAsync Showcase.styled_document = Fulfilled collections /\
    forall name c x,
      ExportDocument.collections data !! name = Some c -> x ∈ all_variables c ->
      VarData.token x = generateToken (VarData.name x).
Proof.
  destruct (exported_records_provenance (engine := ExampleEngine.engine)
              Showcase.styled_document _ eq_refl)
    as (variables & collections & Hv & Hc & Hall).
  eexists _, variables, collections. split; [reflexivity| ]. split; [exact Hv| ].
  split; [exact Hc| ]. intros name c x Hname Hx.
  destruct (Hall name c x Hname Hx) as (variable & _ & _ & _ & _ & Htoken). exact Htoken.
Defined.

(** The theorem at a document with a color and a number variable. *)
Lemma exported_records_well_filed_example :
  exists data,
    exportStylesAndVariables (engine := ExampleEngine.engine) Showcase.styled_document =
      Fulfilled data /\
    forall name c, ExportDocument.collections data !! name = Some c -> well_filed c.
Proof.
  eexists. split; [reflexivity| ].
  exact (exported_records_well_filed (engine := ExampleEngine.engine)
           Showcase.styled_document _ eq_refl).
Defined.

(** The theorem at a document with two variables of one name. *)
Lemma exported_names_are_unique_example :
  exists data,
    exportStylesAndVariables (engine := ExampleEngine.engine) Showcase.styled_document =
      Fulfilled data /\
    forall name c, ExportDocument.collections data !! name = Some c ->
      NoDup (map VarData.name (all_variables c)).
Proof.
  eexists. split; [reflexivity| ].
  exact (exported_names_are_unique (engine := ExampleEngine.engine)
           Showcase.styled_document _ eq_refl).
Defined.

(** *** The style lists *)

Section CollectLemmas.
Context {A B : Type} (process : A -> Promise (option B)).

Lemma collect_sublist {C} (f : A -> C) (g : B -> C) (items : list A) :
  (forall item data, process item = Fulfilled (Some data) -> g data = f item) ->
  sublist (map g (collect process items)) (map f items).
Proof.
  intros Hfg. unfold collect. induction items as [|item items IH]; [constructor| ].
  cbn [omap list_omap map].
  destruct (process item) as [[data| ]| ] eqn:E; cbn [map].
  - rewrite (Hfg item data E). by constructor.
  - by constructor.
  - by constructor.
Qed.

Lemma collect_Forall (P : B -> Prop) (items : list A) :
  (forall item data, process item = Fulfilled (Some data) -> P data) ->
  Forall P (collect process items).
Proof.
  intros HP. unfold collect. induction items as [|item items IH]; [constructor| ].
  cbn [omap list_omap].
  destruct (process item) as [[data| ]| ] eqn:E; [ |done..].
  constructor; eauto.
Qed.

Lemma collect_all {C} (f : A -> C) (g : B -> C) (items : list A) :
  (forall item, exists data, process item = Fulfilled (Some data) /\ g data = f item) ->
  map g (collect process items) = map f items.
Proof.
  intros Hall. unfold collect. induction items as [|item items IH]; [done| ].
  cbn [omap list_omap map].
  destruct (Hall item) as (data & -> & Hg). cbn [map]. by rewrite Hg, IH.
Qed.

End CollectLemmas.

Section StyleProofs.
Context {engine : JsEngine}.

Lemma processColorStyle_name style result :
  processColorStyle style = Fulfilled (Some result) ->
  ColorData.name result = PaintStyle.name style /\
  ColorData.token result = generateToken (ColorData.name result).
Proof.
  unfold processColorStyle.
  destruct (PaintStyle.paints style) as [[|paint rest]| ]; [done| |done].
  destruct (String.eqb _ "SOLID").
  { destruct (Num_lt _ _); [by intros [= <-]| ].
    destruct (rgbToHex _); [by intros [= <-]|done]. }
  destruct (is_gradient _).
  { destruct (Paint.gradientStops paint) as [[|stop stops]| ]; [done| |done].
    destruct (filter _ _); [done| ].
    destruct (generateGradientCSS paint); [ |done]. by intros [= <-]. }
  destruct (String.eqb _ "IMAGE"); by intros [= <-].
Qed.

Lemma processEffectStyle_name style result :
  processEffectStyle style = Fulfilled (Some result) ->
  EffectData.name result = EffectStyle.name style /\
  EffectData.token result = generateToken (EffectData.name result).
Proof.
  unfold processEffectStyle.
  destruct (EffectStyle.effects style) as [[|effect rest]| ]; [done| |done].
  destruct (_ || _); [done| ]. by intros [= <-].
Qed.

Lemma processGridStyle_name style result :
  processGridStyle style = Fulfilled (Some result) ->
  GridData.name result = GridStyle.name style /\
  GridData.token result = generateToken (GridData.name result).
Proof.
  unfold processGridStyle.
  destruct (GridStyle.layoutGrids style) as [[|grid rest]| ]; [done| |done].
  by intros [= <-].
Qed.

(** X26. The style lists of an exported document follow the document: every
    text style is exported, in order; the names of the exported color, effect
    and grid styles are a subsequence of the names of the fetched styles; and
    the token of every style record is [generateToken] of its name. *)
Theorem exported_styles_follow_the_document (figma : Figma.t) (data : ExportDocument.t) :
  exportStylesAndVariables figma = Fulfilled data ->
  let styles := ExportDocument.styles data in
  exists paintStyles textStyles effectStyles gridStyles,
    Figma.getLocalPaintStylesAsync figma = Fulfilled paintStyles /\
    Figma.getLocalTextStylesAsync figma = Fulfilled textStyles /\
    Figma.getLocalEffectStylesAsync figma = Fulfilled effectStyles /\
    Figma.getLocalGridStylesAsync figma = Fulfilled gridStyles /\
    map TextData.name (Styles.textStyles styles) = map TextStyle.name textStyles /\
    sublist (map ColorData.name (Styles.colors styles)) (map PaintStyle.name paintStyles) /\
    sublist (map EffectData.name (Styles.effectStyles styles))
            (map EffectStyle.name effectStyles) /\
    sublist (map GridData.name (Styles.gridStyles styles)) (map GridStyle.name gridStyles) /\
    Forall (fun r => ColorData.token r = generateToken (ColorData.name r))
           (Styles.colors styles) /\
    Forall (fun r => TextData.token r = generateToken (TextData.name r))
           (Styles.textStyles styles) /\
    Forall (fun r => EffectData.token r = generateToken (EffectData.name r))
           (Styles.effectStyles styles) /\
    Forall (fun r => GridData.token r = generateToken (GridData.name r))
           (Styles.gridStyles styles).
Proof.
  intros Hdata styles. subst styles.
  destruct (export_document_shape figma data Hdata)
    as (ps & ts & es & gs & variables & collections & Hp & Ht & He & Hg & _ & _ & _ & Hs & _).
  rewrite Hs. exists ps, ts, es, gs. repeat (split; [done| ]).
  cbn [Styles.colors Styles.textStyles Styles.effectStyles Styles.gridStyles].
  split; [apply collect_all; intros style; eexists; split; [reflexivity|done]| ].
  split; [apply collect_sublist; intros style r Hr; by apply processColorStyle_name in Hr as [? _]| ].
  split; [apply collect_sublist; intros style r Hr; by apply processEffectStyle_name in Hr as [? _]| ].
  split; [apply collect_sublist; intros style r Hr; by apply processGridStyle_name in Hr as [? _]| ].
  split; [apply collect_Forall; intros style r Hr; by apply processColorStyle_name in Hr as [_ ?]| ].
  split; [apply collect_Forall; by intros style r [= <-]| ].
  split; [apply collect_Forall; intros style r Hr; by apply processEffectStyle_name in Hr as [_ ?]| ].
  apply collect_Forall; intros style r Hr; by apply processGridStyle_name in Hr as [_ ?].
Qed.

End StyleProofs.

(** The theorem at a document with styles of the four kinds. *)
Lemma exported_styles_follow_the_document_example :
  exists data,
    exportStylesAndVariables (engine := ExampleEngine.engine) Showcase.styled_document =
      Fulfilled data /\
    map ColorData.name (Styles.colors (ExportDocument.styles data)) =
      ["Brand / Primary"; "Sunset"] /\
    map TextData.name (Styles.textStyles (ExportDocument.styles data)) = ["Body / Regular"] /\
    Forall (fun r => TextData.token r = generateToken (TextData.name r))
           (Styles.textStyles (ExportDocument.styles data)).
Proof.
  destruct (exported_styles_follow_the_document (engine := ExampleEngine.engine)
              Showcase.styled_document _ eq_refl)
    as (ps & ts & es & gs & _ & _ & _ & _ & _ & _ & _ & _ & _ & Htokens & _).
  eexists. split; [reflexivity| ]. split; [reflexivity| ]. split; [reflexivity| ].
  exact Htokens.
Defined.
